(** * The lazy member list of litecord (litecord/pubsub/lazy_guild.py)

    A shallow embedding of [MemberList], [GuildMemberList] and the part of
    [LazyGuildDispatcher] that [shard_query] delegates through, followed by
    the properties of the item sequence, of the subscription ranges and of the
    presence and role handlers.

    Conventions of the embedding.
    - Python ints are [Z]; ids that the source normalises with [int(...)]
      are kept as [Z] throughout, and [str(...)] of an int is its decimal
      form ([pretty]).
    - Dicts whose keys are data ([data], [presences], [members],
      [overwrites]) are [gmap]s; the [defaultdict] of sessions is an
      association list in insertion order, because [get_subs] returns the
      sessions in that order.
    - Dict literals with a fixed set of keys (items, payloads, operations)
      are records and variants.
    - Exceptions are values of [Exn]; every handler runs in a state monad
      whose state survives a raise, as the mutations of a Python object do.
    - [log] calls and the asyncio lock have no effect on the list and are
      left out; the model runs one handler at a time.
    - [unsub] and the lookup of a handler by the name of an event in
      [dispatch] are left out. The fields of a [MemberList] are therefore
      never [None]: only [unsub] sets them so. *)

From stdpp Require Import base gmap list strings pretty sorting.
From Stdlib Require Import ZArith Lia Ascii.

Local Open Scope Z_scope.

(** ** Results and the state monad *)

(** The Python exceptions the modelled code can raise. [OutOfFuel] is not
    one of them: it bounds the chain of delegations of [shard_query]. *)
Inductive Exn := KeyError | TypeError | ValueError | IndexError | OutOfFuel.

#[global] Instance Exn_eq_dec : EqDecision Exn.
Proof. solve_decision. Defined.

Inductive Res (A : Type) :=
  | Ok (a : A)
  | Raise (e : Exn).
Arguments Ok {A} a.
Arguments Raise {A} e.

Definition res_bind {A B} (r : Res A) (k : A -> Res B) : Res B :=
  match r with
  | Ok a => k a
  | Raise e => Raise e
  end.

(** [M S A]: a computation over a state [S] that returns an [A] or raises;
    the state reached is kept in both cases. *)
Definition M (S A : Type) : Type := S -> Res A * S.

Definition ret {S A} (a : A) : M S A := fun s => (Ok a, s).

Definition bind {S A B} (m : M S A) (k : A -> M S B) : M S B :=
  fun s => match m s with
           | (Ok a, s') => k a s'
           | (Raise e, s') => (Raise e, s')
           end.

Definition raise {S A} (e : Exn) : M S A := fun s => (Raise e, s).
Definition gets {S A} (f : S -> A) : M S A := fun s => (Ok (f s), s).
Definition modify {S} (f : S -> S) : M S unit := fun s => (Ok tt, f s).
Definition lift_res {S A} (r : Res A) : M S A := fun s => (r, s).

Declare Scope py_scope.
Delimit Scope py_scope with py.
Notation "'let*' x := m 'in' k" := (bind m (fun x => k))
  (at level 10, x pattern, m at level 100, k at level 200) : py_scope.
Notation "m >> k" := (bind m (fun _ => k))
  (at level 90, right associativity) : py_scope.
Notation "'let?' x := r 'in' k" := (res_bind r (fun x => k))
  (at level 10, x pattern, r at level 100, k at level 200) : py_scope.
Local Open Scope py_scope.

Fixpoint res_mapM {A B} (f : A -> Res B) (l : list A) : Res (list B) :=
  match l with
  | [] => Ok []
  | x :: rest =>
      let? y := f x in
      let? ys := res_mapM f rest in
      Ok (y :: ys)
  end.

(** ** Python lists *)

Definition len {A} (l : list A) : Z := Z.of_nat (length l).

(** [l.index(x)]: the first position of [x]; [None] stands for
    [ValueError]. *)
Fixpoint py_index (x : Z) (l : list Z) : option Z :=
  match l with
  | [] => None
  | y :: rest =>
      if bool_decide (y = x) then Some 0
      else option_map Z.succ (py_index x rest)
  end.

(** [l.remove(x)] removes the first occurrence. *)
Fixpoint py_remove (x : Z) (l : list Z) : Res (list Z) :=
  match l with
  | [] => Raise ValueError
  | y :: rest =>
      if bool_decide (y = x) then Ok rest
      else let? rest' := py_remove x rest in Ok (y :: rest')
  end.

(** A slice bound, as [list[start:stop]] normalises it. *)
Definition clamp_index (n i : Z) : Z :=
  if i <? 0 then Z.max (i + n) 0 else Z.min i n.

(** [l[start:stop]]: the half-open slice. *)
Definition py_slice {A} (l : list A) (start stop : Z) : list A :=
  let lo := clamp_index (len l) start in
  let hi := clamp_index (len l) stop in
  take (Z.to_nat (hi - lo)) (drop (Z.to_nat lo) l).

(** [l[i]] for an int [i]. *)
Definition py_getitem {A} (l : list A) (i : Z) : Res A :=
  let j := if i <? 0 then i + len l else i in
  if j <? 0 then Raise IndexError
  else match l !! Z.to_nat j with
       | Some x => Ok x
       | None => Raise IndexError
       end.

(** [l.insert(i, x)]: an index past the end appends. *)
Definition py_insert {A} (i : Z) (x : A) (l : list A) : list A :=
  let j := clamp_index (len l) i in
  take (Z.to_nat j) l ++ x :: drop (Z.to_nat j) l.

(** [del l[i]] for an index that [index_by_func] returned. *)
Definition py_del {A} (i : nat) (l : list A) : list A :=
  take i l ++ drop (S i) l.

(** Modelled from the spec: [litecord.utils.index_by_func] is not among the
    sources; its callers document it as the index of the first element that
    satisfies the function, and [None] when there is none. *)
Fixpoint index_by_func {A} (f : A -> bool) (l : list A) : option nat :=
  match l with
  | [] => None
  | x :: rest => if f x then Some 0%nat else option_map S (index_by_func f rest)
  end.

(** ** Stable sorting

    [sorted] and [list.sort] are stable, also with [reverse=True]. *)

Section StableSort.
Context {A : Type} (before : A -> A -> bool).

(** [before y x] holds when [y] must stay in front of an [x] that preceded
    it in the input. *)
Fixpoint sort_insert (x : A) (sorted : list A) : list A :=
  match sorted with
  | [] => [x]
  | y :: rest =>
      if before y x then y :: sort_insert x rest else x :: y :: rest
  end.

Definition stable_sort (l : list A) : list A := foldr sort_insert [] l.

End StableSort.

(** ** Data model *)

(** [GroupID = Union[int, str]]: a role id, or one of the tags ['online']
    and ['offline']. *)
Inductive GroupID :=
  | GRole (rid : Z)
  | GTag (tag : string).

#[global] Instance GroupID_eq_dec : EqDecision GroupID.
Proof. solve_decision. Defined.

#[global] Instance GroupID_countable : Countable GroupID.
Proof.
  refine (inj_countable'
            (fun g => match g with GRole z => inl z | GTag s => inr s end)
            (fun x => match x with inl z => GRole z | inr s => GTag s end) _).
  by intros [].
Defined.

Definition online : GroupID := GTag "online".
Definition offline : GroupID := GTag "offline".

(** [str(gid)] *)
Definition str_gid (g : GroupID) : string :=
  match g with
  | GRole z => pretty z
  | GTag s => s
  end.

(** Truth value of a group id ([if not old_group]): [0] and [''] are
    false. *)
Definition gid_truthy (g : GroupID) : bool :=
  match g with
  | GRole z => negb (z =? 0)
  | GTag s => negb (bool_decide (s = ""))
  end.

(** Values the list only carries along ([game], [activities], the body of
    an overwrite). *)
Inductive Json :=
  | JNull
  | JNum (z : Z)
  | JStr (s : string).

Record GroupInfo := mkGroupInfo {
  gid : GroupID;
  name : string;
  position : Z;
  permissions : Z;
}.

Record User := mkUser {
  user_id : Z;
  username : string;
}.

(** A member as the storage returns it: the keys the list reads are
    ['user'] and ['nick'] ([None] when the member has no nickname). *)
Record Member := mkMember {
  m_user : User;
  m_nick : option string;
}.

Record Presence := mkPresence {
  p_user : User;
  p_status : string;
  p_game : Json;
  p_activities : Json;
  p_roles : list Z;
}.

(** A partial presence is a dict with any subset of the keys of a
    presence, and possibly ['nick']: a field is [Some] when its key is
    present. *)
Record PartialPresence := mkPartial {
  pp_nick : option Json;
  pp_user : option User;
  pp_status : option string;
  pp_game : option Json;
  pp_activities : option Json;
  pp_roles : option (list Z);
}.

(** [presence.update(partial)] *)
Definition presence_update (p : Presence) (pp : PartialPresence) : Presence :=
  {| p_user := default (p_user p) (pp_user pp);
     p_status := default (p_status p) (pp_status pp);
     p_game := default (p_game p) (pp_game pp);
     p_activities := default (p_activities p) (pp_activities pp);
     p_roles := default (p_roles p) (pp_roles pp) |}.

Record Overwrite := mkOverwrite {
  ov_id : Z;
  ov_body : Json;
}.

(** A role as the role events carry it, and as a row of the [roles]
    table. *)
Record Role := mkRole {
  role_id : Z;
  role_name : string;
  role_hoist : bool;
  role_position : Z;
  role_perms : Z;
}.

Record MemberList := mkMemberList {
  groups : list GroupInfo;
  data : gmap GroupID (list Z);
  presences : gmap Z Presence;
  members : gmap Z (option Member);
  overwrites : gmap Z Overwrite;
}.

(** [MemberList()] *)
Definition MemberList_new : MemberList :=
  {| groups := []; data := ∅; presences := ∅; members := ∅; overwrites := ∅ |}.

Definition map_truthy `{Countable K} {V} (m : gmap K V) : bool :=
  negb (bool_decide (size m = 0%nat)).

(** [MemberList.__bool__]: the list is fully initialized. *)
Definition initialized (l : MemberList) : bool :=
  negb (bool_decide (groups l = [] :> list GroupInfo))
  && map_truthy (data l) && map_truthy (presences l) && map_truthy (members l).

(** ** Items, operations and payloads *)

(** The ['presence'] entry that [merge] lays over a member. *)
Record ItemPresence := mkItemPresence {
  ip_user_id : string;
  ip_status : string;
  ip_game : Json;
  ip_activities : Json;
}.

Inductive Item :=
  | GroupItem (id : string) (count : Z)
      (* {'group': {'id': id, 'count': count}} *)
  | MemberItem (m : Member) (p : ItemPresence)
      (* {'member': {**member, 'presence': p}} *)
  | BareGroup (group : string) (count : Z).
      (* {'group': group, 'count': count}, built by _pres_update_complex *)

(** An item index as the handlers pass it around: an int, [None], or, in
    [role_pos_update], the bound method [get_group_item_index] itself. *)
Inductive Index :=
  | IInt (z : Z)
  | INone
  | IMethod.

Definition index_of_option (o : option Z) : Index :=
  match o with
  | Some z => IInt z
  | None => INone
  end.

(** [Operation(list_op, params)]: a field of the parameters is [Some] when
    the key is in [params]. *)
Record Operation := mkOperation {
  list_op : string;
  params_items : option (list Item);
  params_range : option (Z * Z);
  params_index : option Index;
  params_item : option Item;
}.

Definition Operation_SYNC (range : Z * Z) (items : list Item) : Operation :=
  mkOperation "SYNC" (Some items) (Some range) None None.
Definition Operation_DELETE (index : Index) : Operation :=
  mkOperation "DELETE" None None (Some index) None.
Definition Operation_INSERT (index : Index) (item : Item) : Operation :=
  mkOperation "INSERT" None None (Some index) (Some item).
Definition Operation_UPDATE (index : Index) (item : Item) : Operation :=
  mkOperation "UPDATE" None None (Some index) (Some item).

(** The dict [Operation.to_dict] returns. *)
Record OpDict := mkOpDict {
  op : string;
  op_items : option (list Item);
  op_range : option (Z * Z);
  op_index : option Index;
  op_item : option Item;
}.

Definition elem_str (x : string) (l : list string) : bool :=
  bool_decide (x ∈ l).

Definition param {A} (o : option A) : Res A :=
  match o with
  | Some a => Ok a
  | None => Raise KeyError
  end.

Definition to_dict (o : Operation) : Res OpDict :=
  if negb (elem_str (list_op o) ["SYNC"; "INVALIDATE"; "INSERT"; "UPDATE"; "DELETE"])
  then Raise ValueError
  else
    let? items :=
      if elem_str (list_op o) ["SYNC"]
      then let? x := param (params_items o) in Ok (Some x) else Ok None in
    let? range :=
      if elem_str (list_op o) ["SYNC"; "INVALIDATE"]
      then let? x := param (params_range o) in Ok (Some x) else Ok None in
    let? index :=
      if elem_str (list_op o) ["INSERT"; "DELETE"; "UPDATE"]
      then let? x := param (params_index o) in Ok (Some x) else Ok None in
    let? item :=
      if elem_str (list_op o) ["INSERT"; "UPDATE"]
      then let? x := param (params_item o) in Ok (Some x) else Ok None in
    Ok (mkOpDict (list_op o) items range index item).

Record GroupCount := mkGroupCount {
  gc_id : string;
  gc_count : Z;
}.

(** The payload of a [GUILD_MEMBER_LIST_UPDATE]. *)
Record Payload := mkPayload {
  payload_id : string;
  payload_guild_id : string;
  payload_groups : list GroupCount;
  payload_ops : list OpDict;
}.

(** One [state.ws.dispatch(event, payload)]. *)
Record Dispatched := mkDispatched {
  to_session : string;
  event : string;
  payload : Payload;
}.

(** One [loop.create_task(self.shard_query(session_id, ranges))]. *)
Record Task := mkTask {
  task_channel : Z;
  task_session : string;
  task_ranges : list (Z * Z);
}.

(** ** Reading a member list *)

Definition getitem `{Countable K} {V} (m : gmap K V) (k : K) : Res V :=
  match m !! k with
  | Some v => Ok v
  | None => Raise KeyError
  end.

(** [merge(member, presence)]; a member stored as [None] cannot be
    unpacked. *)
Definition merge (member : option Member) (presence : Presence) : Res Item :=
  match member with
  | None => Raise TypeError
  | Some m =>
      Ok (MemberItem m
            {| ip_user_id := pretty (user_id (m_user m));
               ip_status := p_status presence;
               ip_game := p_game presence;
               ip_activities := p_activities presence |})
  end.

Definition get_member_as_item (l : MemberList) (member_id : Z) : Res Item :=
  let? member := getitem (members l) member_id in
  let? presence := getitem (presences l) member_id in
  merge member presence.

(** The loop of [items] over [MemberList.__iter__], which looks
    [data[group.gid]] up as each group is reached. *)
Fixpoint items_loop (l : MemberList) (gs : list GroupInfo) : Res (list Item) :=
  match gs with
  | [] => Ok []
  | group :: rest =>
      let? member_ids := getitem (data l) (gid group) in
      match member_ids with
      | [] => items_loop l rest
      | _ =>
          let? ms := res_mapM (get_member_as_item l) member_ids in
          let? tail := items_loop l rest in
          Ok (GroupItem (str_gid (gid group)) (len member_ids) :: ms ++ tail)
      end
  end.

(** The [items] property. *)
Definition items (l : MemberList) : Res (list Item) :=
  if negb (initialized l) then Ok [] else items_loop l (groups l).

(** [groups_complete], over [iter_non_empty], run to its end: the groups
    with members, and ['offline'] in any case, each with its count. *)
Fixpoint groups_complete_loop (l : MemberList) (gs : list GroupInfo)
  : Res (list (GroupInfo * Z)) :=
  match gs with
  | [] => Ok []
  | group :: rest =>
      let? member_ids := getitem (data l) (gid group) in
      if bool_decide (gid group = offline) || negb (len member_ids =? 0)
      then let? tail := groups_complete_loop l rest in
           Ok ((group, len member_ids) :: tail)
      else groups_complete_loop l rest
  end.

Definition groups_complete (l : MemberList) : Res (list (GroupInfo * Z)) :=
  groups_complete_loop l (groups l).

(** [get_item_index]: the loop stops at the first group that holds the
    user, so later groups are never looked up. *)
Fixpoint get_item_index_loop (l : MemberList) (user : Z) (index : Z)
    (gs : list GroupInfo) : Res (option Z) :=
  match gs with
  | [] => Ok None
  | group :: rest =>
      let? member_ids := getitem (data l) (gid group) in
      if bool_decide (gid group = offline) || negb (len member_ids =? 0)
      then match py_index user member_ids with
           | Some relative_index => Ok (Some (index + relative_index))
           | None => get_item_index_loop l user (index + (1 + len member_ids)) rest
           end
      else get_item_index_loop l user index rest
  end.

Definition get_item_index (l : MemberList) (user : Z) : Res (option Z) :=
  get_item_index_loop l user 1 (groups l).

Fixpoint get_group_item_index_loop (l : MemberList) (group_id : GroupID)
    (index : Z) (gs : list GroupInfo) : Res (option Z) :=
  match gs with
  | [] => Ok None
  | group :: rest =>
      let? member_ids := getitem (data l) (gid group) in
      if bool_decide (gid group = offline) || negb (len member_ids =? 0)
      then if bool_decide (gid group = group_id) then Ok (Some index)
           else get_group_item_index_loop l group_id
                  (index + (1 + len member_ids)) rest
      else get_group_item_index_loop l group_id index rest
  end.

Definition get_group_item_index (l : MemberList) (group_id : GroupID)
  : Res (option Z) :=
  get_group_item_index_loop l group_id 0 (groups l).

(** [is_empty] and [is_birth] *)
Definition is_empty (l : MemberList) (group_id : option GroupID) : Res bool :=
  match group_id with
  | None => Raise KeyError
  | Some g => let? ids := getitem (data l) g in Ok (len ids =? 0)
  end.

Definition is_birth (l : MemberList) (group_id : option GroupID) : Res bool :=
  match group_id with
  | None => Raise KeyError
  | Some g => let? ids := getitem (data l) g in Ok (len ids =? 1)
  end.

(** ** The collaborators

    Storage, presence manager, permissions and session registry are not part
    of the list; the handlers reach them through [self.main.app]. They are
    taken as given functions, which answer every call: a collaborator that
    fails is outside the model. *)

Record Env := mkEnv {
  (* litecord.permissions *)
  overwrite_find_mix : Z -> gmap Z Overwrite -> GroupID -> Z;
  read_messages : Z -> bool;               (* perms.bits.read_messages *)
  get_permissions : Z -> Z -> Z;           (* member id, channel id *)
  role_permissions : Z -> Z -> Z -> Z;     (* guild id, role id, channel id *)
  (* storage *)
  fetch_roles : Z -> list Role;            (* the rows of the guild's roles *)
  chan_overwrites : Z -> list Overwrite;
  get_member_ids : Z -> list Z;
  get_member_data_one : Z -> Z -> option Member;
  guild_from_channel : Z -> option Z;
  (* presence manager *)
  guild_presences : list Z -> Z -> list Presence;
  (* state manager: the session id of the state found, if any *)
  fetch_raw : string -> option string;
}.

(** ** GuildMemberList *)

Definition MAX_ROLES : Z := 250.

Record GuildMemberList := mkGML {
  guild_id : Z;
  channel_id : Z;
  mlist : MemberList;                       (* self.list *)
  state : list (string * gset (Z * Z));     (* session id -> set of ranges *)
}.

(** What a handler touches outside its list: the websockets it dispatches
    to, the tasks it hands to the event loop, and the dicts its caller
    passed by reference. *)
Record Outside := mkOutside {
  sent : list Dispatched;
  tasks : list Task;
  objs : gmap nat PartialPresence;
}.

Record St := mkSt {
  self : GuildMemberList;
  outside : Outside;
}.

Definition set_mlist (l : MemberList) (g : GuildMemberList) : GuildMemberList :=
  mkGML (guild_id g) (channel_id g) l (state g).
Definition set_state (s : list (string * gset (Z * Z))) (g : GuildMemberList)
  : GuildMemberList :=
  mkGML (guild_id g) (channel_id g) (mlist g) s.

Definition set_groups_of (gs : list GroupInfo) (l : MemberList) : MemberList :=
  mkMemberList gs (data l) (presences l) (members l) (overwrites l).
Definition set_data (d : gmap GroupID (list Z)) (l : MemberList) : MemberList :=
  mkMemberList (groups l) d (presences l) (members l) (overwrites l).
Definition set_presences (p : gmap Z Presence) (l : MemberList) : MemberList :=
  mkMemberList (groups l) (data l) p (members l) (overwrites l).
Definition set_members (m : gmap Z (option Member)) (l : MemberList) : MemberList :=
  mkMemberList (groups l) (data l) (presences l) m (overwrites l).
Definition set_overwrites (o : gmap Z Overwrite) (l : MemberList) : MemberList :=
  mkMemberList (groups l) (data l) (presences l) (members l) o.

Definition get_self : M St GuildMemberList := gets self.
Definition get_list : M St MemberList := gets (fun s => mlist (self s)).
Definition modify_self (f : GuildMemberList -> GuildMemberList) : M St unit :=
  modify (fun s => mkSt (f (self s)) (outside s)).
Definition modify_list (f : MemberList -> MemberList) : M St unit :=
  modify_self (fun g => set_mlist (f (mlist g)) g).
Definition modify_outside (f : Outside -> Outside) : M St unit :=
  modify (fun s => mkSt (self s) (f (outside s))).

(** [try: m except e: handler] *)
Definition try_except {S A} (m : M S A) (e : Exn) (handler : M S A) : M S A :=
  fun s => match m s with
           | (Raise e', s') => if bool_decide (e' = e) then handler s'
                               else (Raise e', s')
           | r => r
           end.

Fixpoint for_each {S A} (l : list A) (body : A -> M S unit) : M S unit :=
  match l with
  | [] => ret tt
  | x :: rest => body x >> for_each rest body
  end.

(** [list_id] *)
Definition list_id (g : GuildMemberList) : string :=
  if channel_id g =? guild_id g then "everyone" else pretty (channel_id g).

(** [_to_simple_group] *)
Definition _to_simple_group (status : string) : GroupID :=
  if bool_decide (status = "offline") then offline else online.

(** [g.gid in roles], for a list of role ids *)
Definition gid_in_roles (g : GroupID) (roles : list Z) : bool :=
  match g with
  | GRole z => bool_decide (z ∈ roles)
  | GTag _ => false
  end.

(** [_calc_member_group] *)
Definition _calc_member_group (l : MemberList) (roles : list Z) (status : string)
  : GroupID :=
  match List.find (fun g => gid_in_roles (gid g) roles) (groups l) with
  | Some g => gid g
  | None => _to_simple_group status
  end.

Section Handlers.
Context (env : Env).

(** [_fetch_overwrites] *)
Definition _fetch_overwrites : M St unit :=
  let* g := get_self in
  let ovs := foldl (fun m ov => <[ov_id ov := ov]> m) ∅
                   (chan_overwrites env (channel_id g)) in
  modify_list (set_overwrites ovs).

(** [_can_read_chan]: the group with its permissions replaced by the mixed
    ones, and whether it can read the channel. *)
Definition _can_read_chan (l : MemberList) (group : GroupInfo) : GroupInfo * bool :=
  let final_perms :=
    overwrite_find_mix env (permissions group) (overwrites l) (gid group) in
  (mkGroupInfo (gid group) (name group) (position group) final_perms,
   read_messages env final_perms).

Definition by_position_desc (y x : GroupInfo) : bool := position x <? position y.

(** [get_role_groups] *)
Definition get_role_groups : M St (list GroupInfo) :=
  let* g := get_self in
  let roledata := fetch_roles env (guild_id g) in
  let hoisted :=
    map (fun row => mkGroupInfo (GRole (role_id row)) (role_name row)
                                (role_position row) (role_perms row))
        (filter (fun row => role_hoist row = true) roledata) in
  let hoisted := stable_sort by_position_desc hoisted in
  let* _ := _fetch_overwrites in
  let* l := get_list in
  ret (map fst (filter (fun gb => snd gb = true) (map (_can_read_chan l) hoisted))).

(** [set_groups] *)
Definition set_groups : M St unit :=
  let* role_groups := get_role_groups in
  modify_list (set_groups_of
    (role_groups ++ [ mkGroupInfo online "online" (MAX_ROLES + 1) 0;
                      mkGroupInfo offline "offline" (MAX_ROLES + 2) 0 ])).

(** [get_group_for_member]; [None] when the member cannot read the
    channel. *)
Definition get_group_for_member (g : GuildMemberList) (member_id : Z)
    (roles : list Z) (status : string) : option GroupID :=
  let member_perms := get_permissions env member_id (channel_id g) in
  if negb (read_messages env member_perms) then None
  else Some (if bool_decide (status = "offline") then offline
             else _calc_member_group (mlist g) roles status).

(** [self.list.data[group_id].append(member_id)] *)
Definition data_append (group_id : option GroupID) (member_id : Z) : M St unit :=
  let* l := get_list in
  match group_id with
  | None => raise KeyError
  | Some k =>
      let* ids := lift_res (getitem (data l) k) in
      modify_list (fun l => set_data (<[k := ids ++ [member_id]]> (data l)) l)
  end.

(** [_list_fill_groups] *)
Definition _list_fill_groups (member_ids : list Z) : M St unit :=
  for_each member_ids (fun member_id =>
    let* l := get_list in
    let* presence := lift_res (getitem (presences l) member_id) in
    let* g := get_self in
    let group_id :=
      get_group_for_member g member_id (p_roles presence) (p_status presence) in
    let member := get_member_data_one env (guild_id g) member_id in
    let* _ := modify_list (fun l => set_members (<[member_id := member]> (members l)) l) in
    data_append group_id member_id).

(** [GuildMemberList.display_name]: the sort key of a member id, [None]
    for the id [0]. *)
Definition display_name (l : MemberList) (member_id : Z) : Res (option string) :=
  let member := mjoin (members l !! member_id) in
  if member_id =? 0 then Ok None
  else match member with
       | None => Raise TypeError
       | Some m =>
           Ok (Some (match m_nick m with
                     | Some nick => if bool_decide (nick = "") then username (m_user m)
                                    else nick
                     | None => username (m_user m)
                     end))
       end.

Definition key_before (y x : option string * Z) : bool :=
  match fst y, fst x with
  | Some a, Some b => String.ltb a b
  | _, _ => false
  end.

(** [member_ids.sort(key=self.display_name)]: the keys are computed first;
    a [None] among the keys of two or more elements cannot be compared with
    anything. Keys are compared as Python compares [str]: by code point,
    which is the byte order of their UTF-8 form. *)
Definition sort_by_display_name (l : MemberList) (member_ids : list Z)
  : Res (list Z) :=
  let? keys := res_mapM (display_name l) member_ids in
  if (2 <=? len member_ids) && existsb (fun k => negb (bool_decide (is_Some k))) keys
  then Raise TypeError
  else Ok (map snd (stable_sort key_before (zip keys member_ids))).

(** The body of the loop of [_sort_groups]: one list of [data] is sorted
    in place. When the sort raises, the model leaves the list as it was
    (CPython may leave it partly sorted). *)
Definition sort_entry (entry : GroupID * list Z) : M St unit :=
  let* l := get_list in
  let* sorted := lift_res (sort_by_display_name l (snd entry)) in
  modify_list (fun l => set_data (<[fst entry := sorted]> (data l)) l).

(** [_sort_groups]. The lists are visited in the order [map_to_list]
    gives, which is not the insertion order of the Python dict; the two
    differ only in which lists are already sorted when a later one
    raises. *)
Definition _sort_groups : M St unit :=
  let* l := get_list in
  for_each (map_to_list (data l)) sort_entry.

(** [__init_member_list] *)
Definition _init_member_list : M St unit :=
  let* g := get_self in
  let member_ids := get_member_ids env (guild_id g) in
  let fetched := guild_presences env member_ids (guild_id g) in
  let* _ := modify_list (set_presences
              (foldl (fun m p => <[user_id (p_user p) := p]> m) ∅ fetched)) in
  let* _ := set_groups in
  let* _ := modify_list (fun l =>
              set_data (foldl (fun m group => <[gid group := []]> m) ∅ (groups l)) l) in
  let* _ := _list_fill_groups member_ids in
  _sort_groups.

(** [_init_check] *)
Definition _init_check : M St unit :=
  let* l := get_list in
  if negb (initialized l) then _init_member_list else ret tt.

(** *** Subscriptions *)

Definition state_lookup (st : list (string * gset (Z * Z))) (session_id : string)
  : option (gset (Z * Z)) :=
  snd <$> List.find (fun p => bool_decide (fst p = session_id)) st.

(** [self.state[session_id]]: a [defaultdict] makes the missing entry. *)
Definition state_getitem (session_id : string) : M St (gset (Z * Z)) :=
  let* g := get_self in
  match state_lookup (state g) session_id with
  | Some ranges => ret ranges
  | None =>
      let* _ := modify_self (fun g => set_state (state g ++ [(session_id, ∅)]) g) in
      ret ∅
  end.

(** The entry of a session replaced by [ranges]. *)
Definition state_set (session_id : string) (ranges : gset (Z * Z))
    (st : list (string * gset (Z * Z))) : list (string * gset (Z * Z)) :=
  map (fun p => if bool_decide (fst p = session_id) then (fst p, ranges) else p) st.

(** [self.state[session_id].add(range)] *)
Definition state_add (session_id : string) (range : Z * Z) : M St unit :=
  let* ranges := state_getitem session_id in
  modify_self (fun g =>
    set_state (state_set session_id ({[range]} ∪ ranges) (state g)) g).

(** [range_start <= item_index <= range_end]: an int cannot be compared
    with [None] or with a method. *)
Definition in_range (item_index : Index) (range : Z * Z) : Res bool :=
  match item_index with
  | IInt i => Ok ((fst range <=? i) && (i <=? snd range))
  | _ => Raise TypeError
  end.

(** The first range that holds the index, in the order the set is
    iterated ([elements] here; the order of a Python set is not
    specified). *)
Fixpoint first_range (item_index : Index) (ranges : list (Z * Z))
  : Res (option (Z * Z)) :=
  match ranges with
  | [] => Ok None
  | r :: rest =>
      let? b := in_range item_index r in
      if b then Ok (Some r) else first_range item_index rest
  end.

(** [state_is_subbed], for a session that has an entry *)
Definition state_is_subbed (item_index : Index) (ranges : gset (Z * Z)) : Res bool :=
  let? r := first_range item_index (elements ranges) in
  Ok (bool_decide (is_Some r)).

(** [get_subs], run to its end: the sessions whose ranges hold the index,
    in the order of the keys of [self.state]. The source returns a lazy
    [filter]; its consumers neither change [self.state] nor act before the
    first comparison that can raise, so running it at once is the same. *)
Fixpoint get_subs_loop (item_index : Index) (st : list (string * gset (Z * Z)))
  : Res (list string) :=
  match st with
  | [] => Ok []
  | (sess_id, ranges) :: rest =>
      let? b := state_is_subbed item_index ranges in
      let? tail := get_subs_loop item_index rest in
      Ok (if b then sess_id :: tail else tail)
  end.

Definition get_subs (g : GuildMemberList) (item_index : Index) : Res (list string) :=
  get_subs_loop item_index (state g).

(** *** Dispatching *)

(** The payload [_dispatch_sess] constructs. *)
Definition payload_of (g : GuildMemberList) (gc : list (GroupInfo * Z))
    (ops : list OpDict) : Payload :=
  {| payload_id := list_id g;
     payload_guild_id := pretty (guild_id g);
     payload_groups :=
       map (fun gc => mkGroupCount (str_gid (gid (fst gc))) (snd gc)) gc;
     payload_ops := ops |}.

(** [_dispatch_sess] *)
Definition _dispatch_sess (session_ids : list string) (operations : list Operation)
  : M St (list string) :=
  let* g := get_self in
  let* gc := lift_res (groups_complete (mlist g)) in
  let* ops := lift_res (res_mapM to_dict operations) in
  let payload := payload_of g gc ops in
  let states := omap (fetch_raw env) session_ids in
  let* _ := for_each states (fun state_session_id =>
    modify_outside (fun o =>
      mkOutside
        (sent o ++ [mkDispatched state_session_id "GUILD_MEMBER_LIST_UPDATE" payload])
        (tasks o) (objs o))) in
  ret states.

(** [loop.create_task(self.shard_query(session_id, ranges))] *)
Definition create_task (session_id : string) (ranges : list (Z * Z)) : M St unit :=
  let* g := get_self in
  modify_outside (fun o =>
    mkOutside (sent o) (tasks o ++ [mkTask (channel_id g) session_id ranges]) (objs o)).

(** [resync] *)
Fixpoint resync (session_ids : list string) (item_index : Index)
  : M St (list string) :=
  match session_ids with
  | [] => ret []
  | session_id :: rest =>
      let* ranges := state_getitem session_id in
      let* role_range := lift_res (first_range item_index (elements ranges)) in
      match role_range with
      | None => resync rest item_index
      | Some r =>
          let* _ := create_task session_id [r] in
          let* result := resync rest item_index in
          ret (session_id :: result)
      end
  end.

(** [resync_by_item] *)
Definition resync_by_item (item_index : Index) : M St (list string) :=
  let* g := get_self in
  let* subs := lift_res (get_subs g item_index) in
  resync subs item_index.

(** *** shard_query, once the request is not passed on *)

(** The [for start, end in ranges] loop of [shard_query]. *)
Fixpoint shard_query_loop (session_id : string) (ranges : list (Z * Z))
  : M St (list Operation) :=
  match ranges with
  | [] => ret []
  | (start, end_) :: rest =>
      let itemcount := end_ - start in
      if itemcount <? 0 then shard_query_loop session_id rest
      else
        let* _ := state_add session_id (start, end_) in
        let* l := get_list in
        let* its := lift_res (items l) in
        let* ops := shard_query_loop session_id rest in
        ret (Operation_SYNC (start, end_) (py_slice its start end_) :: ops)
  end.

(** [shard_query] from [await self._init_check()] on. *)
Definition shard_query_here (session_id : string) (ranges : list (Z * Z))
  : M St unit :=
  let* _ := _init_check in
  let* ops := shard_query_loop session_id ranges in
  let* _ := _dispatch_sess [session_id] ops in
  ret tt.

(** *** Presence updates *)

(** [self.items[index]] *)
Definition items_at (l : MemberList) (index : option Z) : Res Item :=
  let? its := items l in
  match index with
  | None => Raise TypeError
  | Some i => py_getitem its i
  end.

(** [_pres_update_simple] *)
Definition _pres_update_simple (user : Z) : M St (list string) :=
  let* l := get_list in
  let* item_index := lift_res (get_item_index l user) in
  match item_index with
  | None => ret []
  | Some i =>
      let* item := lift_res (items_at l (Some i)) in
      let* g := get_self in
      let* session_ids := lift_res (get_subs g (IInt i)) in
      _dispatch_sess session_ids [Operation_UPDATE (IInt i) item]
  end.

(** [self.list.data[group].remove(user_id)] *)
Definition data_remove (group : GroupID) (user : Z) : M St unit :=
  let* l := get_list in
  let* ids := lift_res (getitem (data l) group) in
  let* ids' := lift_res (py_remove user ids) in
  modify_list (fun l => set_data (<[group := ids']> (data l)) l).

(** [_pres_update_complex]. The operations are built as the source builds
    them, and then left aside: the handler resyncs instead. *)
Definition _pres_update_complex (user : Z) (old_group : GroupID)
    (rel_index : Z) (new_group : option GroupID) : M St (list string) :=
  let* l := get_list in
  let* old_user_index := lift_res (get_item_index l user) in
  let* old_group_index := lift_res (get_group_item_index l old_group) in
  let ops := [Operation_DELETE (index_of_option old_user_index)] in
  let* _ := data_remove old_group user in
  let* _ := data_append new_group user in
  let* _ := _sort_groups in
  let* l := get_list in
  let* new_user_index := lift_res (get_item_index l user) in
  let* item := lift_res (items_at l new_user_index) in
  let ops := ops ++ [Operation_INSERT (index_of_option new_user_index) item] in
  let* birth := lift_res (is_birth l new_group) in
  let* ops :=
    if birth && negb (bool_decide (new_group = Some offline))
    then match new_group with
         | None => raise KeyError
         | Some ng =>
             let* i := lift_res (get_group_item_index l ng) in
             ret (ops ++ [Operation_INSERT (index_of_option i)
                            (BareGroup (str_gid ng) 1)])
         end
    else ret ops in
  let* empty := lift_res (is_empty l (Some old_group)) in
  let ops :=
    if empty then ops ++ [Operation_DELETE (index_of_option old_group_index)]
    else ops in
  let* g := get_self in
  let* session_ids_old := lift_res (get_subs g (index_of_option old_user_index)) in
  let* session_ids_new := lift_res (get_subs g (index_of_option new_user_index)) in
  let* res_old := resync session_ids_old (index_of_option old_user_index) in
  let* res_new := resync session_ids_new (index_of_option new_user_index) in
  ret (res_old ++ res_new).

(** The scan of [pres_update] for the group that holds the user: it stops
    at the first one, so the [data] of later groups is never looked up. *)
Fixpoint find_old_group (l : MemberList) (user : Z) (gs : list GroupInfo)
  : Res (option (GroupID * Z)) :=
  match gs with
  | [] => Ok None
  | group :: rest =>
      let? member_ids := getitem (data l) (gid group) in
      match py_index user member_ids with
      | Some old_index => Ok (Some (gid group, old_index))
      | None => find_old_group l user rest
      end
  end.

(** The caller's dict behind a reference. A reference that is not in the
    store has no Python counterpart; the model answers [KeyError]. *)
Definition deref (r : nat) : M St PartialPresence :=
  let* o := gets outside in
  lift_res (getitem (objs o) r).

(** [partial_presence.pop('nick')], with its [KeyError] passed over *)
Definition pop_nick (r : nat) : M St unit :=
  let* pp := deref r in
  modify_outside (fun o =>
    mkOutside (sent o) (tasks o)
      (<[r := mkPartial None (pp_user pp) (pp_status pp) (pp_game pp)
                        (pp_activities pp) (pp_roles pp)]> (objs o))).

(** [pres_update]; [partial_presence] is the reference the caller holds. *)
Definition pres_update (user : Z) (partial_presence : nat) : M St (list string) :=
  let* _ := _init_check in
  let* l := get_list in
  let* old_presence := lift_res (getitem (presences l) user) in
  let* pp := deref partial_presence in
  let has_nick := bool_decide (is_Some (pp_nick pp)) in
  let* _ := pop_nick partial_presence in
  let* found := lift_res (find_old_group l user (groups l)) in
  match found with
  | None => ret []
  | Some (old_group, old_index) =>
      if negb (gid_truthy old_group) then ret []
      else
        let* pp := deref partial_presence in
        let roles := default (p_roles old_presence) (pp_roles pp) in
        let status := default (p_status old_presence) (pp_status pp) in
        let* g := get_self in
        let new_group := get_group_for_member g user roles status in
        let* p := lift_res (getitem (presences l) user) in
        let* _ := modify_list (fun l =>
                    set_presences (<[user := presence_update p pp]> (presences l)) l) in
        if bool_decide (Some old_group = new_group) && negb has_nick
        then _pres_update_simple user
        else _pres_update_complex user old_group old_index new_group
  end.

(** *** Role handlers *)

(** [new_role] *)
Definition new_role (role : Role) : M St unit :=
  let* l := get_list in
  if negb (initialized l) then ret tt
  else
    let group_id := GRole (role_id role) in
    let new_group :=
      mkGroupInfo group_id (role_name role) (role_position role) (role_perms role) in
    let* _ := _fetch_overwrites in
    let* l := get_list in
    let (new_group, can_read) := _can_read_chan l new_group in
    if negb can_read then ret tt
    else
      let* _ := modify_list (fun l =>
                  set_groups_of (py_insert (role_position role) new_group (groups l)) l) in
      modify_list (fun l => set_data (<[gid new_group := []]> (data l)) l).

(** [_get_role_as_group_idx] *)
Definition _get_role_as_group_idx (l : MemberList) (role : Z) : option nat :=
  if negb (initialized l) then None
  else index_by_func (fun g => bool_decide (gid g = GRole role)) (groups l).

(** [role_pos_update]. [old_index] is bound to the method
    [get_group_item_index], which the source does not call. The result is
    [None] when the role is not a group. *)
Definition role_pos_update (role : Role) : M St (option (list string)) :=
  let role_id := role_id role in
  let old_index := IMethod in
  let* g := get_self in
  let* old_sessions := lift_res (get_subs g old_index) in
  match _get_role_as_group_idx (mlist g) role_id with
  | None => ret None
  | Some groups_idx =>
      let* _ := modify_list (fun l =>
        set_groups_of
          (alter (fun group => mkGroupInfo (gid group) (name group)
                                 (role_position role) (permissions group))
                 groups_idx (groups l)) l) in
      let* _ := modify_list (fun l =>
        set_groups_of (stable_sort by_position_desc (groups l)) l) in
      let* l := get_list in
      let* new_index := lift_res (get_group_item_index l (GRole role_id)) in
      let* res_old := resync old_sessions old_index in
      let* res_new := resync_by_item (index_of_option new_index) in
      ret (Some (res_old ++ res_new))
  end.

(** [self.list.data.pop(role_id)] *)
Definition data_pop (role : Z) : M St (list Z) :=
  let* l := get_list in
  let* member_ids := lift_res (getitem (data l) (GRole role)) in
  let* _ := modify_list (fun l => set_data (delete (GRole role) (data l)) l) in
  ret member_ids.

(** [role_delete]. The result is [None] when the list is not
    initialized. *)
Definition role_delete (role : Z) : M St (option (list string)) :=
  let* l := get_list in
  if negb (initialized l) then ret None
  else
    let* role_item_index := lift_res (get_group_item_index l (GRole role)) in
    let* g := get_self in
    let* sess_ids_resync :=
      match role_item_index with
      | Some i => lift_res (get_subs g (IInt i))
      | None => ret []
      end in
    let groups_index :=
      index_by_func (fun group => bool_decide (gid group = GRole role)) (groups l) in
    let* _ :=
      match groups_index with
      | Some i => modify_list (fun l => set_groups_of (py_del i (groups l)) l)
      | None => ret tt
      end in
    let* _ :=
      try_except
        (let* member_ids := data_pop role in
         let* _ := _list_fill_groups member_ids in
         _sort_groups)
        KeyError (ret tt) in
    let* _ :=
      try_except
        (let* l := get_list in
         let* _ := lift_res (getitem (overwrites l) role) in
         modify_list (fun l => set_overwrites (delete role (overwrites l)) l))
        KeyError (ret tt) in
    let* res := resync sess_ids_resync (index_of_option role_item_index) in
    ret (Some res).

End Handlers.

(** ** LazyGuildDispatcher *)

Record World := mkWorld {
  lists : gmap Z GuildMemberList;      (* self.state: channel id -> list *)
  guild_map : gmap Z (list Z);         (* guild id -> channel ids *)
  world_outside : Outside;
}.

Section Dispatcher.
Context (env : Env).

(** [get_gml]: the list of a channel, made when it is not there yet. The
    list is named by its channel id, its key in [self.state]. *)
Definition get_gml (channel : Z) : M World Z :=
  let* w := gets id in
  match lists w !! channel with
  | Some _ => ret channel
  | None =>
      let guild :=
        match guild_from_channel env channel with
        | Some g => if g =? 0 then channel else g
        | None => channel
        end in
      let gml := mkGML guild channel MemberList_new [] in
      let* _ := modify (fun w =>
        mkWorld (<[channel := gml]> (lists w))
                (<[guild := default [] (guild_map w !! guild) ++ [channel]]> (guild_map w))
                (world_outside w)) in
      ret channel
  end.

(** Run a method of the list held for [channel]. A channel without a list
    has no Python counterpart (the method is called on the object
    itself); the model answers [KeyError]. *)
Definition on_list {A} (channel : Z) (m : M St A) : M World A :=
  fun w =>
    match lists w !! channel with
    | None => (Raise KeyError, w)
    | Some g =>
        let (r, s) := m (mkSt g (world_outside w)) in
        (r, mkWorld (<[channel := self s]> (lists w)) (guild_map w) (outside s))
    end.

(** The test at the head of [shard_query]: everyone can read the channel
    and the list is not the ['everyone'] list, so the request goes to the
    guild's ['everyone'] list. *)
Definition passes_on (g : GuildMemberList) : bool :=
  let everyone_perms :=
    role_permissions env (guild_id g) (guild_id g) (channel_id g) in
  read_messages env everyone_perms
  && negb (bool_decide (list_id g = "everyone")).

(** [shard_query] of the list held for [channel]. [fuel] bounds the number
    of lists the request is passed through. *)
Fixpoint shard_query (fuel : nat) (channel : Z) (session_id : string)
    (ranges : list (Z * Z)) : M World unit :=
  match fuel with
  | O => raise OutOfFuel
  | S fuel' =>
      let* w := gets id in
      match lists w !! channel with
      | None => raise KeyError
      | Some g =>
          if passes_on g then
            let* everyone_gml := get_gml (guild_id g) in
            shard_query fuel' everyone_gml session_id ranges
          else on_list channel (shard_query_here env session_id ranges)
      end
  end.

End Dispatcher.

(** ** A small guild

    Guild [1] with its default channel [1] (so the list id is
    ['everyone']), member [10] online and member [20] offline, no hoisted
    role, and a channel overwrite for the role [7], which is not hoisted. *)

Definition ex_alice : User := mkUser 10 "alice".
Definition ex_bob : User := mkUser 20 "bob".
Definition ex_overwrite : Overwrite := mkOverwrite 7 JNull.

Definition ex_env : Env :=
  {| overwrite_find_mix := fun perms _ _ => perms;
     read_messages := fun perms => Z.testbit perms 10;
     get_permissions := fun _ _ => 1024;
     role_permissions := fun _ _ _ => 1024;
     fetch_roles := fun _ => [];
     chan_overwrites := fun _ => [ex_overwrite];
     get_member_ids := fun _ => [10; 20];
     get_member_data_one := fun _ member_id =>
       if member_id =? 10 then Some (mkMember ex_alice None)
       else if member_id =? 20 then Some (mkMember ex_bob (Some "Bobby"))
       else None;
     guild_from_channel := fun _ => Some 1;
     guild_presences := fun _ _ =>
       [ mkPresence ex_alice "online" JNull JNull [];
         mkPresence ex_bob "offline" JNull JNull [] ];
     fetch_raw := fun session_id => Some session_id |}.

(** The list once it is initialized. *)
Definition ex_list : MemberList :=
  {| groups := [ mkGroupInfo online "online" 251 0;
                 mkGroupInfo offline "offline" 252 0 ];
     data := {[ online := [10]; offline := [20] ]};
     presences := {[ 10 := mkPresence ex_alice "online" JNull JNull [];
                     20 := mkPresence ex_bob "offline" JNull JNull [] ]};
     members := {[ 10 := Some (mkMember ex_alice None);
                   20 := Some (mkMember ex_bob (Some "Bobby")) ]};
     overwrites := {[ 7 := ex_overwrite ]} |}.

(** Its item sequence. *)
Definition ex_items : list Item :=
  [ GroupItem "online" 1;
    MemberItem (mkMember ex_alice None) (mkItemPresence "10" "online" JNull JNull);
    GroupItem "offline" 1;
    MemberItem (mkMember ex_bob (Some "Bobby"))
      (mkItemPresence "20" "offline" JNull JNull) ].

(** Session ['s1'] has asked for the range [(0, 3)]. *)
Definition ex_gml : GuildMemberList :=
  mkGML 1 1 ex_list [("s1", {[ (0, 3) ]})].

(** Two dicts that callers hold: [{'status': 'online'}] and
    [{'nick': 'Al'}]. *)
Definition ex_partial_status : PartialPresence :=
  mkPartial None None (Some "online") None None None.
Definition ex_partial_nick : PartialPresence :=
  mkPartial (Some (JStr "Al")) None None None None None.

Definition ex_outside : Outside :=
  mkOutside [] [] {[ 0%nat := ex_partial_status; 1%nat := ex_partial_nick ]}.

Definition ex_st : St := mkSt ex_gml ex_outside.

(** The dispatcher before and after the first subscription. *)
Definition ex_world_new : World :=
  mkWorld {[ 1 := mkGML 1 1 MemberList_new [] ]} {[ 1 := [1] ]} ex_outside.
Definition ex_world : World :=
  mkWorld {[ 1 := ex_gml ]} {[ 1 := [1] ]} ex_outside.

(** The hoisted role [5] at position [1], and the same role moved to
    position [0]. *)
Definition ex_role : Role := mkRole 5 "mods" true 1 1024.
Definition ex_role_moved : Role := mkRole 5 "mods" true 0 1024.

(** A guild without members. *)
Definition ex_env_empty : Env :=
  {| overwrite_find_mix := overwrite_find_mix ex_env;
     read_messages := read_messages ex_env;
     get_permissions := get_permissions ex_env;
     role_permissions := role_permissions ex_env;
     fetch_roles := fetch_roles ex_env;
     chan_overwrites := chan_overwrites ex_env;
     get_member_ids := fun _ => [];
     get_member_data_one := fun _ _ => None;
     guild_from_channel := guild_from_channel ex_env;
     guild_presences := fun _ _ => [];
     fetch_raw := fetch_raw ex_env |}.

(** Channel [2] of the same guild: everyone can read it, so its list
    passes every request on to the list of channel [1]. *)
Definition ex_world_two : World :=
  mkWorld {[ 1 := ex_gml; 2 := mkGML 1 2 MemberList_new [] ]}
          {[ 1 := [1; 2] ]} ex_outside.

(** ** Notions used by the properties *)

(** [wp m Q s]: the run of [m] from [s] ends, with a result or a raise, in
    a state that satisfies [Q]. *)
Definition wp {S A} (m : M S A) (Q : Res A -> S -> Prop) (s : S) : Prop :=
  Q (fst (m s)) (snd (m s)).

(** [keeps f m]: [m] never changes the part [f] of the state. *)
Definition keeps {S X A} (f : S -> X) (m : M S A) : Prop :=
  forall s, f (snd (m s)) = f s.

(** A role or tag is a group of the list. *)
Definition is_group (l : MemberList) (k : GroupID) : Prop :=
  k ∈ map gid (groups l).

(** The keys of [data] are the ids of the groups, as initialization
    leaves them. *)
Definition keys_agree (l : MemberList) : Prop :=
  dom (data l) = list_to_set (map gid (groups l)).

(** A partial presence after [pop('nick')]. *)
Definition without_nick (pp : PartialPresence) : PartialPresence :=
  mkPartial None (pp_user pp) (pp_status pp) (pp_game pp) (pp_activities pp)
            (pp_roles pp).

(** The state in which [pres_update] chooses its path: the caller's dict
    has lost its ['nick'] and has been merged into the stored presence. *)
Definition pres_update_merged (st : St) (user : Z) (r : nat) (p : Presence)
    (pp : PartialPresence) : St :=
  mkSt (set_mlist
          (set_presences
             (<[user := presence_update p (without_nick pp)]>
                (presences (mlist (self st))))
             (mlist (self st)))
          (self st))
       (mkOutside (sent (outside st)) (tasks (outside st))
                  (<[r := without_nick pp]> (objs (outside st)))).

(** What [self.state[session_id].add(range)] does to [self.state]. *)
Definition add_range (session_id : string) (range : Z * Z)
    (st : list (string * gset (Z * Z))) : list (string * gset (Z * Z)) :=
  match state_lookup st session_id with
  | Some ranges => state_set session_id ({[range]} ∪ ranges) st
  | None => state_set session_id ({[range]} ∪ ∅) (st ++ [(session_id, ∅)])
  end.

(** The ranges [shard_query] keeps, the entries they leave in [self.state]
    and the operations built for them from an item sequence. *)
Definition range_ok (range : Z * Z) : bool := negb (snd range - fst range <? 0).

Definition add_ranges (session_id : string) (ranges : list (Z * Z))
    (st : list (string * gset (Z * Z))) : list (string * gset (Z * Z)) :=
  foldl (fun st range => add_range session_id range st) st
        (List.filter range_ok ranges).

Definition sync_ops (its : list Item) (ranges : list (Z * Z)) : list Operation :=
  map (fun range => Operation_SYNC range (py_slice its (fst range) (snd range)))
      (List.filter range_ok ranges).

Definition with_state (stl : list (string * gset (Z * Z))) (st : St) : St :=
  mkSt (set_state stl (self st)) (outside st).

Definition with_sent (delta : list Dispatched) (st : St) : St :=
  mkSt (self st)
       (mkOutside (sent (outside st) ++ delta) (tasks (outside st))
                  (objs (outside st))).

(** [handled_by env w n channel target]: a [shard_query] on the list of
    [channel] is answered by the list of [target], after it has been passed
    on [n] times, each time to a list that is already there. *)
Inductive handled_by (env : Env) (w : World) : nat -> Z -> Z -> Prop :=
  | handled_here channel g :
      lists w !! channel = Some g ->
      passes_on env g = false ->
      handled_by env w 0 channel channel
  | handled_pass n channel g target :
      lists w !! channel = Some g ->
      passes_on env g = true ->
      is_Some (lists w !! guild_id g) ->
      handled_by env w n (guild_id g) target ->
      handled_by env w (Datatypes.S n) channel target.

(** ** More of the list and of the dispatcher *)

Section MoreHandlers.
Context (env : Env).

(** [sub] *)
Definition sub (_session_id : string) : M St unit := _init_check env.

(** [not group_idx]: [None] and the index [0] are both false. *)
Definition idx_falsy (group_idx : option nat) : bool :=
  match group_idx with
  | None => true
  | Some i => bool_decide (i = 0%nat)
  end.

(** [self.list.groups[group_idx]] *)
Definition group_at (l : MemberList) (group_idx : nat) : Res GroupInfo :=
  match groups l !! group_idx with
  | Some group => Ok group
  | None => Raise IndexError
  end.

(** [role_update]. The result is [None] wherever the source returns
    without a value, and the result of [role_delete] otherwise. *)
Definition role_update (role : Role) : M St (option (list string)) :=
  let* l := get_list in
  if negb (initialized l) then ret None
  else
    let group_idx := _get_role_as_group_idx l (role_id role) in
    if idx_falsy group_idx && role_hoist role
    then let* _ := new_role env role in ret None
    else if idx_falsy group_idx then ret None
    else
      match group_idx with
      | None => ret None
      | Some idx =>
          let* group := lift_res (group_at l idx) in
          let group :=
            mkGroupInfo (gid group) (name group) (position group) (role_perms role) in
          let* _ := modify_list (fun l =>
                      set_groups_of (<[idx := group]> (groups l)) l) in
          let* _ := _fetch_overwrites env in
          let* l := get_list in
          let (group, can_read) := _can_read_chan env l group in
          let* _ := modify_list (fun l =>
                      set_groups_of (<[idx := group]> (groups l)) l) in
          if negb can_read then role_delete env (role_id role)
          else if negb (role_hoist role) then role_delete env (role_id role)
          else ret None
      end.

End MoreHandlers.

(** What a routed event can end in, besides returning: a raise of the
    handler of a list, or the [AttributeError] of [getattr(None, ...)] for
    a channel of [guild_map] that has no list. *)
Inductive RouteExn :=
  | HandlerRaised (e : Exn)
  | AttributeError.

Section Routing.
Context (env : Env).

(** [get_gml_guild]: the lists of a guild, [None] for a channel without
    one. [guild_map] is a [defaultdict]: looking a new guild up files it
    with no channel. *)
Definition get_gml_guild (guild : Z) (w : World) : list (option Z) * World :=
  match guild_map w !! guild with
  | Some channels =>
      (map (fun c => match lists w !! c with Some _ => Some c | None => None end)
           channels, w)
  | None =>
      ([], mkWorld (lists w) (<[guild := []]> (guild_map w)) (world_outside w))
  end.

(** The loop of [_call_all_lists]; [None] is a normal return. *)
Fixpoint call_each {A} (lazy_lists : list (option Z)) (method : M St A)
    (w : World) : option RouteExn * World :=
  match lazy_lists with
  | [] => (None, w)
  | None :: _ => (Some AttributeError, w)
  | Some channel :: rest =>
      match on_list channel method w with
      | (Ok _, w') => call_each rest method w'
      | (Raise e, w') => (Some (HandlerRaised e), w')
      end
  end.

(** [_call_all_lists], for the method [method_str] names. *)
Definition _call_all_lists {A} (guild : Z) (method : M St A) (w : World)
  : option RouteExn * World :=
  let (lazy_lists, w') := get_gml_guild guild w in
  call_each lazy_lists method w'.

Definition _handle_new_role (guild : Z) (role : Role) :=
  _call_all_lists guild (new_role env role).
Definition _handle_role_pos_upd (guild : Z) (role : Role) :=
  _call_all_lists guild (role_pos_update role).
Definition _handle_role_update (guild : Z) (role : Role) :=
  _call_all_lists guild (role_update env role).
Definition _handle_role_delete (guild : Z) (role : Z) :=
  _call_all_lists guild (role_delete env role).
Definition _handle_pres_update (guild : Z) (user : Z) (partial : nat) :=
  _call_all_lists guild (pres_update env user partial).

End Routing.

(** ** Notions used by the further properties *)

(** [y] may follow [x] in a list sorted with [before]. *)
Definition in_order {A} (before : A -> A -> bool) (x y : A) : Prop :=
  before y x = false.

(** [y] may follow [x] in a list sorted by position, descending. *)
Definition position_ge (x y : GroupInfo) : Prop := position y <= position x.

(** What [filter(self._can_read_chan, hoisted)] keeps of one group. *)
Definition readable_group env (l : MemberList) (group : GroupInfo)
  : option GroupInfo :=
  let (group', can_read) := _can_read_chan env l group in
  if can_read then Some group' else None.

(** The group a row of the roles table is wrapped as. *)
Definition group_of_row (row : Role) : GroupInfo :=
  mkGroupInfo (GRole (role_id row)) (role_name row) (role_position row)
              (role_perms row).

(** The overwrites [_fetch_overwrites] stores for a channel. *)
Definition fetched_overwrites env (channel : Z) : gmap Z Overwrite :=
  foldl (fun m ov => <[ov_id ov := ov]> m) ∅ (chan_overwrites env channel).

Definition synthetic_groups : list GroupInfo :=
  [ mkGroupInfo online "online" (MAX_ROLES + 1) 0;
    mkGroupInfo offline "offline" (MAX_ROLES + 2) 0 ].

(** Two [data] dicts with the same keys and, under each key, the same
    member ids up to their order. *)
Definition same_members (d d' : gmap GroupID (list Z)) : Prop :=
  forall k, option_Forall2 (≡ₚ) (d !! k) (d' !! k).

(** [b] may follow [a] in a list sorted by display name. *)
Definition name_order (l : MemberList) (a b : Z) : Prop :=
  forall ka kb,
    display_name l a = Ok (Some ka) -> display_name l b = Ok (Some kb) ->
    String.ltb kb ka = false.

(** Every member id has a display name: it is not [0] and a member is
    stored for it. *)
Definition named (l : MemberList) (ids : list Z) : Prop :=
  Forall (fun id => id <> 0 /\ is_Some (mjoin (members l !! id))) ids.

(** The state with the [data] of its list replaced. *)
Definition with_data (d : gmap GroupID (list Z)) (st : St) : St :=
  mkSt (set_mlist (set_data d (mlist (self st))) (self st)) (outside st).

(** Three members online, listed out of order: carol, whose nick is
    empty and who goes by her username, alice, and bob with the nick
    Bobby. *)
Definition ex_carol : User := mkUser 30 "carol".

Definition ex_list_crowd : MemberList :=
  {| groups := groups ex_list;
     data := {[ online := [30; 10; 20]; offline := [] ]};
     presences := {[ 10 := mkPresence ex_alice "online" JNull JNull [];
                     20 := mkPresence ex_bob "online" JNull JNull [];
                     30 := mkPresence ex_carol "online" JNull JNull [] ]};
     members := {[ 10 := Some (mkMember ex_alice None);
                   20 := Some (mkMember ex_bob (Some "Bobby"));
                   30 := Some (mkMember ex_carol (Some "")) ]};
     overwrites := ∅ |}.

Definition ex_st_crowd : St := mkSt (mkGML 1 1 ex_list_crowd []) ex_outside.

(** No session holds a range. *)
Definition no_ranges (g : GuildMemberList) : Prop :=
  Forall (fun entry => snd entry = (∅ : gset (Z * Z))) (state g).

(** Every group has its list in [data]. *)
Definition groups_have_data (l : MemberList) : Prop :=
  Forall (fun group => is_Some (data l !! gid group)) (groups l).

(** The group at [idx] moved to a position. *)
Definition moved_to (pos : Z) (idx : nat) (gs : list GroupInfo) : list GroupInfo :=
  alter (fun group => mkGroupInfo (gid group) (name group) pos (permissions group))
        idx gs.

(** The small guild with the hoisted role [5] as a group between
    ['online'] and ['offline'], and a session that holds no range. *)
Definition ex_list_mods : MemberList :=
  {| groups := [ mkGroupInfo online "online" 251 0;
                 mkGroupInfo (GRole 5) "mods" 1 1024;
                 mkGroupInfo offline "offline" 252 0 ];
     data := {[ online := [10]; GRole 5 := []; offline := [20] ]};
     presences := presences ex_list;
     members := members ex_list;
     overwrites := overwrites ex_list |}.

Definition ex_st_quiet : St :=
  mkSt (mkGML 1 1 ex_list_mods [("s1", ∅)]) ex_outside.

(** The index lies in the range, both ends included. *)
Definition holds (range : Z * Z) (i : Z) : Prop := fst range <= i <= snd range.

(** The member cannot read the channel. *)
Definition cannot_read env (member_id channel : Z) : Prop :=
  read_messages env (get_permissions env member_id channel) = false.

(** The small guild with a private channel [2]: the role of everyone
    cannot read it, member [10] can and member [20] cannot. *)
Definition ex_env_private : Env :=
  {| overwrite_find_mix := overwrite_find_mix ex_env;
     read_messages := read_messages ex_env;
     get_permissions := fun member_id channel =>
       if (channel =? 2) && (member_id =? 20) then 0 else 1024;
     role_permissions := fun _ _ channel => if channel =? 2 then 0 else 1024;
     fetch_roles := fetch_roles ex_env;
     chan_overwrites := chan_overwrites ex_env;
     get_member_ids := get_member_ids ex_env;
     get_member_data_one := get_member_data_one ex_env;
     guild_from_channel := guild_from_channel ex_env;
     guild_presences := guild_presences ex_env;
     fetch_raw := fetch_raw ex_env |}.

(** The list of channel [2], as [get_gml] makes it. *)
Definition ex_gml_private : GuildMemberList := mkGML 1 2 MemberList_new [].

(** The permissions of a role in a channel, after the channel's
    overwrites. *)
Definition mixed_perms env (channel : Z) (role : Role) : Z :=
  overwrite_find_mix env (role_perms role) (fetched_overwrites env channel)
                     (GRole (role_id role)).

(** The group [new_role] makes of a role for the list of a channel. *)
Definition group_of_role env (channel : Z) (role : Role) : GroupInfo :=
  mkGroupInfo (GRole (role_id role)) (role_name role) (role_position role)
              (mixed_perms env channel role).

(** The state with the groups, the data and the overwrites of its list
    replaced. *)
Definition with_groups (gs : list GroupInfo) (d : gmap GroupID (list Z))
    (ovs : gmap Z Overwrite) (st : St) : St :=
  mkSt (set_mlist
          (mkMemberList gs d (presences (mlist (self st)))
                        (members (mlist (self st))) ovs)
          (self st))
       (outside st).

(** The small guild with the hoisted role [5] as the first group, member
    [10] in it. *)
Definition ex_list_mods_first : MemberList :=
  {| groups := [ mkGroupInfo (GRole 5) "mods" 1 1024;
                 mkGroupInfo online "online" 251 0;
                 mkGroupInfo offline "offline" 252 0 ];
     data := {[ GRole 5 := [10]; online := []; offline := [20] ]};
     presences := presences ex_list;
     members := members ex_list;
     overwrites := overwrites ex_list |}.

Definition ex_st_mods_first : St :=
  mkSt (mkGML 1 1 ex_list_mods_first []) ex_outside.

(** Every channel filed under a guild has its list. *)
Definition every_channel_has_list (w : World) : Prop :=
  map_Forall (fun _ channels => Forall (fun c => is_Some (lists w !! c)) channels)
             (guild_map w).

(** The lists of [w] are still there in [w'], and the guilds have the same
    channels. *)
Definition lists_stay (w w' : World) : Prop :=
  (forall c, is_Some (lists w !! c) -> is_Some (lists w' !! c))
  /\ guild_map w' = guild_map w.

(** The groups of the list and the keys of its [data]. *)
Definition shape (s : St) : list GroupInfo * gset GroupID :=
  (groups (mlist (self s)), dom (data (mlist (self s)))).

(** The state with tasks handed to the event loop. *)
Definition with_tasks (delta : list Task) (st : St) : St :=
  mkSt (self st)
       (mkOutside (sent (outside st)) (tasks (outside st) ++ delta)
                  (objs (outside st))).

(** The task is the re-query of a session for the index: a
    [shard_query] of the list's channel for that session and for one
    range, which is among the ranges recorded for the session and holds
    the index. *)
Definition requery_of (g : GuildMemberList) (i : Z) (sid : string) (t : Task)
  : Prop :=
  exists ranges range,
    (sid, ranges) ∈ state g /\ range ∈ ranges /\ holds range i
    /\ t = mkTask (channel_id g) sid [range].

(** Three sessions: ['s1'] holds two ranges with the index [2], ['s2']
    one, ['s3'] none. *)
Definition ex_st_sessions : St :=
  mkSt (mkGML 1 1 ex_list
          [ ("s1", {[ (0, 3); (0, 5) ]}); ("s2", {[ (2, 4) ]});
            ("s3", {[ (7, 9) ]}) ])
       ex_outside.

(** The [GUILD_MEMBER_LIST_UPDATE] with one [UPDATE] operation. *)
Definition update_payload (g : GuildMemberList) (gc : list (GroupInfo * Z))
    (i : Z) (item : Item) : Payload :=
  payload_of g gc [mkOpDict "UPDATE" None None (Some (IInt i)) (Some item)].

(** The list of the private channel [2], initialized while member [20]
    could still read it. *)
Definition ex_st_private : St := mkSt (mkGML 1 2 ex_list []) ex_outside.

(** The number of items that the groups of a payload stand for: a header
    and the members for each group that has members. *)
Definition item_count (gc : list (GroupInfo * Z)) : Z :=
  foldr (fun entry acc => (if snd entry =? 0 then 0 else 1 + snd entry) + acc)
        0 gc.

(** Three hoisted roles, admins above mods above helpers, in a list as
    [set_groups] leaves it. *)
Definition ex_role_groups : list GroupInfo :=
  [ mkGroupInfo (GRole 9) "admins" 7 1024;
    mkGroupInfo (GRole 5) "mods" 3 1024;
    mkGroupInfo (GRole 6) "helpers" 1 1024 ].

Definition ex_list_roles : MemberList :=
  {| groups := ex_role_groups ++ synthetic_groups;
     data := {[ GRole 9 := []; GRole 5 := []; GRole 6 := [];
                online := [10]; offline := [20] ]};
     presences := presences ex_list;
     members := members ex_list;
     overwrites := overwrites ex_list |}.

(** A member is stored for the id, and a presence. *)
Definition member_complete (l : MemberList) (member_id : Z) : Prop :=
  (exists m, members l !! member_id = Some (Some m))
  /\ is_Some (presences l !! member_id).

(** Every group has its [data] list, and every member id in it is
    complete. *)
Definition listed_members_complete (l : MemberList) (gs : list GroupInfo) : Prop :=
  Forall (fun group =>
            exists ids, data l !! gid group = Some ids
                        /\ Forall (member_complete l) ids) gs.

(** The [data] after a member has left the first occurrence in one list
    and joined the end of another. *)
Definition moved_member (user : Z) (old_group new_group : GroupID)
    (ids' ids_new : list Z) (d : gmap GroupID (list Z)) : gmap GroupID (list Z) :=
  <[new_group := ids_new ++ [user]]> (<[old_group := ids']> d).

(** Every member id in [data] is not [0] and has member data and a
    presence stored. *)
Definition well_listed (l : MemberList) : Prop :=
  map_Forall (fun _ ids => Forall (fun id => id <> 0 /\ member_complete l id) ids)
             (data l).

(** Somebody other than the user is offline, if the list has an offline
    group: the group does not become empty when the user leaves it. *)
Definition offline_kept (l : MemberList) (user : Z) : Prop :=
  forall ids, data l !! offline = Some ids ->
              exists other, other ∈ ids /\ other <> user.

(** The small guild watched by three sessions: ['s1'] and ['s2'] hold a
    range with the item index [1] of member [10], ['s3'] does not. *)
Definition ex_st_watched : St :=
  mkSt (mkGML 1 1 ex_list
          [ ("s1", {[ (0, 3) ]}); ("s2", {[ (1, 1) ]}); ("s3", {[ (2, 3) ]}) ])
       ex_outside.

(** The dispatcher with the new list of the private channel [2]. *)
Definition ex_world_private : World :=
  mkWorld {[ 2 := ex_gml_private ]} {[ 1 := [2] ]} ex_outside.

(** * Properties *)

(** ** The small guild is what the handlers produce *)

Example ex_world_reached :
  shard_query ex_env 1 1 "s1" [(0, 3)] ex_world_new
  = (Ok tt,
     mkWorld (lists ex_world) (guild_map ex_world)
       (mkOutside
          [ mkDispatched "s1" "GUILD_MEMBER_LIST_UPDATE"
              (mkPayload "everyone" "1"
                 [ mkGroupCount "online" 1; mkGroupCount "offline" 1 ]
                 [ mkOpDict "SYNC"
                     (Some [ GroupItem "online" 1;
                             MemberItem (mkMember ex_alice None)
                               (mkItemPresence "10" "online" JNull JNull);
                             GroupItem "offline" 1 ])
                     (Some (0, 3)) None None ]) ]
          [] (objs ex_outside))).
Proof. vm_compute. reflexivity. Qed.

(** A request to the list of channel [2] is answered by the list of
    channel [1], and recorded there. *)
Example ex_world_two_passes_on :
  handled_by ex_env ex_world_two 1 2 1
  /\ fst (shard_query ex_env 2 2 "s2" [(0, 1)] ex_world_two) = Ok tt
  /\ (state <$> lists (snd (shard_query ex_env 2 2 "s2" [(0, 1)] ex_world_two)) !! 1)
     = Some [("s1", {[ (0, 3) ]}); ("s2", {[ (0, 1) ]})]
  /\ (state <$> lists (snd (shard_query ex_env 2 2 "s2" [(0, 1)] ex_world_two)) !! 2)
     = Some [].
Proof.
  split.
  - apply (handled_pass ex_env ex_world_two 0 2 (mkGML 1 2 MemberList_new []) 1);
      [reflexivity | reflexivity | by eexists |].
    apply (handled_here ex_env ex_world_two 1 ex_gml); reflexivity.
  - vm_compute. repeat split; reflexivity.
Qed.

(** ** Rules for runs *)

Section Wp.
Context {S : Type}.
Implicit Types s : S.

Lemma wp_eq {A} (m : M S A) s x :
  wp m (fun r s' => (r, s') = x) s -> m s = x.
Proof. unfold wp. by destruct (m s). Qed.

Lemma wp_refl {A} (m : M S A) s : wp m (fun r s' => (r, s') = m s) s.
Proof. unfold wp. by destruct (m s). Qed.

Lemma wp_of_eq {A} (m : M S A) (Q : Res A -> S -> Prop) s r s' :
  m s = (r, s') -> Q r s' -> wp m Q s.
Proof. unfold wp. by intros ->. Qed.

Lemma wp_mono {A} (m : M S A) (Q Q' : Res A -> S -> Prop) s :
  wp m Q s -> (forall r s', Q r s' -> Q' r s') -> wp m Q' s.
Proof. unfold wp. auto. Qed.

Lemma wp_bind {A B} (m : M S A) (k : A -> M S B) (Q : Res B -> S -> Prop) s :
  wp m (fun r s' => match r with
                    | Ok a => wp (k a) Q s'
                    | Raise e => Q (Raise e) s'
                    end) s ->
  wp (bind m k) Q s.
Proof. unfold wp, bind. by destruct (m s) as [[a|e] s']. Qed.

Lemma wp_ret {A} (a : A) (Q : Res A -> S -> Prop) s :
  Q (Ok a) s -> wp (ret a) Q s.
Proof. done. Qed.

Lemma wp_raise {A} e (Q : Res A -> S -> Prop) s :
  Q (Raise e) s -> wp (raise e) Q s.
Proof. done. Qed.

Lemma wp_gets {A} (f : S -> A) (Q : Res A -> S -> Prop) s :
  Q (Ok (f s)) s -> wp (gets f) Q s.
Proof. done. Qed.

Lemma wp_modify (f : S -> S) (Q : Res unit -> S -> Prop) s :
  Q (Ok tt) (f s) -> wp (modify f) Q s.
Proof. done. Qed.

Lemma wp_lift_res {A} (r : Res A) (Q : Res A -> S -> Prop) s :
  Q r s -> wp (lift_res r) Q s.
Proof. done. Qed.

Lemma wp_try_except {A} (m h : M S A) e (Q : Res A -> S -> Prop) s :
  wp m (fun r s' => match r with
                    | Ok a => Q (Ok a) s'
                    | Raise e' => if bool_decide (e' = e) then wp h Q s'
                                  else Q (Raise e') s'
                    end) s ->
  wp (try_except m e h) Q s.
Proof.
  unfold wp, try_except. destruct (m s) as [[a|e'] s']; [done |].
  simpl. by destruct (bool_decide (e' = e)).
Qed.

Lemma keeps_wp {X A} (f : S -> X) (m : M S A) s :
  keeps f m -> wp m (fun _ s' => f s' = f s) s.
Proof. intros H. apply H. Qed.

Lemma keeps_ret {X A} (f : S -> X) (a : A) : keeps f (ret a).
Proof. done. Qed.

Lemma keeps_raise {X A} (f : S -> X) e : keeps f (@raise S A e).
Proof. done. Qed.

Lemma keeps_gets {X A} (f : S -> X) (g : S -> A) : keeps f (gets g).
Proof. done. Qed.

Lemma keeps_lift_res {X A} (f : S -> X) (r : Res A) : keeps f (lift_res r).
Proof. done. Qed.

Lemma keeps_bind {X A B} (f : S -> X) (m : M S A) (k : A -> M S B) :
  keeps f m -> (forall a, keeps f (k a)) -> keeps f (bind m k).
Proof.
  intros Hm Hk s. unfold bind. specialize (Hm s).
  destruct (m s) as [[a|e] s']; simpl in *; [| done].
  by rewrite Hk.
Qed.

Lemma keeps_try_except {X A} (f : S -> X) (m h : M S A) e :
  keeps f m -> keeps f h -> keeps f (try_except m e h).
Proof.
  intros Hm Hh s. unfold try_except. specialize (Hm s).
  destruct (m s) as [[a|e'] s']; simpl in *; [done |].
  destruct (bool_decide (e' = e)); [| done]. by rewrite Hh.
Qed.

Lemma keeps_for_each {X A} (f : S -> X) (l : list A) (body : A -> M S unit) :
  (forall a, keeps f (body a)) -> keeps f (for_each l body).
Proof.
  intros Hbody. induction l as [|a l IH]; simpl; [apply keeps_ret |].
  by apply keeps_bind.
Qed.

End Wp.

Ltac wp_step :=
  lazymatch goal with
  | |- wp (bind _ _) _ _ => apply wp_bind
  | |- wp (ret _) _ _ => apply wp_ret
  | |- wp (raise _) _ _ => apply wp_raise
  | |- wp (gets _) _ _ => apply wp_gets
  | |- wp get_list _ _ => apply wp_gets
  | |- wp get_self _ _ => apply wp_gets
  | |- wp (modify _) _ _ => apply wp_modify
  | |- wp (modify_self _) _ _ => apply wp_modify
  | |- wp (modify_list _) _ _ => apply wp_modify
  | |- wp (modify_outside _) _ _ => apply wp_modify
  | |- wp (lift_res _) _ _ => apply wp_lift_res
  | |- wp (try_except _ _ _) _ _ => apply wp_try_except
  end; cbv beta iota.

Ltac wp_steps := repeat wp_step.

(** The part of the state outside the list, seen through [fo], is not
    touched by what only changes the list. *)
Section Frame.
Context {X : Type} (fo : Outside -> X).

Lemma keeps_modify_self g : keeps (fun s => fo (outside s)) (modify_self g).
Proof. done. Qed.

Lemma keeps_modify_list g : keeps (fun s => fo (outside s)) (modify_list g).
Proof. done. Qed.

Lemma keeps_modify_outside g :
  (forall o, fo (g o) = fo o) -> keeps (fun s => fo (outside s)) (modify_outside g).
Proof. intros H s. apply H. Qed.

End Frame.

Create HintDb keeps.

Ltac keeps_step :=
  lazymatch goal with
  | |- keeps _ (bind _ _) => apply keeps_bind; [| intros ?]
  | |- keeps _ (ret _) => apply keeps_ret
  | |- keeps _ (raise _) => apply keeps_raise
  | |- keeps _ (gets _) => apply keeps_gets
  | |- keeps _ get_list => apply keeps_gets
  | |- keeps _ get_self => apply keeps_gets
  | |- keeps _ (lift_res _) => apply keeps_lift_res
  | |- keeps _ (modify_self _) => apply keeps_modify_self
  | |- keeps _ (modify_list _) => apply keeps_modify_list
  | |- keeps _ (modify_outside _) => apply keeps_modify_outside; done
  | |- keeps _ (try_except _ _ _) => apply keeps_try_except
  | |- keeps _ (for_each _ _) => apply keeps_for_each; intros ?
  | |- keeps _ (match ?x with _ => _ end) => destruct x
  | |- keeps _ _ => solve [auto with keeps]
  end.

Ltac solve_keeps := repeat keeps_step.

Section FrameHandlers.
Context {X : Type} (fo : Outside -> X).

Lemma keeps_state_getitem sid :
  keeps (fun s => fo (outside s)) (state_getitem sid).
Proof. unfold state_getitem. solve_keeps. Qed.

Lemma keeps_data_append g m :
  keeps (fun s => fo (outside s)) (data_append g m).
Proof. unfold data_append. solve_keeps. Qed.

Lemma keeps_data_remove g m :
  keeps (fun s => fo (outside s)) (data_remove g m).
Proof. unfold data_remove. solve_keeps. Qed.

Lemma keeps_sort_groups : keeps (fun s => fo (outside s)) _sort_groups.
Proof. unfold _sort_groups, sort_entry. solve_keeps. Qed.

Lemma keeps_init_check env : keeps (fun s => fo (outside s)) (_init_check env).
Proof.
  unfold _init_check, _init_member_list, set_groups, get_role_groups,
    _fetch_overwrites, _list_fill_groups, data_append.
  pose proof keeps_sort_groups. solve_keeps.
Qed.

End FrameHandlers.

#[export] Hint Resolve keeps_state_getitem keeps_data_append keeps_data_remove
  keeps_sort_groups keeps_init_check : keeps.

Lemma keeps_sent_create_task sid rs :
  keeps (fun s => sent (outside s)) (create_task sid rs).
Proof. unfold create_task. solve_keeps. Qed.

Lemma keeps_objs_create_task sid rs :
  keeps (fun s => objs (outside s)) (create_task sid rs).
Proof. unfold create_task. solve_keeps. Qed.

#[export] Hint Resolve keeps_sent_create_task keeps_objs_create_task : keeps.

Lemma keeps_sent_resync sids idx :
  keeps (fun s => sent (outside s)) (resync sids idx).
Proof. induction sids as [|sid sids IH]; simpl; solve_keeps. Qed.

Lemma keeps_objs_resync sids idx :
  keeps (fun s => objs (outside s)) (resync sids idx).
Proof. induction sids as [|sid sids IH]; simpl; solve_keeps. Qed.

#[export] Hint Resolve keeps_sent_resync keeps_objs_resync : keeps.

Lemma keeps_objs_dispatch_sess env sids ops :
  keeps (fun s => objs (outside s)) (_dispatch_sess env sids ops).
Proof. unfold _dispatch_sess. solve_keeps. Qed.

#[export] Hint Resolve keeps_objs_dispatch_sess : keeps.

Lemma keeps_objs_pres_update_simple env user :
  keeps (fun s => objs (outside s)) (_pres_update_simple env user).
Proof. unfold _pres_update_simple. solve_keeps. Qed.

Lemma keeps_sent_pres_update_complex user og oi ng :
  keeps (fun s => sent (outside s)) (_pres_update_complex user og oi ng).
Proof. unfold _pres_update_complex. solve_keeps. Qed.

Lemma keeps_objs_pres_update_complex user og oi ng :
  keeps (fun s => objs (outside s)) (_pres_update_complex user og oi ng).
Proof. unfold _pres_update_complex. solve_keeps. Qed.

#[export] Hint Resolve keeps_objs_pres_update_simple
  keeps_sent_pres_update_complex keeps_objs_pres_update_complex : keeps.

(** ** Small facts about the Python containers *)

Lemma st_eta (st : St) :
  mkSt (mkGML (guild_id (self st)) (channel_id (self st))
          (mkMemberList (groups (mlist (self st))) (data (mlist (self st)))
             (presences (mlist (self st))) (members (mlist (self st)))
             (overwrites (mlist (self st))))
          (state (self st)))
       (outside st) = st.
Proof. by destruct st as [[? ? [] ?] ?]. Qed.

Lemma res_bind_ok {A B} (r : Res A) (k : A -> Res B) (b : B) :
  res_bind r k = Ok b -> exists a, r = Ok a /\ k a = Ok b.
Proof. destruct r as [a|e]; simpl; [eauto | discriminate]. Qed.

Lemma getitem_ok `{Countable K} {V} (m : gmap K V) k v :
  getitem m k = Ok v <-> m !! k = Some v.
Proof. unfold getitem. destruct (m !! k); split; congruence. Qed.

Lemma index_by_func_none {A} (f : A -> bool) (l : list A) :
  (forall x, x ∈ l -> f x = false) -> index_by_func f l = None.
Proof.
  induction l as [|x l IH]; intros Hl; [done |]. simpl.
  rewrite (Hl x) by (apply elem_of_cons; by left).
  rewrite IH; [done |]. intros y Hy. apply Hl, elem_of_cons. by right.
Qed.

Lemma py_index_elem user ids :
  user ∈ ids -> exists i, py_index user ids = Some i.
Proof.
  induction ids as [|y ids IH]; intros Hin; [by apply elem_of_nil in Hin |].
  simpl. case_bool_decide; [eauto |].
  apply elem_of_cons in Hin as [-> | Hin]; [done |].
  destruct (IH Hin) as [i ->]. simpl. eauto.
Qed.

Lemma py_slice_past_the_end {A} (l : list A) (start stop : Z) :
  len l <= start -> start <= stop -> py_slice l start stop = [].
Proof.
  intros Hlen Hle. unfold py_slice, clamp_index, len in *.
  replace (start <? 0) with false by (symmetry; apply Z.ltb_ge; lia).
  replace (stop <? 0) with false by (symmetry; apply Z.ltb_ge; lia).
  rewrite !Z.min_r by lia. rewrite Z.sub_diag. done.
Qed.

(** The slice never holds the item at [stop]: it has at most
    [stop - start] items, one short of the inclusive range. *)
Lemma py_slice_length {A} (l : list A) (start stop : Z) :
  0 <= start -> start <= stop -> len (py_slice l start stop) <= stop - start.
Proof.
  intros H0 Hle. unfold py_slice, clamp_index, len.
  replace (start <? 0) with false by (symmetry; apply Z.ltb_ge; lia).
  replace (stop <? 0) with false by (symmetry; apply Z.ltb_ge; lia).
  rewrite length_take. lia.
Qed.

Lemma pretty_N_go_not_o x s :
  (forall rest, s <> String "o"%char rest) ->
  forall rest, pretty_N_go x s <> String "o"%char rest.
Proof.
  revert s. induction (N.lt_wf_0 x) as [x _ IH]; intros s Hs rest.
  assert (x = 0 \/ 0 < x)%N as [-> | Hpos] by lia.
  - rewrite pretty_N_go_0. apply Hs.
  - rewrite pretty_N_go_step by done. apply IH.
    + by apply N.div_lt.
    + intros rest'. unfold pretty_N_char. by repeat case_match.
Qed.

Lemma pretty_Z_not_offline (z : Z) : pretty z <> "offline".
Proof.
  destruct z as [|p|p]; [done | | done].
  unfold pretty, pretty_Z, pretty, pretty_positive, pretty, pretty_N.
  case_decide; [done |]. by apply pretty_N_go_not_o.
Qed.

(** Only the tag ['offline'] is printed as ["offline"]. *)
Lemma str_gid_offline g : str_gid g = "offline" -> g = offline.
Proof.
  destruct g as [z|tag]; simpl.
  - intros H. by apply pretty_Z_not_offline in H.
  - by intros ->.
Qed.

(** ** The item sequence and the slice a subscriber receives *)

(** C1. Session ['s1'] asks for the range [(0, 0)] of a list whose item
    sequence starts with the header of ['online']: the [SYNC] it receives
    carries no item, because [items[start:end]] leaves the item at [end]
    out, while the range it is recorded under holds index [0]. *)
Theorem shard_query_range_0_0_carries_no_item :
  items ex_list = Ok ex_items
  /\ py_getitem ex_items 0 = Ok (GroupItem "online" 1)
  /\ fst (shard_query ex_env 1 1 "s1" [(0, 0)] ex_world) = Ok tt
  /\ sent (world_outside (snd (shard_query ex_env 1 1 "s1" [(0, 0)] ex_world)))
     = [ mkDispatched "s1" "GUILD_MEMBER_LIST_UPDATE"
           (mkPayload "everyone" "1"
              [ mkGroupCount "online" 1; mkGroupCount "offline" 1 ]
              [ mkOpDict "SYNC" (Some []) (Some (0, 0)) None None ]) ]
  /\ in_range (IInt 0) (0, 0) = Ok true.
Proof. vm_compute. repeat split; reflexivity. Qed.

(** C2, counterexample. Once member [20] comes online, [data['offline']]
    is empty and the item sequence has no ['offline'] header; and the list
    of a guild without members has no item at all. *)
Lemma items_without_offline_header :
  let st := snd (pres_update ex_env 20 0%nat ex_st) in
  initialized (mlist (self st)) = true
  /\ data (mlist (self st)) !! offline = Some []
  /\ items (mlist (self st))
     = Ok [ GroupItem "online" 2;
            MemberItem (mkMember ex_bob (Some "Bobby"))
              (mkItemPresence "20" "online" JNull JNull);
            MemberItem (mkMember ex_alice None)
              (mkItemPresence "10" "online" JNull JNull) ]
  /\ (let st0 := snd (_init_member_list ex_env_empty
                        (mkSt (mkGML 1 1 MemberList_new []) ex_outside)) in
      data (mlist (self st0)) !! offline = Some []
      /\ items (mlist (self st0)) = Ok []).
Proof. vm_compute. repeat split; reflexivity. Qed.

Lemma member_items_only l ids ms :
  res_mapM (get_member_as_item l) ids = Ok ms ->
  forall x, x ∈ ms -> exists m p, x = MemberItem m p.
Proof.
  revert ms. induction ids as [|i ids IH]; simpl; intros ms Hms x Hx.
  - injection Hms as <-. by apply elem_of_nil in Hx.
  - apply res_bind_ok in Hms as (y & Hy & Hms).
    apply res_bind_ok in Hms as (ys & Hys & Hms).
    injection Hms as <-.
    apply elem_of_cons in Hx as [-> | Hx]; [| by eapply IH].
    unfold get_member_as_item in Hy.
    apply res_bind_ok in Hy as (member & _ & Hy).
    apply res_bind_ok in Hy as (presence & _ & Hy).
    unfold merge in Hy. destruct member; [| discriminate].
    injection Hy as <-. eauto.
Qed.

Lemma items_loop_headers l gs its :
  items_loop l gs = Ok its ->
  forall id n, GroupItem id n ∈ its ->
  exists g ids, g ∈ gs /\ id = str_gid (gid g) /\ data l !! gid g = Some ids
                /\ ids <> [] /\ n = len ids.
Proof.
  revert its. induction gs as [|g gs IH]; simpl; intros its Hits id n Hin.
  - injection Hits as <-. by apply elem_of_nil in Hin.
  - apply res_bind_ok in Hits as (ids & Hids & Hits).
    apply getitem_ok in Hids.
    destruct ids as [|i ids].
    + destruct (IH _ Hits _ _ Hin) as (g' & ids' & Hg' & ?).
      exists g', ids'. split; [by apply elem_of_cons; right | done].
    + apply res_bind_ok in Hits as (ms & Hms & Hits).
      apply res_bind_ok in Hits as (tail & Htail & Hits).
      injection Hits as <-.
      apply elem_of_cons in Hin as [Heq | Hin].
      * injection Heq as -> ->. exists g, (i :: ids).
        repeat split; [apply elem_of_cons; by left | done | done].
      * apply elem_of_app in Hin as [Hin | Hin].
        -- destruct (member_items_only _ _ _ Hms _ Hin) as (? & ? & ?); discriminate.
        -- destruct (IH _ Htail _ _ Hin) as (g' & ids' & Hg' & ?).
           exists g', ids'. split; [by apply elem_of_cons; right | done].
Qed.

Lemma items_headers l its :
  items l = Ok its ->
  forall id n, GroupItem id n ∈ its ->
  exists g ids, g ∈ groups l /\ id = str_gid (gid g) /\ data l !! gid g = Some ids
                /\ ids <> [] /\ n = len ids.
Proof.
  unfold items. destruct (negb (initialized l)).
  - intros [= <-] id n Hin. by apply elem_of_nil in Hin.
  - apply items_loop_headers.
Qed.

Lemma sort_entry_empty k (st : St) :
  data (mlist (self st)) !! k = Some [] ->
  sort_entry (k, []) st = (Ok tt, st).
Proof.
  intros Hk.
  unfold sort_entry, bind, get_list, gets, lift_res, modify_list, modify_self,
    modify, set_data, set_mlist. simpl.
  rewrite (insert_id _ _ _ Hk). by rewrite st_eta.
Qed.

Lemma sort_entries_all_empty (es : list (GroupID * list Z)) (st : St) :
  (forall k v, (k, v) ∈ es -> v = [] /\ data (mlist (self st)) !! k = Some []) ->
  for_each es sort_entry st = (Ok tt, st).
Proof.
  induction es as [|[k v] es IH]; intros Hes; [done |].
  destruct (Hes k v) as [-> Hk]; [apply elem_of_cons; by left |].
  simpl for_each. apply wp_eq. wp_step.
  eapply wp_of_eq; [by apply sort_entry_empty |]. cbv beta iota.
  eapply wp_of_eq; [| reflexivity].
  apply IH. intros k' v' Hin. apply Hes, elem_of_cons. by right.
Qed.

Lemma sort_groups_all_empty (st : St) :
  (forall k v, data (mlist (self st)) !! k = Some v -> v = []) ->
  _sort_groups st = (Ok tt, st).
Proof.
  intros Hall. apply wp_eq. unfold _sort_groups. wp_steps.
  eapply wp_of_eq; [| reflexivity].
  apply sort_entries_all_empty. intros k v Hin.
  apply elem_of_map_to_list in Hin. pose proof (Hall _ _ Hin) as ->. done.
Qed.

Lemma alloc_data_lookup (gs : list GroupInfo) (m : gmap GroupID (list Z)) k v :
  (forall k v, m !! k = Some v -> v = []) ->
  foldl (fun m group => <[gid group := []]> m) m gs !! k = Some v -> v = [].
Proof.
  revert m. induction gs as [|g gs IH]; simpl; intros m Hm; [by apply Hm |].
  apply IH. intros k' v'. rewrite lookup_insert.
  case_decide; [congruence | apply Hm].
Qed.

Lemma alloc_data_last (gs : list GroupInfo) g (m : gmap GroupID (list Z)) :
  foldl (fun m group => <[gid group := []]> m) m (gs ++ [g]) !! gid g = Some [].
Proof. rewrite foldl_app. simpl. apply lookup_insert_eq. Qed.

Lemma set_groups_run env (st : St) :
  exists role_groups ovs,
    set_groups env st
    = (Ok tt,
       mkSt (set_mlist
               (set_groups_of
                  (role_groups ++ [ mkGroupInfo online "online" (MAX_ROLES + 1) 0;
                                    mkGroupInfo offline "offline" (MAX_ROLES + 2) 0 ])
                  (set_overwrites ovs (mlist (self st))))
               (self st))
            (outside st)).
Proof.
  eexists _, _. apply wp_eq.
  unfold set_groups, get_role_groups, _fetch_overwrites. wp_steps. reflexivity.
Qed.

(** Initializing the list of a guild without members. *)
Lemma init_empty_guild env (st : St) :
  get_member_ids env (guild_id (self st)) = [] ->
  guild_presences env [] (guild_id (self st)) = [] ->
  exists st', _init_member_list env st = (Ok tt, st')
    /\ data (mlist (self st')) !! offline = Some []
    /\ items (mlist (self st')) = Ok [].
Proof.
  intros Hids Hpres.
  destruct (set_groups_run env
              (mkSt (set_mlist (set_presences ∅ (mlist (self st))) (self st))
                    (outside st))) as (rgs & ovs & Hset).
  eexists. split.
  - apply wp_eq. unfold _init_member_list. wp_steps. rewrite Hids, Hpres.
    simpl foldl. wp_steps.
    eapply wp_of_eq; [exact Hset |]. cbv beta iota. wp_steps.
    unfold _list_fill_groups. simpl for_each. wp_steps.
    eapply wp_of_eq; [| reflexivity].
    apply sort_groups_all_empty. simpl. intros k v.
    apply alloc_data_lookup. intros ? ?. by rewrite lookup_empty.
  - simpl. split.
    + match goal with |- context [rgs ++ [?a; ?b]] =>
        change (rgs ++ [a; b]) with (rgs ++ [a] ++ [b]) end.
      rewrite app_assoc. apply alloc_data_last.
    + unfold items, initialized. simpl. by rewrite andb_false_r.
Qed.

(** C2, as amended. A group header is in the item sequence only for a
    group that has members: the header of every group without members is
    left out, ['offline'] included. The list of a guild without members is
    initialized to [data['offline'] = []] and an empty item sequence. *)
Theorem items_headers_only_for_groups_with_members env (l : MemberList)
    (its : list Item) (st : St) :
  items l = Ok its ->
  get_member_ids env (guild_id (self st)) = [] ->
  guild_presences env [] (guild_id (self st)) = [] ->
  (forall id n, GroupItem id n ∈ its ->
     exists g ids, g ∈ groups l /\ id = str_gid (gid g)
                   /\ data l !! gid g = Some ids /\ ids <> [] /\ n = len ids)
  /\ (data l !! offline = Some [] -> forall n, GroupItem "offline" n ∉ its)
  /\ (exists st', _init_member_list env st = (Ok tt, st')
        /\ data (mlist (self st')) !! offline = Some []
        /\ items (mlist (self st')) = Ok []).
Proof.
  intros Hits Hids Hpres. split; [by apply items_headers |]. split.
  - intros Hoff n Hin.
    destruct (items_headers _ _ Hits _ _ Hin) as (g & ids & _ & Hid & Hdata & Hne & _).
    symmetry in Hid. apply str_gid_offline in Hid. rewrite Hid, Hoff in Hdata.
    by injection Hdata as <-.
  - by apply init_empty_guild.
Qed.

Lemma items_headers_only_for_groups_with_members_witness :
  (forall n,
     GroupItem "offline" n
     ∉ [ GroupItem "online" 2;
         MemberItem (mkMember ex_bob (Some "Bobby"))
           (mkItemPresence "20" "online" JNull JNull);
         MemberItem (mkMember ex_alice None)
           (mkItemPresence "10" "online" JNull JNull) ])
  /\ (exists st',
        _init_member_list ex_env_empty
          (mkSt (mkGML 1 1 MemberList_new []) ex_outside) = (Ok tt, st')
        /\ data (mlist (self st')) !! offline = Some []
        /\ items (mlist (self st')) = Ok []).
Proof.
  destruct (items_headers_only_for_groups_with_members ex_env_empty
              (mlist (self (snd (pres_update ex_env 20 0%nat ex_st))))
              [ GroupItem "online" 2;
                MemberItem (mkMember ex_bob (Some "Bobby"))
                  (mkItemPresence "20" "online" JNull JNull);
                MemberItem (mkMember ex_alice None)
                  (mkItemPresence "10" "online" JNull JNull) ]
              (mkSt (mkGML 1 1 MemberList_new []) ex_outside))
    as (_ & Hoffline & Hempty);
    [vm_compute; reflexivity | reflexivity | reflexivity |].
  split; [apply Hoffline; vm_compute; reflexivity | exact Hempty].
Defined.

(** ** Role handlers *)

(** C3. The role [5] is a group and session ['s1'] holds a range:
    [role_pos_update] raises [TypeError] when it compares the range with
    the method it took for the old index, and the position of the group is
    not updated. *)
Theorem role_pos_update_raises_with_a_subscriber :
  let st := snd (new_role ex_env ex_role ex_st) in
  map gid (groups (mlist (self st))) = [online; GRole 5; offline]
  /\ state (self st) = [("s1", {[ (0, 3) ]})]
  /\ role_pos_update ex_role_moved st = (Raise TypeError, st).
Proof. vm_compute. repeat split; reflexivity. Qed.

Lemma first_range_method ranges :
  ranges <> [] -> first_range IMethod ranges = Raise TypeError.
Proof. by destruct ranges. Qed.

Lemma get_subs_loop_method st :
  (exists sid ranges, (sid, ranges) ∈ st /\ ranges <> ∅) ->
  get_subs_loop IMethod st = Raise TypeError.
Proof.
  induction st as [|[sid rs] st IH]; intros (sid0 & rs0 & Hin & Hne).
  { by apply elem_of_nil in Hin. }
  simpl. unfold state_is_subbed.
  destruct (elements rs) as [|r rest] eqn:Hel.
  - simpl. rewrite IH; [done |].
    apply elem_of_cons in Hin as [[= -> ->] | Hin]; [| by exists sid0, rs0].
    apply elements_empty_inv in Hel. by apply leibniz_equiv in Hel.
  - done.
Qed.

(** Whenever a session holds a range, [role_pos_update] raises before it
    looks at the role. *)
Lemma role_pos_update_raises role (st : St) :
  (exists sid ranges, (sid, ranges) ∈ state (self st) /\ ranges <> ∅) ->
  role_pos_update role st = (Raise TypeError, st).
Proof.
  intros Hsub. apply wp_eq. unfold role_pos_update. wp_steps.
  unfold get_subs. by rewrite get_subs_loop_method.
Qed.

(** Without any recorded range nothing is compared, and the groups are
    sorted by position: the synthetic groups, whose positions are the
    highest, come first. *)
Example role_pos_update_without_subscriber :
  let st := snd (new_role ex_env ex_role (mkSt (mkGML 1 1 ex_list []) ex_outside)) in
  fst (role_pos_update ex_role_moved st) = Ok (Some [])
  /\ map (fun g => (gid g, position g))
         (groups (mlist (self (snd (role_pos_update ex_role_moved st)))))
     = [(offline, 252); (online, 251); (GRole 5, 0)].
Proof. vm_compute. split; reflexivity. Qed.

(** C4. A readable role at position [5] arrives at a list whose groups are
    ['online'] and ['offline']: [insert] at index [5] puts the new group
    after both. *)
Theorem new_role_lands_after_offline :
  initialized ex_list = true
  /\ map gid (groups ex_list) = [online; offline]
  /\ fst (new_role ex_env (mkRole 5 "mods" true 5 1024) ex_st) = Ok tt
  /\ map gid (groups (mlist (self (snd
        (new_role ex_env (mkRole 5 "mods" true 5 1024) ex_st)))))
     = [online; offline; GRole 5].
Proof. vm_compute. repeat split; reflexivity. Qed.

(** A readable role whose position is not below the number of groups is
    appended to the groups, after ['offline']. *)
Lemma new_role_appends env role (st : St) :
  let ovs := foldl (fun m ov => <[ov_id ov := ov]> m) ∅
                   (chan_overwrites env (channel_id (self st))) in
  let perms := overwrite_find_mix env (role_perms role) ovs (GRole (role_id role)) in
  initialized (mlist (self st)) = true ->
  read_messages env perms = true ->
  len (groups (mlist (self st))) <= role_position role ->
  fst (new_role env role st) = Ok tt
  /\ groups (mlist (self (snd (new_role env role st))))
     = groups (mlist (self st))
       ++ [mkGroupInfo (GRole (role_id role)) (role_name role)
                       (role_position role) perms].
Proof.
  intros ovs perms Hinit Hread Hpos.
  change (wp (new_role env role)
            (fun r s' =>
               r = Ok tt
               /\ groups (mlist (self s'))
                  = groups (mlist (self st))
                    ++ [mkGroupInfo (GRole (role_id role)) (role_name role)
                                    (role_position role) perms]) st).
  unfold new_role, _fetch_overwrites. wp_steps. rewrite Hinit. simpl negb.
  cbv iota. wp_steps. unfold _can_read_chan. simpl. fold ovs. fold perms.
  rewrite Hread. simpl negb. cbv iota. wp_steps. simpl. split; [done |].
  unfold py_insert, clamp_index.
  replace (role_position role <? 0) with false
    by (symmetry; apply Z.ltb_ge; unfold len in Hpos; lia).
  rewrite Z.min_r by lia. unfold len. rewrite Nat2Z.id.
  by rewrite firstn_all, skipn_all.
Qed.

(** C6, counterexample. The role [7] is not a group, but the channel has
    an overwrite for it: [role_delete] returns the empty list and drops
    the overwrite. *)
Lemma role_delete_non_group_drops_overwrite :
  initialized ex_list = true
  /\ index_by_func (fun g => bool_decide (gid g = GRole 7)) (groups ex_list) = None
  /\ fst (role_delete ex_env 7 ex_st) = Ok (Some [])
  /\ overwrites ex_list = {[ 7 := ex_overwrite ]}
  /\ overwrites (mlist (self (snd (role_delete ex_env 7 ex_st)))) = ∅
  /\ overwrites (mlist (self (snd (role_delete ex_env 7 ex_st)))) <> overwrites ex_list.
Proof. vm_compute. repeat split; try reflexivity. discriminate. Qed.

Lemma get_group_item_index_loop_none l k index gs :
  (forall g, g ∈ gs -> is_Some (data l !! gid g)) ->
  (forall g, g ∈ gs -> gid g <> k) ->
  get_group_item_index_loop l k index gs = Ok None.
Proof.
  revert index. induction gs as [|g gs IH]; intros index Hdata Hne; [done |].
  simpl. destruct (Hdata g) as [ids Hids]; [apply elem_of_cons; by left |].
  unfold getitem. rewrite Hids. simpl.
  assert (Hrest : forall i, get_group_item_index_loop l k i gs = Ok None).
  { intros i. apply IH; intros g' Hg'; [apply Hdata | apply Hne];
      apply elem_of_cons; by right. }
  rewrite (bool_decide_eq_false_2 (gid g = k))
    by (apply Hne, elem_of_cons; by left).
  destruct (_ || _); apply Hrest.
Qed.

Lemma keys_agree_group l g :
  keys_agree l -> g ∈ groups l -> is_Some (data l !! gid g).
Proof.
  unfold keys_agree. intros Hkeys Hg. apply elem_of_dom. rewrite Hkeys.
  apply elem_of_list_to_set, list_elem_of_fmap. by exists g.
Qed.

Lemma keys_agree_not_group l k :
  keys_agree l -> ~ is_group l k -> data l !! k = None.
Proof.
  unfold keys_agree, is_group. intros Hkeys Hnot. apply not_elem_of_dom.
  rewrite Hkeys. by rewrite elem_of_list_to_set.
Qed.

(** C6, as amended. On an initialized list whose [data] has the group ids
    as keys, [role_delete] of a role that is not a group returns the empty
    list and leaves [groups], [data], [members], [presences], the
    subscriptions and everything outside the list as they are; of
    [overwrites] it removes the entry of the role, if there is one. *)
Theorem role_delete_non_group env (st : St) (role : Z) :
  initialized (mlist (self st)) = true ->
  keys_agree (mlist (self st)) ->
  ~ is_group (mlist (self st)) (GRole role) ->
  role_delete env role st
  = (Ok (Some []),
     mkSt (set_mlist (set_overwrites (delete role (overwrites (mlist (self st))))
                        (mlist (self st)))
             (self st))
          (outside st)).
Proof.
  intros Hinit Hkeys Hnot.
  set (l := mlist (self st)) in *.
  assert (Hne : forall g, g ∈ groups l -> gid g <> GRole role).
  { intros g Hg Heq. apply Hnot, list_elem_of_fmap. by exists g. }
  assert (Hdata : forall g, g ∈ groups l -> is_Some (data l !! gid g)).
  { intros g Hg. by apply keys_agree_group. }
  assert (Hpop : data l !! GRole role = None).
  { by apply keys_agree_not_group. }
  apply wp_eq. unfold role_delete. wp_steps. fold l. rewrite Hinit. simpl negb.
  cbv iota. wp_steps. unfold get_group_item_index.
  rewrite (get_group_item_index_loop_none l (GRole role) 0 (groups l) Hdata Hne).
  wp_steps.
  rewrite (index_by_func_none _ (groups l))
    by (intros g Hg; apply bool_decide_eq_false_2; by apply Hne).
  wp_steps. unfold data_pop. wp_steps. fold l. unfold getitem at 1. rewrite Hpop.
  simpl bool_decide. cbv iota. wp_steps. fold l. unfold getitem.
  destruct (overwrites l !! role) as [ov|] eqn:Hov.
  - wp_steps. simpl resync. wp_steps. done.
  - simpl bool_decide. cbv iota. wp_steps. simpl resync. wp_steps.
    rewrite delete_id by done. subst l. unfold set_mlist, set_overwrites.
    by rewrite st_eta.
Qed.

Lemma role_delete_non_group_witness :
  role_delete ex_env 7 ex_st
  = (Ok (Some []),
     mkSt (mkGML 1 1
             (mkMemberList (groups ex_list) (data ex_list) (presences ex_list)
                (members ex_list) (delete 7 (overwrites ex_list)))
             (state ex_gml))
          ex_outside).
Proof.
  apply (role_delete_non_group ex_env ex_st 7).
  - reflexivity.
  - vm_compute. reflexivity.
  - unfold is_group. intros H. apply (bool_decide_pack _) in H.
    vm_compute in H. exact H.
Defined.

(** ** Presence updates *)

(** C5. The user [99] is in no [data[gid]] and has no stored presence:
    [pres_update] raises [KeyError] at [self.list.presences[user_id]]
    instead of returning the empty list. *)
Theorem pres_update_unknown_user_raises :
  initialized ex_list = true
  /\ find_old_group ex_list 99 (groups ex_list) = Ok None
  /\ presences ex_list !! 99 = None
  /\ pres_update ex_env 99 0%nat ex_st = (Raise KeyError, ex_st).
Proof. vm_compute. repeat split; reflexivity. Qed.

Lemma find_old_group_absent l user gs :
  (forall g, g ∈ gs -> exists ids, data l !! gid g = Some ids /\ user ∉ ids) ->
  find_old_group l user gs = Ok None.
Proof.
  induction gs as [|g gs IH]; intros Hgs; [done |].
  simpl. destruct (Hgs g) as (ids & Hids & Hnot); [apply elem_of_cons; by left |].
  unfold getitem. rewrite Hids. simpl.
  assert (Hindex : py_index user ids = None).
  { clear -Hnot. induction ids as [|y ids IH]; [done |]. simpl.
    rewrite bool_decide_eq_false_2 by (intros ->; apply Hnot; by left).
    rewrite IH; [done |]. intros Hin. apply Hnot. by right. }
  rewrite Hindex. apply IH. intros g' Hg'. apply Hgs, elem_of_cons. by right.
Qed.

(** What the handler does get right: a user with a stored presence who is
    in no [data[gid]] makes [pres_update] return the empty list, and only
    the ['nick'] of the caller's dict is gone afterwards. *)
Lemma pres_update_absent_with_presence env (st : St) (user : Z) (r : nat)
    (p : Presence) (pp : PartialPresence) :
  initialized (mlist (self st)) = true ->
  presences (mlist (self st)) !! user = Some p ->
  objs (outside st) !! r = Some pp ->
  (forall g, g ∈ groups (mlist (self st)) ->
     exists ids, data (mlist (self st)) !! gid g = Some ids /\ user ∉ ids) ->
  pres_update env user r st
  = (Ok [],
     mkSt (self st)
          (mkOutside (sent (outside st)) (tasks (outside st))
                     (<[r := without_nick pp]> (objs (outside st))))).
Proof.
  intros Hinit Hp Hpp Habsent.
  apply wp_eq. unfold pres_update, _init_check. wp_steps.
  rewrite Hinit. simpl negb. cbv iota.
  wp_steps. unfold getitem at 1. rewrite Hp. cbv iota.
  unfold deref at 1. wp_steps. unfold getitem at 1. rewrite Hpp. cbv iota.
  unfold pop_nick, deref. wp_steps. unfold getitem at 1. simpl outside.
  rewrite Hpp. cbv iota. wp_steps.
  rewrite (find_old_group_absent _ _ _ Habsent). cbv iota. wp_steps. done.
Qed.

Lemma find_old_group_found l user gs :
  (forall g, g ∈ gs -> is_Some (data l !! gid g)) ->
  (exists g ids, g ∈ gs /\ data l !! gid g = Some ids /\ user ∈ ids) ->
  exists g old_index,
    g ∈ gs /\ find_old_group l user gs = Ok (Some (gid g, old_index)).
Proof.
  induction gs as [|g gs IH]; intros Hdata (g0 & ids0 & Hg0 & Hids0 & Hin).
  { by apply elem_of_nil in Hg0. }
  simpl. destruct (Hdata g) as [ids Hids]; [apply elem_of_cons; by left |].
  unfold getitem. rewrite Hids. simpl.
  destruct (py_index user ids) as [i|] eqn:Hi.
  - exists g, i. split; [apply elem_of_cons; by left | done].
  - apply elem_of_cons in Hg0 as [-> | Hg0].
    + rewrite Hids in Hids0. injection Hids0 as <-.
      destruct (py_index_elem _ _ Hin) as [i Hi']. congruence.
    + destruct IH as (g' & i & Hg' & Hfind).
      * intros g' Hg'. apply Hdata, elem_of_cons. by right.
      * by exists g0, ids0.
      * exists g', i. split; [apply elem_of_cons; by right | done].
Qed.

(** For a user who is in the list (a stored presence, and a place in
    the [data] of a group), a partial presence with a ['nick'] key sends
    [pres_update] down [_pres_update_complex], whatever group the user
    resolves to: the handler is that call, made once the dict has lost its
    ['nick'] and has been merged into the stored presence. Nothing is
    dispatched on that path. Every group of the list has its [data], and
    a group id that counts as true ([if not old_group]): role ids are not
    [0]. *)
Lemma pres_update_nick_is_complex_call env (st : St) (user : Z) (r : nat)
    (p : Presence) (pp : PartialPresence) (g : GroupInfo) (ids : list Z) :
  initialized (mlist (self st)) = true ->
  Forall (fun g => is_Some (data (mlist (self st)) !! gid g)) (groups (mlist (self st))) ->
  Forall (fun g => gid_truthy (gid g) = true) (groups (mlist (self st))) ->
  presences (mlist (self st)) !! user = Some p ->
  g ∈ groups (mlist (self st)) ->
  data (mlist (self st)) !! gid g = Some ids ->
  user ∈ ids ->
  objs (outside st) !! r = Some pp ->
  is_Some (pp_nick pp) ->
  exists old_group old_index,
    find_old_group (mlist (self st)) user (groups (mlist (self st)))
    = Ok (Some (old_group, old_index))
    /\ pres_update env user r st
       = _pres_update_complex user old_group old_index
           (get_group_for_member env (self st) user
              (default (p_roles p) (pp_roles pp))
              (default (p_status p) (pp_status pp)))
           (pres_update_merged st user r p pp)
    /\ sent (outside (snd (pres_update env user r st))) = sent (outside st).
Proof.
  intros Hinit Hdata Htruthy Hp Hg Hids Hin Hpp Hnick.
  set (l := mlist (self st)) in *.
  rewrite Forall_forall in Hdata. rewrite Forall_forall in Htruthy.
  destruct (find_old_group_found l user (groups l) Hdata) as (g' & old_index & Hg' & Hfind).
  { by exists g, ids. }
  exists (gid g'), old_index. split; [done |].
  assert (Heq : pres_update env user r st
       = _pres_update_complex user (gid g') old_index
           (get_group_for_member env (self st) user
              (default (p_roles p) (pp_roles pp))
              (default (p_status p) (pp_status pp)))
           (pres_update_merged st user r p pp)).
  { apply wp_eq. unfold pres_update, _init_check. wp_steps. fold l.
    rewrite Hinit. simpl negb. cbv iota.
    wp_steps. fold l. unfold getitem at 1. rewrite Hp. cbv iota.
    unfold deref at 1. wp_steps. unfold getitem at 1. rewrite Hpp. cbv iota.
    unfold pop_nick, deref. wp_steps. unfold getitem at 1. simpl outside.
    rewrite Hpp. cbv iota. wp_steps.
    rewrite Hfind. cbv iota. rewrite (Htruthy g' Hg'). simpl negb. cbv iota.
    wp_steps. unfold getitem at 1. simpl objs. rewrite lookup_insert_eq. cbv iota.
    wp_steps. simpl self. unfold getitem at 1. fold l. rewrite Hp. cbv iota.
    wp_steps.
    rewrite (bool_decide_eq_true_2 (is_Some (pp_nick pp)) Hnick).
    rewrite andb_false_r.
    apply wp_refl. }
  split; [done |]. rewrite Heq.
  apply (keeps_sent_pres_update_complex _ _ _ _ (pres_update_merged st user r p pp)).
Qed.

Example pres_update_nick_same_group :
  get_group_for_member ex_env ex_gml 10 [] "online" = Some online
  /\ fst (pres_update ex_env 10 1%nat ex_st) = Ok ["s1"; "s1"]
  /\ tasks (outside (snd (pres_update ex_env 10 1%nat ex_st)))
     = [mkTask 1 "s1" [(0, 3)]; mkTask 1 "s1" [(0, 3)]].
Proof. vm_compute. repeat split; reflexivity. Qed.

(** C9, counterexample. The caller's dict [{'nick': 'Al'}] is passed for
    the user [99], who has no stored presence: [pres_update] raises before
    it reaches [pop], and the dict still has its ['nick']. *)
Lemma pres_update_unknown_user_keeps_nick :
  objs (outside ex_st) !! 1%nat = Some ex_partial_nick
  /\ pp_nick ex_partial_nick = Some (JStr "Al")
  /\ fst (pres_update ex_env 99 1%nat ex_st) = Raise KeyError
  /\ objs (outside (snd (pres_update ex_env 99 1%nat ex_st))) !! 1%nat
     = Some ex_partial_nick.
Proof. vm_compute. repeat split; reflexivity. Qed.

(** C9, as amended. When the initialization check passes and the user has
    a stored presence, [pres_update] gets to [pop('nick')]: whatever it
    does next, and whether it returns or raises, the caller's dict ends
    without ['nick'] and with its other keys as they were. *)
Theorem pres_update_pops_nick env (st st1 : St) (user : Z) (r : nat)
    (p : Presence) (pp : PartialPresence) :
  _init_check env st = (Ok tt, st1) ->
  presences (mlist (self st1)) !! user = Some p ->
  objs (outside st) !! r = Some pp ->
  objs (outside (snd (pres_update env user r st))) !! r = Some (without_nick pp).
Proof.
  intros Hinit Hp Hpp.
  assert (Hpp1 : objs (outside st1) !! r = Some pp).
  { pose proof (keeps_init_check objs env st) as Hk. rewrite Hinit in Hk.
    simpl in Hk. by rewrite Hk. }
  change (wp (pres_update env user r)
            (fun _ s' => objs (outside s') !! r = Some (without_nick pp)) st).
  unfold pres_update. wp_step. eapply wp_of_eq; [exact Hinit |]. cbv beta iota.
  wp_steps. unfold getitem at 1. rewrite Hp. cbv iota.
  unfold deref at 1. wp_steps. unfold getitem at 1. rewrite Hpp1. cbv iota.
  unfold pop_nick, deref. wp_steps. unfold getitem at 1.
  rewrite Hpp1. cbv iota. wp_steps.
  destruct (find_old_group _ _ _) as [found|e]; [| apply lookup_insert_eq].
  match goal with |- wp ?m _ _ =>
    assert (Hk : keeps (fun s0 => objs (outside s0)) m) end.
  { solve_keeps. }
  eapply wp_mono; [apply (keeps_wp _ _ _ Hk) |].
  intros _ s' ->. simpl. apply lookup_insert_eq.
Qed.

Lemma pres_update_pops_nick_witness :
  pp_nick ex_partial_nick = Some (JStr "Al")
  /\ objs (outside (snd (pres_update ex_env 10 1%nat ex_st))) !! 1%nat
     = Some (mkPartial None None None None None None).
Proof.
  split; [reflexivity |].
  apply (pres_update_pops_nick ex_env ex_st ex_st 10 1%nat
           (mkPresence ex_alice "online" JNull JNull []) ex_partial_nick);
    reflexivity.
Defined.

(** ** shard_query *)

Lemma state_add_run sid range (st : St) :
  state_add sid range st
  = (Ok tt, with_state (add_range sid range (state (self st))) st).
Proof.
  apply wp_eq. unfold state_add, state_getitem, add_range, with_state.
  wp_steps. destruct (state_lookup (state (self st)) sid) as [rs|]; wp_steps; done.
Qed.

Lemma with_state_id (st : St) : with_state (state (self st)) st = st.
Proof. by destruct st as [[] ?]. Qed.

Lemma sync_ops_cons its range ranges :
  sync_ops its (range :: ranges)
  = if range_ok range
    then Operation_SYNC range (py_slice its (fst range) (snd range))
         :: sync_ops its ranges
    else sync_ops its ranges.
Proof. unfold sync_ops. simpl. by destruct (range_ok range). Qed.

Lemma add_ranges_cons sid range ranges st :
  add_ranges sid (range :: ranges) st
  = if range_ok range then add_ranges sid ranges (add_range sid range st)
    else add_ranges sid ranges st.
Proof. unfold add_ranges. simpl. by destruct (range_ok range). Qed.

Lemma shard_query_loop_ok sid ranges (st : St) its :
  items (mlist (self st)) = Ok its ->
  shard_query_loop sid ranges st
  = (Ok (sync_ops its ranges),
     with_state (add_ranges sid ranges (state (self st))) st).
Proof.
  revert st. induction ranges as [|[s e] ranges IH]; intros st Hits.
  { simpl. unfold ret, add_ranges. simpl. by rewrite with_state_id. }
  simpl shard_query_loop. rewrite sync_ops_cons, add_ranges_cons.
  unfold range_ok. simpl fst. simpl snd.
  destruct (e - s <? 0) eqn:Hlt; simpl negb; cbv iota.
  { apply IH, Hits. }
  apply wp_eq. wp_step. eapply wp_of_eq; [apply state_add_run |]. cbv beta iota.
  wp_steps. simpl mlist. rewrite Hits. cbv iota.
  wp_step. eapply wp_of_eq; [apply IH; exact Hits |]. cbv beta iota.
  wp_steps. done.
Qed.

Lemma with_sent_nil (st : St) : with_sent [] st = st.
Proof. destruct st as [? []]. unfold with_sent. simpl. by rewrite app_nil_r. Qed.

Lemma send_all_run (payload : Payload) (states : list string) (st : St) :
  for_each states (fun state_session_id =>
    modify_outside (fun o =>
      mkOutside
        (sent o ++ [mkDispatched state_session_id "GUILD_MEMBER_LIST_UPDATE" payload])
        (tasks o) (objs o))) st
  = (Ok tt,
     with_sent (map (fun sid => mkDispatched sid "GUILD_MEMBER_LIST_UPDATE" payload)
                    states) st).
Proof.
  revert st. induction states as [|sid states IH]; intros st.
  { simpl. by rewrite with_sent_nil. }
  simpl for_each. apply wp_eq. wp_steps.
  eapply wp_of_eq; [apply IH |]. unfold with_sent. simpl.
  by rewrite <- app_assoc.
Qed.

Lemma dispatch_sess_run env sids ops (st : St) gc ods :
  groups_complete (mlist (self st)) = Ok gc ->
  res_mapM to_dict ops = Ok ods ->
  _dispatch_sess env sids ops st
  = (Ok (omap (fetch_raw env) sids),
     with_sent (map (fun sid => mkDispatched sid "GUILD_MEMBER_LIST_UPDATE"
                                  (payload_of (self st) gc ods))
                    (omap (fetch_raw env) sids)) st).
Proof.
  intros Hgc Hods. apply wp_eq. unfold _dispatch_sess. wp_steps.
  rewrite Hgc. cbv iota. wp_steps. rewrite Hods. cbv iota. wp_step.
  eapply wp_of_eq; [apply send_all_run |]. cbv beta iota. wp_steps. done.
Qed.

Lemma dispatch_sess_raise env sids ops (st : St) e :
  groups_complete (mlist (self st)) = Raise e ->
  _dispatch_sess env sids ops st = (Raise e, st).
Proof.
  intros Hgc. apply wp_eq. unfold _dispatch_sess. wp_steps.
  rewrite Hgc. done.
Qed.

Lemma to_dict_sync_ops its ranges :
  res_mapM to_dict (sync_ops its ranges)
  = Ok (map (fun range =>
               mkOpDict "SYNC" (Some (py_slice its (fst range) (snd range)))
                        (Some range) None None)
            (List.filter range_ok ranges)).
Proof.
  unfold sync_ops. induction (List.filter range_ok ranges) as [|r rs IH]; [done |].
  simpl map. simpl res_mapM. rewrite IH. reflexivity.
Qed.

Lemma items_loop_groups_complete l gs its :
  items_loop l gs = Ok its -> exists gc, groups_complete_loop l gs = Ok gc.
Proof.
  revert its. induction gs as [|g gs IH]; intros its Hits; [by eexists |].
  simpl in Hits |- *.
  apply res_bind_ok in Hits as (ids & -> & Hits). simpl.
  assert (exists gc, groups_complete_loop l gs = Ok gc) as [gc Hgc].
  { destruct ids.
    - by eapply IH.
    - apply res_bind_ok in Hits as (ms & _ & Hits).
      apply res_bind_ok in Hits as (tail & Htail & _). by eapply IH. }
  rewrite Hgc. simpl. destruct (_ || _); eauto.
Qed.

Lemma items_groups_complete l its :
  initialized l = true -> items l = Ok its ->
  exists gc, groups_complete l = Ok gc.
Proof.
  unfold items. intros ->. simpl. apply items_loop_groups_complete.
Qed.

Lemma init_check_initialized env (st : St) :
  initialized (mlist (self st)) = true -> _init_check env st = (Ok tt, st).
Proof.
  intros Hinit. apply wp_eq. unfold _init_check. wp_steps. rewrite Hinit. done.
Qed.

(** [shard_query] on an initialized list whose item sequence is defined. *)
Lemma shard_query_here_ok env sid ranges (st : St) its :
  initialized (mlist (self st)) = true ->
  items (mlist (self st)) = Ok its ->
  exists gc,
    groups_complete (mlist (self st)) = Ok gc
    /\ shard_query_here env sid ranges st
       = (Ok tt,
          with_sent
            (map (fun s => mkDispatched s "GUILD_MEMBER_LIST_UPDATE"
                    (payload_of (self st) gc
                       (map (fun range =>
                               mkOpDict "SYNC"
                                 (Some (py_slice its (fst range) (snd range)))
                                 (Some range) None None)
                            (List.filter range_ok ranges))))
                 (omap (fetch_raw env) [sid]))
            (with_state (add_ranges sid ranges (state (self st))) st)).
Proof.
  intros Hinit Hits. destruct (items_groups_complete _ _ Hinit Hits) as [gc Hgc].
  exists gc. split; [done |].
  apply wp_eq. unfold shard_query_here. wp_step.
  eapply wp_of_eq; [by apply init_check_initialized |]. cbv beta iota.
  wp_step. eapply wp_of_eq; [by apply shard_query_loop_ok |]. cbv beta iota.
  wp_step. eapply wp_of_eq.
  { apply dispatch_sess_run; [exact Hgc | apply to_dict_sync_ops]. }
  cbv beta iota. wp_steps. done.
Qed.

(** The same, when building the item sequence raises: the first range
    that is kept is recorded, and nothing is sent. *)
Lemma shard_query_here_raise env sid s e (st : St) exn :
  initialized (mlist (self st)) = true ->
  items (mlist (self st)) = Raise exn ->
  s <= e ->
  shard_query_here env sid [(s, e)] st
  = (Raise exn, with_state (add_range sid (s, e) (state (self st))) st).
Proof.
  intros Hinit Hits Hle.
  apply wp_eq. unfold shard_query_here. wp_step.
  eapply wp_of_eq; [by apply init_check_initialized |]. cbv beta iota.
  wp_step. simpl shard_query_loop.
  replace (e - s <? 0) with false by (symmetry; apply Z.ltb_ge; lia).
  wp_step. eapply wp_of_eq; [apply state_add_run |]. cbv beta iota.
  wp_steps. simpl mlist. rewrite Hits. done.
Qed.

(** ** Subscriptions recorded by [shard_query] *)

Lemma state_lookup_cons sid k v st :
  state_lookup ((k, v) :: st) sid
  = if bool_decide (k = sid) then Some v else state_lookup st sid.
Proof. unfold state_lookup. simpl. by destruct (bool_decide (k = sid)). Qed.

Lemma state_lookup_set sid v st :
  state_lookup (state_set sid v st) sid
  = match state_lookup st sid with Some _ => Some v | None => None end.
Proof.
  induction st as [|[k w] st IH]; [done |].
  unfold state_set in *. simpl map. simpl fst.
  rewrite (state_lookup_cons sid k w).
  destruct (bool_decide (k = sid)) eqn:Hk.
  - rewrite state_lookup_cons. simpl. by rewrite Hk.
  - rewrite state_lookup_cons, Hk. apply IH.
Qed.

Lemma state_lookup_app_new sid st :
  state_lookup st sid = None ->
  state_lookup (st ++ [(sid, ∅)]) sid = Some ∅.
Proof.
  induction st as [|[k w] st IH]; simpl app.
  - intros _. rewrite state_lookup_cons. by rewrite bool_decide_eq_true_2.
  - rewrite !state_lookup_cons. by destruct (bool_decide (k = sid)).
Qed.

Lemma state_lookup_add_range sid range st :
  state_lookup (add_range sid range st) sid
  = Some ({[range]} ∪ default ∅ (state_lookup st sid)).
Proof.
  unfold add_range. destruct (state_lookup st sid) as [rs|] eqn:Hs.
  - by rewrite state_lookup_set, Hs.
  - rewrite state_lookup_set, (state_lookup_app_new _ _ Hs). done.
Qed.

Lemma add_ranges_keeps sid ranges st (x : Z * Z) rs :
  state_lookup st sid = Some rs -> x ∈ rs ->
  exists rs', state_lookup (add_ranges sid ranges st) sid = Some rs' /\ x ∈ rs'.
Proof.
  revert st rs. induction ranges as [|r ranges IH]; intros st rs Hs Hx.
  { exists rs. by unfold add_ranges. }
  rewrite add_ranges_cons. destruct (range_ok r); [| by eapply IH].
  eapply IH; [apply state_lookup_add_range |].
  rewrite Hs. simpl. set_solver.
Qed.

Lemma add_ranges_records sid ranges st (x : Z * Z) :
  x ∈ ranges -> range_ok x = true ->
  exists rs, state_lookup (add_ranges sid ranges st) sid = Some rs /\ x ∈ rs.
Proof.
  revert st. induction ranges as [|r ranges IH]; intros st Hin Hok.
  { by apply elem_of_nil in Hin. }
  rewrite add_ranges_cons. apply elem_of_cons in Hin as [<- | Hin].
  - rewrite Hok. eapply add_ranges_keeps; [apply state_lookup_add_range |].
    set_solver.
  - destruct (range_ok r); by apply IH.
Qed.

(** ** The list that answers a request *)

Lemma get_gml_there env channel (w : World) :
  is_Some (lists w !! channel) -> get_gml env channel w = (Ok channel, w).
Proof.
  intros [g Hg]. apply wp_eq. unfold get_gml. wp_steps. unfold id.
  rewrite Hg. wp_steps. done.
Qed.

Lemma shard_query_handled env (w : World) n channel target sid ranges fuel :
  handled_by env w n channel target ->
  (n < fuel)%nat ->
  shard_query env fuel channel sid ranges w
  = on_list target (shard_query_here env sid ranges) w.
Proof.
  intros H. revert fuel.
  induction H as [channel g Hg Hpass | n channel g target Hg Hpass Hthere _ IH];
    intros [|fuel] Hfuel; try lia.
  - apply wp_eq. simpl shard_query. wp_steps. unfold id. rewrite Hg, Hpass.
    apply wp_refl.
  - apply wp_eq. simpl shard_query. wp_steps. unfold id. rewrite Hg, Hpass.
    wp_step. eapply wp_of_eq; [by apply get_gml_there |]. cbv beta iota.
    unfold wp. rewrite IH by lia. by destruct (on_list _ _ _).
Qed.

Lemma on_list_run {A} channel (m : M St A) (w : World) g :
  lists w !! channel = Some g ->
  on_list channel m w
  = (fst (m (mkSt g (world_outside w))),
     mkWorld (<[channel := self (snd (m (mkSt g (world_outside w))))]> (lists w))
             (guild_map w)
             (outside (snd (m (mkSt g (world_outside w)))))).
Proof. intros Hg. unfold on_list. rewrite Hg. by destruct (m _). Qed.

Lemma passes_on_ids env g g' :
  guild_id g' = guild_id g -> channel_id g' = channel_id g ->
  passes_on env g' = passes_on env g.
Proof. unfold passes_on, list_id. by intros -> ->. Qed.

Lemma handled_by_update env (w w' : World) n channel target :
  handled_by env w n channel target ->
  (forall k g, lists w !! k = Some g ->
     exists g', lists w' !! k = Some g' /\ guild_id g' = guild_id g
                /\ channel_id g' = channel_id g) ->
  handled_by env w' n channel target.
Proof.
  intros H Hsame.
  induction H as [channel g Hg Hpass | n channel g target Hg Hpass Hthere _ IH].
  - destruct (Hsame _ _ Hg) as (g' & Hg' & Hgid & Hcid).
    eapply handled_here; [exact Hg' |]. by rewrite (passes_on_ids _ g g').
  - destruct (Hsame _ _ Hg) as (g' & Hg' & Hgid & Hcid).
    eapply handled_pass; [exact Hg' | by rewrite (passes_on_ids _ g g') | |].
    + rewrite Hgid. destruct Hthere as [e He].
      destruct (Hsame _ _ He) as (e' & -> & _). by eexists.
    + by rewrite Hgid.
Qed.

Lemma handled_by_after env (w : World) n channel target g g' o :
  handled_by env w n channel target ->
  lists w !! target = Some g ->
  guild_id g' = guild_id g -> channel_id g' = channel_id g ->
  handled_by env (mkWorld (<[target := g']> (lists w)) (guild_map w) o)
             n channel target.
Proof.
  intros H Hg Hgid Hcid. eapply handled_by_update; [exact H |].
  intros k g0 Hk. simpl. destruct (decide (target = k)) as [<- | Hne].
  - rewrite lookup_insert_eq. exists g'. rewrite Hg in Hk. injection Hk as <-. done.
  - rewrite lookup_insert_ne by done. by exists g0.
Qed.

(** X29. On an initialized list whose item sequence is defined, a range with
    [end - start >= 0] is recorded for the session whatever the length of
    the item sequence, and a range that starts at or past the end of the
    sequence is answered by a [SYNC] with no items. The
    request is followed to the list that answers it; [fuel] only has to
    exceed the number of lists it passes through. *)
Theorem shard_query_records_range_past_the_end env (w : World) n channel target
    g its session_id ranges (start end_ : Z) (fuel : nat) :
  handled_by env w n channel target ->
  (n < fuel)%nat ->
  lists w !! target = Some g ->
  initialized (mlist g) = true ->
  items (mlist g) = Ok its ->
  (start, end_) ∈ ranges ->
  0 <= end_ - start ->
  exists w' g' recorded,
    shard_query env fuel channel session_id ranges w = (Ok tt, w')
    /\ lists w' !! target = Some g'
    /\ mlist g' = mlist g
    /\ state_lookup (state g') session_id = Some recorded
    /\ (start, end_) ∈ recorded
    /\ (len its <= start ->
        forall s, fetch_raw env session_id = Some s ->
        exists p,
          sent (world_outside w')
          = sent (world_outside w) ++ [mkDispatched s "GUILD_MEMBER_LIST_UPDATE" p]
          /\ mkOpDict "SYNC" (Some []) (Some (start, end_)) None None
             ∈ payload_ops p).
Proof.
  intros Hby Hfuel Hg Hinit Hits Hin Hle.
  rewrite (shard_query_handled _ _ _ _ _ _ _ _ Hby Hfuel), (on_list_run _ _ _ _ Hg).
  destruct (shard_query_here_ok env session_id ranges (mkSt g (world_outside w))
              its Hinit Hits) as (gc & Hgc & ->).
  assert (Hok : range_ok (start, end_) = true).
  { unfold range_ok. simpl. apply negb_true_iff, Z.ltb_ge. lia. }
  destruct (add_ranges_records session_id ranges (state g) _ Hin Hok)
    as (recorded & Hrec & Hin').
  eexists _, _, recorded. split; [reflexivity |]. simpl.
  split; [apply lookup_insert_eq |]. split; [done |]. split; [exact Hrec |].
  split; [exact Hin' |].
  intros Hlen s Hs. rewrite Hs. simpl. eexists. split; [reflexivity |].
  simpl. apply list_elem_of_fmap. exists (start, end_). split.
  - simpl. rewrite py_slice_past_the_end by lia. done.
  - apply list_elem_of_In, filter_In. split; [by apply list_elem_of_In | done].
Qed.

(** Session ['s2'] asks the list of channel [2] for [(7, 9)] and for the
    ill-formed [(3, 1)]; the list of channel [1], which has four items,
    answers. *)
Lemma shard_query_records_range_past_the_end_witness :
  exists w' g' recorded,
    shard_query ex_env 2 2 "s2" [(7, 9); (3, 1)] ex_world_two = (Ok tt, w')
    /\ lists w' !! 1 = Some g'
    /\ mlist g' = ex_list
    /\ state_lookup (state g') "s2" = Some recorded
    /\ (7, 9) ∈ recorded
    /\ (len ex_items <= 7 ->
        forall s, fetch_raw ex_env "s2" = Some s ->
        exists p,
          sent (world_outside w')
          = sent (world_outside ex_world_two)
            ++ [mkDispatched s "GUILD_MEMBER_LIST_UPDATE" p]
          /\ mkOpDict "SYNC" (Some []) (Some (7, 9)) None None ∈ payload_ops p).
Proof.
  apply (shard_query_records_range_past_the_end ex_env ex_world_two 1 2 1
           ex_gml ex_items "s2" [(7, 9); (3, 1)] 7 9 2).
  - apply (handled_pass ex_env ex_world_two 0 2 (mkGML 1 2 MemberList_new []) 1);
      [reflexivity | reflexivity | by eexists |].
    apply (handled_here ex_env ex_world_two 1 ex_gml); reflexivity.
  - lia.
  - reflexivity.
  - reflexivity.
  - vm_compute. reflexivity.
  - apply elem_of_cons. by left.
  - lia.
Defined.

(** X28. Two [shard_query] calls in a row for the same session and the
    same range [(s, e)], [s <= e], on an initialized list: the second call
    ends as the first did and sends what the first sent, and the list is
    the same after the first call as before it. When the item sequence is
    defined and the session is known, that is one payload with the one
    [SYNC] of the range. *)
Theorem shard_query_twice_same_payload env (w : World) n channel target g
    session_id (s e : Z) (fuel fuel' : nat) :
  handled_by env w n channel target ->
  (n < fuel)%nat -> (n < fuel')%nat ->
  lists w !! target = Some g ->
  initialized (mlist g) = true ->
  s <= e ->
  let first := shard_query env fuel channel session_id [(s, e)] w in
  let second := shard_query env fuel' channel session_id [(s, e)] (snd first) in
  fst second = fst first
  /\ (mlist <$> lists (snd first) !! target) = Some (mlist g)
  /\ exists delta,
       sent (world_outside (snd first)) = sent (world_outside w) ++ delta
       /\ sent (world_outside (snd second))
          = sent (world_outside (snd first)) ++ delta
       /\ (forall its sid,
             items (mlist g) = Ok its -> fetch_raw env session_id = Some sid ->
             fst first = Ok tt
             /\ exists p,
                  delta = [mkDispatched sid "GUILD_MEMBER_LIST_UPDATE" p]
                  /\ payload_ops p
                     = [mkOpDict "SYNC" (Some (py_slice its s e)) (Some (s, e))
                                 None None]).
Proof.
  intros Hby Hfuel Hfuel' Hg Hinit Hle first second.
  assert (Hok : range_ok (s, e) = true).
  { unfold range_ok. simpl. apply negb_true_iff, Z.ltb_ge. lia. }
  subst second first.
  rewrite (shard_query_handled _ _ _ _ _ _ _ _ Hby Hfuel), (on_list_run _ _ _ _ Hg).
  destruct (items (mlist g)) as [its|exn] eqn:Hits.
  - destruct (shard_query_here_ok env session_id [(s, e)]
                (mkSt g (world_outside w)) its Hinit Hits) as (gc & Hgc & ->).
    cbn [fst snd].
    match goal with |- context [shard_query env fuel' channel session_id _ ?w1] =>
      set (w' := w1) end.
    assert (Hby' : handled_by env w' n channel target).
    { by apply (handled_by_after env w n channel target g). }
    assert (Hg' : lists w' !! target
                  = Some (set_state (add_ranges session_id [(s, e)] (state g)) g)).
    { apply lookup_insert_eq. }
    rewrite (shard_query_handled _ _ _ _ _ _ _ _ Hby' Hfuel'),
      (on_list_run _ _ _ _ Hg').
    destruct (shard_query_here_ok env session_id [(s, e)]
                (mkSt (set_state (add_ranges session_id [(s, e)] (state g)) g)
                      (world_outside w')) its Hinit Hits) as (gc' & Hgc' & ->).
    simpl in Hgc, Hgc'. rewrite Hgc in Hgc'. injection Hgc' as <-.
    cbn [fst snd]. split; [done |]. split; [by rewrite Hg' |].
    eexists. split; [reflexivity |]. split; [reflexivity |].
    intros its' sid Hits' Hsid. injection Hits' as <-. split; [done |].
    simpl omap. rewrite Hsid. simpl. eexists. split; [reflexivity |].
    simpl. by rewrite Hok.
  - rewrite (shard_query_here_raise env session_id s e (mkSt g (world_outside w))
               exn Hinit Hits Hle).
    cbn [fst snd].
    match goal with |- context [shard_query env fuel' channel session_id _ ?w1] =>
      set (w' := w1) end.
    assert (Hby' : handled_by env w' n channel target).
    { by apply (handled_by_after env w n channel target g). }
    assert (Hg' : lists w' !! target
                  = Some (set_state (add_range session_id (s, e) (state g)) g)).
    { apply lookup_insert_eq. }
    rewrite (shard_query_handled _ _ _ _ _ _ _ _ Hby' Hfuel'),
      (on_list_run _ _ _ _ Hg').
    rewrite (shard_query_here_raise env session_id s e
               (mkSt (set_state (add_range session_id (s, e) (state g)) g)
                     (world_outside w')) exn Hinit Hits Hle).
    cbn [fst snd]. split; [done |]. split; [by rewrite Hg' |].
    exists []. simpl. rewrite !app_nil_r. split; [done |]. split; [done |].
    intros its sid Hits'. discriminate.
Qed.

Lemma shard_query_twice_same_payload_witness :
  let first := shard_query ex_env 1 1 "s1" [(0, 3)] ex_world in
  let second := shard_query ex_env 1 1 "s1" [(0, 3)] (snd first) in
  fst second = fst first
  /\ (mlist <$> lists (snd first) !! 1) = Some ex_list
  /\ exists delta,
       sent (world_outside (snd first)) = sent (world_outside ex_world) ++ delta
       /\ sent (world_outside (snd second))
          = sent (world_outside (snd first)) ++ delta
       /\ (forall its sid,
             items ex_list = Ok its -> fetch_raw ex_env "s1" = Some sid ->
             fst first = Ok tt
             /\ exists p,
                  delta = [mkDispatched sid "GUILD_MEMBER_LIST_UPDATE" p]
                  /\ payload_ops p
                     = [mkOpDict "SYNC" (Some (py_slice its 0 3)) (Some (0, 3))
                                 None None]).
Proof.
  apply (shard_query_twice_same_payload ex_env ex_world 0 1 1 ex_gml "s1" 0 3 1 1).
  - apply (handled_here ex_env ex_world 1 ex_gml); reflexivity.
  - lia.
  - lia.
  - reflexivity.
  - reflexivity.
  - lia.
Defined.

(** * Further properties *)

(** ** Sorting, and the groups [set_groups] stores *)

Section StableSortFacts.
Context {A : Type} (before : A -> A -> bool).

Lemma sort_insert_perm x l : sort_insert before x l ≡ₚ x :: l.
Proof.
  induction l as [|y l IH]; [done |]. simpl.
  destruct (before y x); [| done].
  rewrite IH. apply Permutation_swap.
Qed.

Lemma stable_sort_perm l : stable_sort before l ≡ₚ l.
Proof.
  induction l as [|x l IH]; [done |]. unfold stable_sort in *. simpl.
  by rewrite sort_insert_perm, IH.
Qed.

Hypothesis before_asym : forall x y, before x y = true -> before y x = false.

Lemma sort_insert_sorted x l :
  Sorted (in_order before) l -> Sorted (in_order before) (sort_insert before x l).
Proof.
  induction l as [|y l IH]; intros Hs; simpl.
  { repeat constructor. }
  destruct (before y x) eqn:Hyx.
  - inversion Hs as [|? ? Hl Hhd]; subst. constructor; [by apply IH |].
    destruct l as [|z l]; simpl.
    + constructor. by apply before_asym.
    + destruct (before z x).
      * constructor. by inversion Hhd.
      * constructor. by apply before_asym.
  - constructor; [done |]. constructor. exact Hyx.
Qed.

Lemma stable_sort_sorted l : Sorted (in_order before) (stable_sort before l).
Proof.
  induction l as [|x l IH]; [constructor |].
  unfold stable_sort in *. simpl. by apply sort_insert_sorted.
Qed.

End StableSortFacts.

Lemma position_ge_trans : Transitive position_ge.
Proof. unfold position_ge. intros x y z ? ?. lia. Qed.

Lemma Sorted_weaken {A} (R R' : relation A) l :
  (forall x y, R x y -> R' x y) -> Sorted R l -> Sorted R' l.
Proof.
  intros HR. induction 1 as [|x l _ IH Hhd]; constructor; [done |].
  destruct Hhd; constructor. by apply HR.
Qed.

Lemma sorted_by_position l :
  StronglySorted position_ge (stable_sort by_position_desc l).
Proof.
  apply Sorted_StronglySorted; [apply position_ge_trans |].
  eapply Sorted_weaken; [| apply (stable_sort_sorted by_position_desc)].
  - unfold in_order, by_position_desc, position_ge. intros x y H.
    apply Z.ltb_ge in H. lia.
  - unfold by_position_desc. intros x y H. apply Z.ltb_lt in H.
    apply Z.ltb_ge. lia.
Qed.

Lemma StronglySorted_omap {A B} (R : relation A) (R' : relation B)
    (f : A -> option B) l :
  (forall x y x' y', R x y -> f x = Some x' -> f y = Some y' -> R' x' y') ->
  StronglySorted R l -> StronglySorted R' (omap f l).
Proof.
  intros Hf. induction 1 as [|x l _ IH Hall]; simpl; [constructor |].
  destruct (f x) as [x'|] eqn:Hx; [| done].
  constructor; [done |].
  apply Forall_forall. intros y' Hy'. apply list_elem_of_omap in Hy' as (y & Hy & Hfy).
  rewrite Forall_forall in Hall. eauto.
Qed.

Lemma filter_can_read env l gs :
  map fst (filter (fun gb => snd gb = true) (map (_can_read_chan env l) gs))
  = omap (readable_group env l) gs.
Proof.
  induction gs as [|g gs IH]; [done |]. simpl.
  unfold readable_group at 1. destruct (_can_read_chan env l g) as [g' b] eqn:Hg.
  destruct b.
  - rewrite filter_cons_True by done. simpl. by rewrite IH.
  - rewrite filter_cons_False by done. by rewrite IH.
Qed.

(** X1. [set_groups] never raises: it stores the channel's overwrites and
    sets the groups to the role groups followed by ['online'] and
    ['offline']. The role groups are sorted by position descending, and
    they are the hoisted rows of the roles table that can read the channel
    once their permissions are mixed with the overwrites; each carries the
    mixed permissions. *)
Theorem set_groups_result env (st : St) :
  exists role_groups,
    set_groups env st
    = (Ok tt,
       mkSt (set_mlist
               (set_groups_of (role_groups ++ synthetic_groups)
                  (set_overwrites (fetched_overwrites env (channel_id (self st)))
                     (mlist (self st))))
               (self st))
            (outside st))
    /\ StronglySorted position_ge role_groups
    /\ forall g,
         g ∈ role_groups <->
         exists row,
           row ∈ fetch_roles env (guild_id (self st))
           /\ role_hoist row = true
           /\ g = mkGroupInfo (GRole (role_id row)) (role_name row)
                    (role_position row)
                    (overwrite_find_mix env (role_perms row)
                       (fetched_overwrites env (channel_id (self st)))
                       (GRole (role_id row)))
           /\ read_messages env (permissions g) = true.
Proof.
  set (l1 := set_overwrites (fetched_overwrites env (channel_id (self st)))
               (mlist (self st))).
  set (hoisted := stable_sort by_position_desc
                    (map group_of_row
                       (filter (fun row => role_hoist row = true)
                               (fetch_roles env (guild_id (self st)))))).
  exists (omap (readable_group env l1) hoisted). split; [| split].
  - apply wp_eq. unfold set_groups, get_role_groups, _fetch_overwrites.
    wp_steps. rewrite filter_can_read. reflexivity.
  - eapply StronglySorted_omap; [| apply sorted_by_position].
    unfold readable_group, _can_read_chan, position_ge.
    intros x y x' y' Hxy Hx Hy.
    destruct (read_messages env _) in Hx; [| done].
    destruct (read_messages env _) in Hy; [| done].
    injection Hx as <-. injection Hy as <-. done.
  - intros g. rewrite list_elem_of_omap. split.
    + intros (g0 & Hg0 & Hread). subst hoisted.
      rewrite stable_sort_perm in Hg0.
      apply list_elem_of_fmap in Hg0 as (row & -> & Hrow).
      apply list_elem_of_filter in Hrow as [Hhoist Hrow].
      exists row. unfold readable_group, _can_read_chan in Hread. simpl in Hread.
      destruct (read_messages env _) eqn:Hr; [| done]. injection Hread as <-.
      repeat split; done.
    + intros (row & Hrow & Hhoist & -> & Hread). exists (group_of_row row). split.
      * subst hoisted. rewrite stable_sort_perm. apply list_elem_of_fmap.
        exists row. split; [done |]. by apply list_elem_of_filter.
      * unfold readable_group, _can_read_chan. simpl. simpl in Hread.
        by rewrite Hread.
Qed.

(** ** Sorting by display name *)

Lemma res_mapM_length {A B} (f : A -> Res B) l ys :
  res_mapM f l = Ok ys -> length ys = length l.
Proof.
  revert ys. induction l as [|x l IH]; simpl; intros ys H.
  - by injection H as <-.
  - apply res_bind_ok in H as (y & _ & H).
    apply res_bind_ok in H as (ys' & Hys & H). injection H as <-.
    simpl. by rewrite (IH _ Hys).
Qed.

Lemma res_mapM_Forall2 {A B} (f : A -> Res B) l ys :
  res_mapM f l = Ok ys -> Forall2 (fun x y => f x = Ok y) l ys.
Proof.
  revert ys. induction l as [|x l IH]; simpl; intros ys H.
  - injection H as <-. constructor.
  - apply res_bind_ok in H as (y & Hy & H).
    apply res_bind_ok in H as (ys' & Hys & H). injection H as <-.
    constructor; [done | by apply IH].
Qed.

Lemma res_mapM_ok {A B} (f : A -> Res B) l :
  Forall (fun x => exists y, f x = Ok y) l -> exists ys, res_mapM f l = Ok ys.
Proof.
  induction 1 as [|x l [y Hy] _ [ys IH]]; simpl; [by eexists |].
  rewrite Hy, IH. simpl. by eexists.
Qed.

Lemma sort_by_display_name_perm l ids sorted :
  sort_by_display_name l ids = Ok sorted -> sorted ≡ₚ ids.
Proof.
  unfold sort_by_display_name. intros H.
  apply res_bind_ok in H as (keys & Hkeys & H).
  cbv beta in H.
  match type of H with (if ?c then _ else _) = _ => destruct c end;
    [discriminate |].
  injection H as <-.
  rewrite stable_sort_perm. apply res_mapM_length in Hkeys.
  change (map snd (zip keys ids)) with ((zip keys ids).*2).
  rewrite snd_zip by lia. done.
Qed.

Lemma key_before_asym x y : key_before x y = true -> key_before y x = false.
Proof.
  unfold key_before. destruct (fst x) as [a|], (fst y) as [b|]; try done.
  unfold String.ltb. rewrite (String.compare_antisym a b).
  by destruct (String.compare b a).
Qed.

Lemma Sorted_fmap_on {A B} (P : A -> Prop) (R : relation A) (R' : relation B)
    (f : A -> B) l :
  (forall x y, P x -> P y -> R x y -> R' (f x) (f y)) ->
  Forall P l -> Sorted R l -> Sorted R' (map f l).
Proof.
  intros Hf HP Hs. induction Hs as [|x l _ IH Hhd]; simpl; [constructor |].
  inversion HP; subst. constructor; [by apply IH |].
  destruct Hhd as [|y l' Hxy]; simpl; constructor.
  inversion H2; subst. by apply Hf.
Qed.

Lemma display_name_named l id :
  id <> 0 -> is_Some (mjoin (members l !! id)) ->
  exists key, display_name l id = Ok (Some key).
Proof.
  intros Hid [m Hm]. unfold display_name. rewrite Hm.
  rewrite (proj2 (Z.eqb_neq id 0) Hid). by eexists.
Qed.

Lemma sort_by_display_name_ok l ids :
  named l ids ->
  exists sorted,
    sort_by_display_name l ids = Ok sorted
    /\ sorted ≡ₚ ids
    /\ Sorted (name_order l) sorted.
Proof.
  intros Hnamed. unfold sort_by_display_name.
  destruct (res_mapM_ok (display_name l) ids) as [keys Hkeys].
  { eapply Forall_impl; [exact Hnamed |]. intros id [Hid Hm].
    destruct (display_name_named l id Hid Hm) as [key Hkey]. by eexists. }
  rewrite Hkeys. simpl.
  pose proof (res_mapM_Forall2 _ _ _ Hkeys) as Hall.
  pose proof (res_mapM_length _ _ _ Hkeys) as Hlen.
  assert (Hsome : Forall (fun k => is_Some k) keys).
  { clear Hlen Hkeys. induction Hall as [|id k ids keys Hk _ IH]; [constructor |].
    inversion Hnamed as [|? ? [Hid Hm] Hrest]; subst.
    constructor; [| by apply IH].
    destruct (display_name_named l id Hid Hm) as [key Hkey].
    rewrite Hkey in Hk. injection Hk as <-. by eexists. }
  assert (Hno : existsb (fun k : option string => negb (bool_decide (is_Some k))) keys = false).
  { clear -Hsome. induction Hsome as [|k keys Hk _ IH]; [done |]. simpl.
    by rewrite (bool_decide_eq_true_2 _ Hk), IH. }
  rewrite Hno, andb_false_r. eexists. split; [reflexivity |]. split.
  - rewrite stable_sort_perm.
    change (map snd (zip keys ids)) with ((zip keys ids).*2).
    by rewrite snd_zip by lia.
  - eapply (Sorted_fmap_on (fun p => display_name l (snd p) = Ok (fst p)));
      [| | apply (stable_sort_sorted key_before), key_before_asym].
    + intros [ka a] [kb b] Ha Hb Hab ka' kb' Ha' Hb'. simpl in *.
      rewrite Ha in Ha'. rewrite Hb in Hb'.
      injection Ha' as ->. injection Hb' as ->.
      exact Hab.
    + apply Forall_forall. intros [k id] Hin.
      rewrite stable_sort_perm in Hin. simpl.
      clear -Hall Hin. induction Hall as [|x y xs ys Hxy _ IH].
      * by apply elem_of_nil in Hin.
      * simpl in Hin. apply elem_of_cons in Hin as [[= -> ->] | Hin]; [done |].
        by apply IH.
Qed.

(** ** [_sort_groups] *)

Lemma wp_for_each {S A} (l : list A) (body : A -> M S unit)
    (I : list A -> S -> Prop) (J : S -> Prop) s :
  I l s ->
  (forall x rest s', I (x :: rest) s' ->
     wp (body x) (fun r s'' => match r with
                               | Ok _ => I rest s''
                               | Raise _ => J s''
                               end) s') ->
  wp (for_each l body) (fun r s' => match r with
                                    | Ok _ => I [] s'
                                    | Raise _ => J s'
                                    end) s.
Proof.
  intros HI Hbody. revert s HI.
  induction l as [|x l IH]; intros s HI; simpl; [by apply wp_ret |].
  apply wp_bind. eapply wp_mono; [apply (Hbody _ _ _ HI) |].
  intros [[]|e] s' H; [by apply IH | done].
Qed.

Lemma with_data_id st : with_data (data (mlist (self st))) st = st.
Proof. by destruct st as [[? ? [] ?] ?]. Qed.

Lemma same_members_refl d : same_members d d.
Proof. intros k. by destruct (d !! k); constructor. Qed.

Lemma same_members_insert d d' k ids sorted :
  same_members d d' -> d !! k = Some ids -> sorted ≡ₚ ids ->
  same_members d (<[k := sorted]> d').
Proof.
  intros Hd Hk Hs k'. destruct (decide (k' = k)) as [->|Hne].
  - rewrite lookup_insert_eq, Hk. by constructor.
  - rewrite lookup_insert_ne by done. apply Hd.
Qed.

Lemma display_name_members l l' id :
  members l' = members l -> display_name l' id = display_name l id.
Proof. unfold display_name. by intros ->. Qed.

Lemma sort_by_display_name_members l l' ids :
  members l' = members l ->
  sort_by_display_name l' ids = sort_by_display_name l ids.
Proof.
  intros H. unfold sort_by_display_name.
  replace (res_mapM (display_name l') ids) with (res_mapM (display_name l) ids);
    [done |].
  induction ids as [|id ids IH]; simpl; [done |].
  by rewrite IH, (display_name_members l l' id H).
Qed.

Lemma sort_groups_reorders (st : St) :
  exists d',
    snd (_sort_groups st) = with_data d' st
    /\ same_members (data (mlist (self st))) d'.
Proof.
  unfold _sort_groups.
  set (d := data (mlist (self st))).
  set (Q := fun s' : St => exists d', s' = with_data d' st /\ same_members d d').
  assert (Hwp : wp (for_each (map_to_list d) sort_entry)
                   (fun r s' => match r with Ok _ => Q s' | Raise _ => Q s' end) st).
  { eapply wp_mono;
      [apply (wp_for_each _ _
                (fun rest s' => Q s' /\ forall e, e ∈ rest -> d !! fst e = Some (snd e))
                Q)
      | by intros [[]|e] s' H; [destruct H |] ].
    - split.
      + exists d. split; [symmetry; apply with_data_id | apply same_members_refl].
      + intros [k ids] Hin. by apply elem_of_map_to_list in Hin.
    - intros [k ids] rest s' [(d' & -> & Hd') Hrest].
      unfold sort_entry. wp_steps. simpl.
      rewrite (sort_by_display_name_members (mlist (self st))) by done.
      destruct (sort_by_display_name (mlist (self st)) ids) as [sorted|e] eqn:Hsort.
      + apply wp_modify. split.
        * exists (<[k := sorted]> d'). split; [done |].
          apply (same_members_insert _ _ _ ids); [done | |].
          -- apply (Hrest (k, ids)). by left.
          -- by apply sort_by_display_name_perm in Hsort.
        * intros e He. apply Hrest. by right.
      + by exists d'. }
  unfold wp in Hwp. unfold bind, get_list, gets. simpl. fold d.
  by destruct (for_each (map_to_list d) sort_entry st) as [[[]|e] s'].
Qed.

(** X2. [_sort_groups] only reorders: whether it returns or raises, the list
    has afterwards the same keys in [data] and, under each key, the same
    member ids up to their order; nothing else of the state changes. *)
Theorem sort_groups_only_reorders (st : St) :
  exists d',
    snd (_sort_groups st) = with_data d' st
    /\ same_members (data (mlist (self st))) d'.
Proof. apply sort_groups_reorders. Qed.

Lemma sort_groups_sorts (st : St) :
  map_Forall (fun _ ids => named (mlist (self st)) ids) (data (mlist (self st))) ->
  exists d',
    _sort_groups st = (Ok tt, with_data d' st)
    /\ same_members (data (mlist (self st))) d'
    /\ forall k ids, d' !! k = Some ids ->
                     Sorted (name_order (mlist (self st))) ids.
Proof.
  intros Hnamed. unfold _sort_groups.
  set (d := data (mlist (self st))).
  set (l := mlist (self st)).
  set (I := fun (rest : list (GroupID * list Z)) (s' : St) =>
              exists d', s' = with_data d' st /\ same_members d d'
                /\ (forall e, e ∈ rest -> d !! fst e = Some (snd e))
                /\ forall k ids, d' !! k = Some ids ->
                     (forall e, e ∈ rest -> fst e <> k) ->
                     Sorted (name_order l) ids).
  assert (Hwp : wp (for_each (map_to_list d) sort_entry)
                   (fun r s' => match r with Ok _ => I [] s' | Raise _ => False end) st).
  { apply (wp_for_each _ _ I).
    - exists d. split; [symmetry; apply with_data_id |].
      split; [apply same_members_refl |]. split.
      + intros [k ids] Hin. by apply elem_of_map_to_list in Hin.
      + intros k ids Hk Hnot. exfalso. apply (Hnot (k, ids)); [| done].
        by apply elem_of_map_to_list.
    - intros [k ids] rest s' (d' & -> & Hd' & Hrest & Hsorted).
      unfold sort_entry. wp_steps. simpl.
      rewrite (sort_by_display_name_members l) by done.
      pose proof (Hrest (k, ids) ltac:(by left)) as Hk. simpl in Hk.
      destruct (sort_by_display_name_ok l ids (Hnamed _ _ Hk))
        as (sorted & -> & Hperm & Hs).
      apply wp_modify. exists (<[k := sorted]> d'). split; [done |].
      split; [by apply (same_members_insert _ _ _ ids) |]. split.
      + intros e He. apply Hrest. by right.
      + intros k' ids' Hk'' Hnot. destruct (decide (k' = k)) as [->|Hne].
        * rewrite lookup_insert_eq in Hk''. by injection Hk'' as <-.
        * rewrite lookup_insert_ne in Hk'' by done.
          apply (Hsorted _ _ Hk''). intros e [->|He]%elem_of_cons; [done |].
          by apply Hnot. }
  unfold wp in Hwp. unfold bind, get_list, gets. simpl. fold d.
  destruct (for_each (map_to_list d) sort_entry st) as [[[]|e] s']; [| done].
  simpl in Hwp. destruct Hwp as (d' & -> & Hd' & _ & Hs). exists d'. split; [done |].
  split; [done |]. intros k ids Hk. apply (Hs _ _ Hk). intros e He.
  by apply elem_of_nil in He.
Qed.

(** X3. When every member id in [data] has a display name, [_sort_groups]
    returns, and every list of [data] is then sorted by display name. *)
Theorem sort_groups_sorts_by_display_name (st : St) :
  map_Forall (fun _ ids => named (mlist (self st)) ids) (data (mlist (self st))) ->
  exists d',
    _sort_groups st = (Ok tt, with_data d' st)
    /\ same_members (data (mlist (self st))) d'
    /\ forall k ids, d' !! k = Some ids ->
                     Sorted (name_order (mlist (self st))) ids.
Proof. apply sort_groups_sorts. Qed.

(** The three members are put in the order Bobby, alice, carol: capitals
    come first in the order of code points. *)
Example sort_groups_crowd :
  fst (_sort_groups ex_st_crowd) = Ok tt
  /\ data (mlist (self (snd (_sort_groups ex_st_crowd)))) !! online
     = Some [20; 10; 30].
Proof. vm_compute. split; reflexivity. Qed.

Lemma sort_groups_sorts_by_display_name_witness :
  exists d',
    _sort_groups ex_st_crowd = (Ok tt, with_data d' ex_st_crowd)
    /\ same_members (data ex_list_crowd) d'
    /\ forall k ids, d' !! k = Some ids -> Sorted (name_order ex_list_crowd) ids.
Proof.
  apply (sort_groups_sorts_by_display_name ex_st_crowd).
  apply map_Forall_to_list. vm_compute.
  repeat constructor; try discriminate; by eexists.
Defined.

(** ** Item indexes and the item sequence *)

Lemma py_index_lookup x l r :
  py_index x l = Some r -> 0 <= r /\ l !! Z.to_nat r = Some x.
Proof.
  revert r. induction l as [|y l IH]; simpl; intros r H; [done |].
  case_bool_decide as Hy.
  - injection H as <-. by subst.
  - destruct (py_index x l) as [r'|]; [| done]. injection H as <-.
    destruct (IH r' eq_refl) as [Hr Hl]. split; [lia |].
    replace (Z.to_nat (Z.succ r')) with (S (Z.to_nat r')) by lia. done.
Qed.

Lemma res_mapM_lookup {A B} (f : A -> Res B) l ys n x :
  res_mapM f l = Ok ys -> l !! n = Some x ->
  exists y, f x = Ok y /\ ys !! n = Some y.
Proof.
  intros H%res_mapM_Forall2 Hx.
  destruct (Forall2_lookup_l _ _ _ _ _ H Hx) as (y & Hy & Hf). eauto.
Qed.

Lemma py_getitem_lookup {A} (l : list A) i x :
  0 <= i -> l !! Z.to_nat i = Some x -> py_getitem l i = Ok x.
Proof.
  intros Hi Hx. unfold py_getitem.
  destruct (i <? 0) eqn:Hlt; [lia |]. rewrite Hlt. by rewrite Hx.
Qed.

(** Where the loop of [get_item_index], started at [1 + base], finds the
    user, the items of the same groups have the user's item, [base] items
    further on. *)
Lemma get_item_index_loop_items l user gs : forall base its i,
  data l !! offline <> Some [] ->
  items_loop l gs = Ok its ->
  get_item_index_loop l user (1 + base) gs = Ok (Some i) ->
  exists item,
    get_member_as_item l user = Ok item
    /\ base < i
    /\ its !! Z.to_nat (i - base) = Some item.
Proof.
  induction gs as [|group gs IH]; intros base its i Hoff Hits Hidx;
    simpl in *; [done |].
  destruct (getitem (data l) (gid group)) as [ids|e] eqn:Hids; [| done].
  simpl in *. destruct ids as [|id ids].
  - (* an empty group *)
    case_bool_decide as Hg; simpl in Hidx.
    + apply getitem_ok in Hids. by rewrite Hg in Hids.
    + by apply (IH base its i).
  - rewrite orb_true_r in Hidx.
    apply res_bind_ok in Hits as (ms & Hms & Hits).
    apply res_bind_ok in Hits as (tail & Htail & Hits). injection Hits as <-.
    pose proof (res_mapM_length _ _ _ Hms) as Hlen.
    destruct (py_index user (id :: ids)) as [rel|] eqn:Hrel.
    + injection Hidx as <-.
      apply py_index_lookup in Hrel as [Hrel Hlook].
      destruct (res_mapM_lookup _ _ _ _ _ Hms Hlook) as (item & Hitem & Hms').
      exists item. split; [done |]. split; [lia |].
      replace (Z.to_nat (1 + base + rel - base)) with (S (Z.to_nat rel)) by lia.
      simpl. by apply lookup_app_l_Some.
    + replace (1 + base + (1 + len (id :: ids)))
        with (1 + (base + 1 + len (id :: ids))) in Hidx by lia.
      destruct (IH _ _ _ Hoff Htail Hidx) as (item & Hitem & Hlt & Hlook).
      exists item. split; [done |]. unfold len in *. split; [lia |].
      replace (Z.to_nat (i - base))
        with (S (length ms
                 + Z.to_nat (i - (base + 1 + Z.of_nat (length (id :: ids))))))
        by lia.
      simpl. by rewrite lookup_app_r, Nat.add_comm, Nat.add_sub by lia.
Qed.

(** X4. [get_item_index] and [items] agree: on an initialized list whose
    offline group is not empty, the index found for a user is the place of
    that user's own item in the item sequence. *)
Theorem get_item_index_is_place_in_items (l : MemberList) (user i : Z)
    (its : list Item) :
  initialized l = true ->
  data l !! offline <> Some [] ->
  items l = Ok its ->
  get_item_index l user = Ok (Some i) ->
  exists item,
    get_member_as_item l user = Ok item /\ py_getitem its i = Ok item.
Proof.
  intros Hinit Hoff Hits Hidx. unfold items in Hits. rewrite Hinit in Hits.
  simpl in Hits. unfold get_item_index in Hidx.
  destruct (get_item_index_loop_items l user (groups l) 0 its i Hoff Hits Hidx)
    as (item & Hitem & Hlt & Hlook).
  exists item. split; [done |]. apply py_getitem_lookup; [lia |].
  by rewrite Z.sub_0_r in Hlook.
Qed.

Lemma get_group_item_index_loop_items l group_id gs : forall base its i,
  data l !! offline <> Some [] ->
  items_loop l gs = Ok its ->
  get_group_item_index_loop l group_id base gs = Ok (Some i) ->
  exists ids,
    data l !! group_id = Some ids
    /\ base <= i
    /\ its !! Z.to_nat (i - base) = Some (GroupItem (str_gid group_id) (len ids)).
Proof.
  induction gs as [|group gs IH]; intros base its i Hoff Hits Hidx;
    simpl in *; [done |].
  destruct (getitem (data l) (gid group)) as [ids|e] eqn:Hids; [| done].
  simpl in *. destruct ids as [|id ids].
  - case_bool_decide as Hg; simpl in Hidx.
    + apply getitem_ok in Hids. by rewrite Hg in Hids.
    + by apply (IH base its i).
  - rewrite orb_true_r in Hidx.
    apply res_bind_ok in Hits as (ms & Hms & Hits).
    apply res_bind_ok in Hits as (tail & Htail & Hits). injection Hits as <-.
    pose proof (res_mapM_length _ _ _ Hms) as Hlen.
    case_bool_decide as Hg.
    + injection Hidx as <-. subst group_id. exists (id :: ids).
      apply getitem_ok in Hids. split; [done |]. split; [lia |].
      by rewrite Z.sub_diag.
    + destruct (IH _ _ _ Hoff Htail Hidx) as (ids' & Hids' & Hle & Hlook).
      exists ids'. split; [done |]. unfold len in *. split; [lia |].
      replace (Z.to_nat (i - base))
        with (S (length ms
                 + Z.to_nat (i - (base + (1 + Z.of_nat (length (id :: ids)))))))
        by lia.
      simpl. by rewrite lookup_app_r, Nat.add_comm, Nat.add_sub by lia.
Qed.

(** X5. [get_group_item_index] and [items] agree: on an initialized list whose
    offline group is not empty, the index found for a group is the place of
    that group's header in the item sequence, and the header carries the
    group's member count. *)
Theorem get_group_item_index_is_place_in_items (l : MemberList)
    (group_id : GroupID) (i : Z) (its : list Item) :
  initialized l = true ->
  data l !! offline <> Some [] ->
  items l = Ok its ->
  get_group_item_index l group_id = Ok (Some i) ->
  exists ids,
    data l !! group_id = Some ids
    /\ py_getitem its i = Ok (GroupItem (str_gid group_id) (len ids)).
Proof.
  intros Hinit Hoff Hits Hidx. unfold items in Hits. rewrite Hinit in Hits.
  simpl in Hits. unfold get_group_item_index in Hidx.
  destruct (get_group_item_index_loop_items l group_id (groups l) 0 its i
              Hoff Hits Hidx) as (ids & Hids & Hle & Hlook).
  exists ids. split; [done |]. apply py_getitem_lookup; [lia |].
  by rewrite Z.sub_0_r in Hlook.
Qed.

Lemma get_item_index_is_place_in_items_witness :
  exists item,
    get_member_as_item ex_list 20 = Ok item /\ py_getitem ex_items 3 = Ok item.
Proof.
  apply (get_item_index_is_place_in_items ex_list 20 3 ex_items).
  - vm_compute. reflexivity.
  - vm_compute. discriminate.
  - vm_compute. reflexivity.
  - vm_compute. reflexivity.
Defined.

Lemma get_group_item_index_is_place_in_items_witness :
  exists ids,
    data ex_list !! offline = Some ids
    /\ py_getitem ex_items 2 = Ok (GroupItem (str_gid offline) (len ids)).
Proof.
  apply (get_group_item_index_is_place_in_items ex_list offline 2 ex_items).
  - vm_compute. reflexivity.
  - vm_compute. discriminate.
  - vm_compute. reflexivity.
  - vm_compute. reflexivity.
Defined.

(** ** [role_pos_update] when no session holds a range *)

Lemma get_subs_loop_no_ranges idx st :
  Forall (fun entry => snd entry = (∅ : gset (Z * Z))) st ->
  get_subs_loop idx st = Ok [].
Proof.
  induction 1 as [|[sid rs] st Hrs _ IH]; [done |]. simpl in *. subst rs.
  unfold state_is_subbed. rewrite elements_empty. simpl. by rewrite IH.
Qed.

Lemma get_group_item_index_loop_total l group_id gs : forall base,
  Forall (fun group => is_Some (data l !! gid group)) gs ->
  exists r, get_group_item_index_loop l group_id base gs = Ok r.
Proof.
  induction gs as [|group gs IH]; intros base Hall; simpl; [by eexists |].
  inversion Hall as [|? ? [ids Hids] Hrest]; subst.
  apply getitem_ok in Hids. rewrite Hids. simpl.
  destruct (_ || _); [| by apply IH].
  case_bool_decide; [by eexists | by apply IH].
Qed.

Lemma moved_to_gids pos idx gs : map gid (moved_to pos idx gs) = map gid gs.
Proof.
  unfold moved_to. apply list_eq. intros i. rewrite !list_lookup_fmap.
  destruct (decide (i = idx)) as [->|Hne].
  - rewrite list_lookup_alter_eq. by destruct (gs !! idx).
  - by rewrite list_lookup_alter_ne.
Qed.

(** X6. When no session holds a range, [role_pos_update] of a role that is a
    group returns no session id; the group has the new position and the
    groups are the same ones, sorted by position descending (which puts
    ['offline'] and ['online'] in front of every role whose position is
    below theirs). Nothing else of the state changes. *)
Theorem role_pos_update_without_ranges (role : Role) (st : St) (idx : nat) :
  no_ranges (self st) ->
  groups_have_data (mlist (self st)) ->
  _get_role_as_group_idx (mlist (self st)) (role_id role) = Some idx ->
  exists gs',
    role_pos_update role st
    = (Ok (Some []),
       mkSt (set_mlist (set_groups_of gs' (mlist (self st))) (self st)) (outside st))
    /\ gs' ≡ₚ moved_to (role_position role) idx (groups (mlist (self st)))
    /\ StronglySorted position_ge gs'.
Proof.
  intros Hno Hdata Hidx.
  set (gs' := stable_sort by_position_desc
                (moved_to (role_position role) idx (groups (mlist (self st))))).
  exists gs'. split; [| split; [apply stable_sort_perm | apply sorted_by_position]].
  apply wp_eq. unfold role_pos_update. wp_steps.
  unfold get_subs. rewrite (get_subs_loop_no_ranges _ _ Hno). cbv beta iota.
  rewrite Hidx. wp_steps. simpl.
  fold (moved_to (role_position role) idx (groups (mlist (self st)))). fold gs'.
  unfold get_group_item_index. simpl.
  match goal with
  | |- context [get_group_item_index_loop ?l _ 0 gs'] =>
      destruct (get_group_item_index_loop_total l (GRole (role_id role)) gs' 0)
        as [new_index Hnew]
  end.
  { apply Forall_forall. intros g Hg. unfold gs' in Hg.
    rewrite stable_sort_perm in Hg.
    assert (Hin : gid g ∈ map gid (groups (mlist (self st)))).
    { rewrite <- (moved_to_gids (role_position role) idx).
      by apply list_elem_of_fmap_2. }
    apply list_elem_of_fmap in Hin as (g0 & -> & Hg0).
    unfold groups_have_data in Hdata. rewrite Forall_forall in Hdata.
    by apply Hdata. }
  rewrite Hnew. cbv beta iota.
  wp_steps. unfold resync_by_item. wp_steps. unfold get_subs. simpl.
  rewrite (get_subs_loop_no_ranges _ _ Hno). cbv beta iota. wp_steps.
  by destruct st as [[? ? [] ?] ?].
Qed.

Lemma role_pos_update_without_ranges_witness :
  exists gs',
    role_pos_update ex_role_moved ex_st_quiet
    = (Ok (Some []),
       mkSt (set_mlist (set_groups_of gs' ex_list_mods) (self ex_st_quiet))
            ex_outside)
    /\ gs' ≡ₚ moved_to 0 1 (groups ex_list_mods)
    /\ StronglySorted position_ge gs'.
Proof.
  apply (role_pos_update_without_ranges ex_role_moved ex_st_quiet 1).
  - repeat constructor.
  - repeat constructor; vm_compute; by eexists.
  - vm_compute. reflexivity.
Defined.

(** ** [get_subs], and what a request records *)

Lemma in_range_int i range :
  in_range (IInt i) range = Ok (bool_decide (holds range i)).
Proof.
  unfold in_range, holds. f_equal. case_bool_decide as H.
  - apply andb_true_iff. split; apply Z.leb_le; lia.
  - apply andb_false_iff.
    destruct (Z.leb_spec (fst range) i); [right | by left].
    apply Z.leb_gt. lia.
Qed.

Lemma first_range_int i ranges :
  exists r, first_range (IInt i) ranges = Ok r
            /\ (is_Some r <-> exists range, range ∈ ranges /\ holds range i).
Proof.
  induction ranges as [|x ranges (r & IH & Hr)]; cbn [first_range].
  - exists None. split; [done |]. split; [by intros [] |].
    intros (? & []%elem_of_nil & _).
  - rewrite in_range_int. simpl. case_bool_decide as Hx.
    + exists (Some x). split; [done |]. split; [| by eexists].
      intros _. exists x. split; [by left | done].
    + exists r. split; [done |]. rewrite Hr. split.
      * intros (range & Hin & Hh). exists range. split; [by right | done].
      * intros (range & [-> | Hin]%elem_of_cons & Hh); [done |]. eauto.
Qed.

Lemma state_is_subbed_int (i : Z) (ranges : gset (Z * Z)) :
  exists b, state_is_subbed (IInt i) ranges = Ok b
            /\ (b = true <-> exists range, range ∈ ranges /\ holds range i).
Proof.
  unfold state_is_subbed.
  destruct (first_range_int i (elements ranges)) as (r & -> & Hr). simpl.
  eexists. split; [reflexivity |]. rewrite bool_decide_eq_true, Hr.
  by setoid_rewrite elem_of_elements.
Qed.

Lemma get_subs_loop_int (st : list (string * gset (Z * Z))) (i : Z) :
  exists subs,
    get_subs_loop (IInt i) st = Ok subs
    /\ forall sid,
         sid ∈ subs
         <-> exists ranges range,
               (sid, ranges) ∈ st /\ range ∈ ranges /\ holds range i.
Proof.
  induction st as [|[k rs] st (subs & IH & Hsubs)]; cbn [get_subs_loop].
  - exists []. split; [done |]. intros sid. split; [by intros []%elem_of_nil |].
    intros (? & ? & []%elem_of_nil & _).
  - destruct (state_is_subbed_int i rs) as (b & -> & Hb). rewrite IH. simpl.
    eexists. split; [reflexivity |]. intros sid.
    destruct b.
    + rewrite elem_of_cons, Hsubs. split.
      * intros [-> | (ranges & range & Hin & Hr & Hh)].
        -- destruct (proj1 Hb eq_refl) as (range & Hr & Hh). exists rs, range.
           split; [by left | done].
        -- exists ranges, range. split; [by right | done].
      * intros (ranges & range & [[= -> ->] | Hin]%elem_of_cons & Hr & Hh);
          [by left |].
        right. eauto.
    + rewrite Hsubs. split.
      * intros (ranges & range & Hin & Hr & Hh).
        exists ranges, range. split; [by right | done].
      * intros (ranges & range & [[= -> ->] | Hin]%elem_of_cons & Hr & Hh).
        -- assert (false = true) by (apply Hb; eauto). done.
        -- eauto.
Qed.

(** X7. [get_subs] for an int index never raises, and gives the sessions one
    of whose ranges holds the index, both ends of a range included. *)
Theorem get_subs_int (g : GuildMemberList) (i : Z) :
  exists subs,
    get_subs g (IInt i) = Ok subs
    /\ forall sid,
         sid ∈ subs
         <-> exists ranges range,
               (sid, ranges) ∈ state g /\ range ∈ ranges /\ holds range i.
Proof. apply get_subs_loop_int. Qed.

Lemma state_lookup_elem (st : list (string * gset (Z * Z))) (sid : string)
    (rs : gset (Z * Z)) :
  state_lookup st sid = Some rs -> (sid, rs) ∈ st.
Proof.
  induction st as [|[k v] st IH]; [done |]. rewrite state_lookup_cons.
  case_bool_decide as Hk.
  - intros [= ->]. subst. by left.
  - intros H. right. by apply IH.
Qed.

(** X8. A request records what [get_subs] later finds: once [shard_query] has
    answered a session's request for the range [(s, e)], [get_subs] of
    every index from [s] to [e], [e] included, lists that session. *)
Theorem shard_query_then_get_subs env (sid : string) (ranges : list (Z * Z))
    (st : St) (its : list Item) (s e i : Z) :
  initialized (mlist (self st)) = true ->
  items (mlist (self st)) = Ok its ->
  (s, e) ∈ ranges ->
  s <= i <= e ->
  exists subs,
    get_subs (self (snd (shard_query_here env sid ranges st))) (IInt i) = Ok subs
    /\ sid ∈ subs.
Proof.
  intros Hinit Hits Hin Hi.
  destruct (shard_query_here_ok env sid ranges st its Hinit Hits) as (gc & _ & ->).
  simpl.
  destruct (add_ranges_records sid ranges (state (self st)) (s, e) Hin)
    as (rs & Hrs & Hse).
  { unfold range_ok. simpl. apply negb_true_iff, Z.ltb_ge. lia. }
  destruct (get_subs_loop_int (add_ranges sid ranges (state (self st))) i)
    as (subs & Hsubs & Hiff).
  exists subs. split; [done |]. apply Hiff. exists rs, (s, e).
  split; [by apply state_lookup_elem | done].
Qed.

Lemma shard_query_then_get_subs_witness :
  exists subs,
    get_subs (self (snd (shard_query_here ex_env "s2" [(0, 1)] ex_st))) (IInt 1)
    = Ok subs
    /\ "s2" ∈ subs.
Proof.
  apply (shard_query_then_get_subs ex_env "s2" [(0, 1)] ex_st ex_items 0 1 1).
  - vm_compute. reflexivity.
  - vm_compute. reflexivity.
  - by left.
  - lia.
Defined.

(** ** A member who cannot read the channel *)

Lemma list_fill_groups_unreadable env member_ids id : forall st : St,
  id ∈ member_ids ->
  cannot_read env id (channel_id (self st)) ->
  wp (_list_fill_groups env member_ids)
     (fun r _ => r = Raise KeyError) st.
Proof.
  unfold _list_fill_groups, cannot_read.
  induction member_ids as [|x rest IH]; intros st Hin Hread.
  { by apply elem_of_nil in Hin. }
  cbn [for_each]. apply wp_bind. wp_steps.
  destruct (getitem (presences (mlist (self st))) x) as [presence|e] eqn:Hp;
    simpl.
  2:{ unfold getitem in Hp. destruct (_ !! x); [done |]. by injection Hp as <-. }
  wp_steps. simpl.
  destruct (decide (x = id)) as [->|Hne].
  - unfold get_group_for_member. simpl. rewrite Hread. simpl.
    unfold data_append. wp_steps. done.
  - apply elem_of_cons in Hin as [-> | Hin]; [done |].
    unfold data_append. wp_steps.
    destruct (get_group_for_member _ _ _ _ _) as [k|]; [| by wp_steps].
    wp_steps. simpl.
    match goal with |- context [getitem ?d k] =>
      destruct (getitem d k) as [ids|e] eqn:Hk end; simpl.
    2:{ unfold getitem in Hk. destruct (_ !! k); [done |]. by injection Hk as <-. }
    wp_steps. by apply IH.
Qed.

(** X9. A member who cannot read the channel makes the first initialization
    fail: subscribing to a new list (its fields as [MemberList()] leaves
    them) raises [KeyError] when one of the guild's members cannot read
    the list's channel. A list that [unsub] has emptied is not a new list
    and is not covered. *)
Theorem sub_raises_for_unreadable_member env (sid : string) (st : St) (id : Z) :
  mlist (self st) = MemberList_new ->
  id ∈ get_member_ids env (guild_id (self st)) ->
  cannot_read env id (channel_id (self st)) ->
  fst (sub env sid st) = Raise KeyError.
Proof.
  intros Hnew Hin Hread. unfold sub, _init_check.
  change (wp (let* l := get_list in
              if negb (initialized l) then _init_member_list env else ret tt)
             (fun r _ => r = Raise KeyError) st).
  wp_steps. rewrite Hnew. simpl. unfold _init_member_list. wp_steps.
  match goal with |- wp (set_groups env) _ ?s =>
    destruct (set_groups_run env s) as (rgs & ovs & Hset)
  end.
  eapply wp_of_eq; [exact Hset |]. cbv beta iota. wp_steps.
  eapply wp_mono; [by apply (list_fill_groups_unreadable env _ id) |].
  by intros r s' ->.
Qed.

Lemma sub_raises_for_unreadable_member_witness :
  fst (sub ex_env_private "s1" (mkSt ex_gml_private ex_outside)) = Raise KeyError.
Proof.
  apply (sub_raises_for_unreadable_member ex_env_private "s1"
           (mkSt ex_gml_private ex_outside) 20).
  - reflexivity.
  - vm_compute. right. left.
  - vm_compute. reflexivity.
Defined.

(** ** [new_role] and [role_update] *)

Lemma index_by_func_lookup {A} (f : A -> bool) (l : list A) i :
  index_by_func f l = Some i -> exists x, l !! i = Some x /\ f x = true.
Proof.
  revert i. induction l as [|y l IH]; simpl; intros i H; [done |].
  destruct (f y) eqn:Hy.
  - injection H as <-. eauto.
  - destruct (index_by_func f l) as [j|]; [| done]. injection H as <-.
    by apply IH.
Qed.

Lemma new_role_readable env role (st : St) :
  initialized (mlist (self st)) = true ->
  read_messages env (mixed_perms env (channel_id (self st)) role) = true ->
  new_role env role st
  = (Ok tt,
     with_groups
       (py_insert (role_position role)
                  (group_of_role env (channel_id (self st)) role)
                  (groups (mlist (self st))))
       (<[GRole (role_id role) := []]> (data (mlist (self st))))
       (fetched_overwrites env (channel_id (self st))) st).
Proof.
  intros Hinit Hread. apply wp_eq. unfold new_role. wp_steps.
  rewrite Hinit. simpl negb. cbv iota. unfold _fetch_overwrites. wp_steps.
  unfold _can_read_chan. simpl. unfold mixed_perms, fetched_overwrites in Hread.
  rewrite Hread. simpl. wp_steps. reflexivity.
Qed.

Lemma new_role_unreadable env role (st : St) :
  initialized (mlist (self st)) = true ->
  read_messages env (mixed_perms env (channel_id (self st)) role) = false ->
  new_role env role st
  = (Ok tt,
     with_groups (groups (mlist (self st))) (data (mlist (self st)))
                 (fetched_overwrites env (channel_id (self st))) st).
Proof.
  intros Hinit Hread. apply wp_eq. unfold new_role. wp_steps.
  rewrite Hinit. simpl negb. cbv iota. unfold _fetch_overwrites. wp_steps.
  unfold _can_read_chan. simpl. unfold mixed_perms, fetched_overwrites in Hread.
  rewrite Hread. simpl. wp_steps. reflexivity.
Qed.

Lemma py_insert_elem {A} (i : Z) (x y : A) l :
  y ∈ py_insert i x l <-> y = x \/ y ∈ l.
Proof.
  unfold py_insert. set (j := Z.to_nat (clamp_index (len l) i)).
  rewrite <- (take_drop j l) at 3.
  rewrite !elem_of_app, elem_of_cons. tauto.
Qed.

Lemma py_insert_first_twice {A B} `{EqDecision B} (f : A -> B) (i : Z)
    (x y : A) l :
  f x = f y -> ~ NoDup (map f (py_insert i x (y :: l))).
Proof.
  intros Hxy. unfold py_insert.
  destruct (Z.to_nat (clamp_index (len (y :: l)) i)) as [|j]; simpl.
  - rewrite NoDup_cons. intros [Hnot _]. apply Hnot. rewrite Hxy. by left.
  - rewrite NoDup_cons. intros [Hnot _]. apply Hnot.
    rewrite map_app. apply elem_of_app. right. simpl. rewrite Hxy. by left.
Qed.

(** X10. [role_update] takes the index [0] for no index: a hoisted role that is
    the first group of the list is handled as a new role. When it can read
    the channel, its group is inserted once more, so that two groups have
    its id, and its [data] list is emptied. *)
Theorem role_update_first_group_taken_as_new env (role : Role) (st : St) :
  initialized (mlist (self st)) = true ->
  _get_role_as_group_idx (mlist (self st)) (role_id role) = Some 0%nat ->
  role_hoist role = true ->
  read_messages env (mixed_perms env (channel_id (self st)) role) = true ->
  let gs' := py_insert (role_position role)
               (group_of_role env (channel_id (self st)) role)
               (groups (mlist (self st))) in
  role_update env role st
  = (Ok None,
     with_groups gs' (<[GRole (role_id role) := []]> (data (mlist (self st))))
                 (fetched_overwrites env (channel_id (self st))) st)
  /\ ~ NoDup (map gid gs').
Proof.
  intros Hinit Hidx Hhoist Hread gs'. split.
  - apply wp_eq. unfold role_update. wp_steps.
    rewrite Hinit, Hidx, Hhoist. simpl. wp_steps.
    eapply wp_of_eq; [by apply new_role_readable |]. cbv beta iota.
    wp_steps. reflexivity.
  - unfold _get_role_as_group_idx in Hidx. rewrite Hinit in Hidx. simpl in Hidx.
    apply index_by_func_lookup in Hidx as (g0 & Hg0 & Hgid).
    apply bool_decide_eq_true in Hgid. subst gs'.
    destruct (groups (mlist (self st))) as [|g rest]; [done |].
    injection Hg0 as ->. apply py_insert_first_twice. by rewrite Hgid.
Qed.

(** X11. [role_update] never removes the first group of the list: whatever the
    role's hoist flag and permissions are, the call returns and the role is
    still a group afterwards (a role at a later index that has lost its
    hoist flag or its read permission is deleted). *)
Theorem role_update_keeps_first_group env (role : Role) (st : St) :
  initialized (mlist (self st)) = true ->
  _get_role_as_group_idx (mlist (self st)) (role_id role) = Some 0%nat ->
  fst (role_update env role st) = Ok None
  /\ is_group (mlist (self (snd (role_update env role st)))) (GRole (role_id role)).
Proof.
  intros Hinit Hidx.
  assert (Hgroup : is_group (mlist (self st)) (GRole (role_id role))).
  { unfold _get_role_as_group_idx in Hidx. rewrite Hinit in Hidx. simpl in Hidx.
    apply index_by_func_lookup in Hidx as (g0 & Hg0 & Hgid).
    apply bool_decide_eq_true in Hgid. unfold is_group. rewrite <- Hgid.
    apply list_elem_of_fmap_2. by eapply list_elem_of_lookup_2. }
  assert (Hrun : exists gs' d' ovs',
            role_update env role st = (Ok None, with_groups gs' d' ovs' st)
            /\ forall g, g ∈ groups (mlist (self st)) -> g ∈ gs').
  { destruct (role_hoist role) eqn:Hhoist.
    - destruct (read_messages env (mixed_perms env (channel_id (self st)) role))
        eqn:Hread.
      + eexists _, _, _. split.
        * apply wp_eq. unfold role_update. wp_steps.
          rewrite Hinit, Hidx, Hhoist. simpl. wp_steps.
          eapply wp_of_eq; [by apply new_role_readable |]. cbv beta iota.
          wp_steps. reflexivity.
        * intros g Hg. apply py_insert_elem. by right.
      + eexists _, _, _. split.
        * apply wp_eq. unfold role_update. wp_steps.
          rewrite Hinit, Hidx, Hhoist. simpl. wp_steps.
          eapply wp_of_eq; [by apply new_role_unreadable |]. cbv beta iota.
          wp_steps. reflexivity.
        * done.
    - exists (groups (mlist (self st))), (data (mlist (self st))),
             (overwrites (mlist (self st))). split; [| done].
      apply wp_eq. unfold role_update. wp_steps.
      rewrite Hinit, Hidx, Hhoist. simpl. wp_steps.
      by destruct st as [[? ? [] ?] ?]. }
  destruct Hrun as (gs' & d' & ovs' & -> & Hsub). split; [done |]. simpl.
  unfold is_group in *. simpl.
  apply list_elem_of_fmap in Hgroup as (g & Hg & Hin).
  rewrite Hg. apply list_elem_of_fmap_2. by apply Hsub.
Qed.

(** X12. A hoisted role that is a group at a later index and can still read the
    channel: [role_update] stores the role's permissions, mixed with the
    channel's overwrites, in its group, refreshes the overwrites, and
    changes nothing else. *)
Theorem role_update_refreshes_permissions env (role : Role) (st : St)
    (idx : nat) (group : GroupInfo) :
  initialized (mlist (self st)) = true ->
  _get_role_as_group_idx (mlist (self st)) (role_id role) = Some (S idx) ->
  groups (mlist (self st)) !! S idx = Some group ->
  role_hoist role = true ->
  read_messages env (mixed_perms env (channel_id (self st)) role) = true ->
  role_update env role st
  = (Ok None,
     with_groups
       (<[S idx := mkGroupInfo (gid group) (name group) (position group)
                     (mixed_perms env (channel_id (self st)) role)]>
          (groups (mlist (self st))))
       (data (mlist (self st)))
       (fetched_overwrites env (channel_id (self st))) st).
Proof.
  intros Hinit Hidx Hgroup Hhoist Hread.
  assert (Hgid : gid group = GRole (role_id role)).
  { unfold _get_role_as_group_idx in Hidx. rewrite Hinit in Hidx. simpl in Hidx.
    apply index_by_func_lookup in Hidx as (g0 & Hg0 & Hgid).
    apply bool_decide_eq_true in Hgid. congruence. }
  apply wp_eq. unfold role_update. wp_steps.
  rewrite Hinit, Hidx, Hhoist. simpl. wp_steps.
  unfold group_at. rewrite Hgroup. cbv beta iota. wp_steps.
  unfold _fetch_overwrites. wp_steps. unfold _can_read_chan. simpl.
  rewrite Hgid. unfold mixed_perms, fetched_overwrites in Hread.
  rewrite Hread. simpl. wp_steps.
  unfold with_groups, mixed_perms, fetched_overwrites. simpl.
  by rewrite list_insert_insert_eq.
Qed.

Lemma role_update_first_group_taken_as_new_witness :
  role_update ex_env ex_role ex_st_mods_first
  = (Ok None,
     with_groups
       (py_insert 1 (group_of_role ex_env 1 ex_role) (groups ex_list_mods_first))
       (<[GRole 5 := []]> (data ex_list_mods_first))
       (fetched_overwrites ex_env 1) ex_st_mods_first)
  /\ ~ NoDup (map gid (py_insert 1 (group_of_role ex_env 1 ex_role)
                                 (groups ex_list_mods_first))).
Proof.
  apply (role_update_first_group_taken_as_new ex_env ex_role ex_st_mods_first).
  - vm_compute. reflexivity.
  - vm_compute. reflexivity.
  - reflexivity.
  - vm_compute. reflexivity.
Defined.

Lemma role_update_keeps_first_group_witness :
  fst (role_update ex_env (mkRole 5 "mods" false 1 0) ex_st_mods_first) = Ok None
  /\ is_group
       (mlist (self (snd (role_update ex_env (mkRole 5 "mods" false 1 0)
                            ex_st_mods_first))))
       (GRole 5).
Proof.
  apply (role_update_keeps_first_group ex_env (mkRole 5 "mods" false 1 0)
           ex_st_mods_first).
  - vm_compute. reflexivity.
  - vm_compute. reflexivity.
Defined.

Lemma role_update_refreshes_permissions_witness :
  role_update ex_env (mkRole 5 "mods" true 1 1025) ex_st_quiet
  = (Ok None,
     with_groups
       (<[1%nat := mkGroupInfo (GRole 5) "mods" 1
                     (mixed_perms ex_env 1 (mkRole 5 "mods" true 1 1025))]>
          (groups ex_list_mods))
       (data ex_list_mods) (fetched_overwrites ex_env 1) ex_st_quiet).
Proof.
  apply (role_update_refreshes_permissions ex_env (mkRole 5 "mods" true 1 1025)
           ex_st_quiet 0 (mkGroupInfo (GRole 5) "mods" 1 1024)).
  - vm_compute. reflexivity.
  - vm_compute. reflexivity.
  - reflexivity.
  - reflexivity.
  - vm_compute. reflexivity.
Defined.

(** ** Routing an event to the lists of a guild *)

Lemma on_list_lists_stay {A} channel (m : M St A) (w : World) :
  lists_stay w (snd (on_list channel m w)).
Proof.
  unfold on_list. destruct (lists w !! channel) as [g|] eqn:Hg; [| done].
  destruct (m _) as [r s]. simpl. split; [| done]. intros c Hc. simpl.
  destruct (decide (c = channel)) as [->|Hne].
  - by rewrite lookup_insert_eq.
  - by rewrite lookup_insert_ne.
Qed.

Lemma call_each_no_attribute_error {A} (method : M St A) lazy_lists :
  forall w : World,
  Forall (fun o => exists c, o = Some c /\ is_Some (lists w !! c)) lazy_lists ->
  fst (call_each lazy_lists method w) <> Some AttributeError
  /\ lists_stay w (snd (call_each lazy_lists method w)).
Proof.
  induction lazy_lists as [|o rest IH]; intros w Hall; simpl.
  { by split. }
  inversion Hall as [|? ? (c & -> & Hc) Hrest]; subst.
  pose proof (on_list_lists_stay c method w) as [Hstay Hmap].
  destruct (on_list c method w) as [[a|e] w'] eqn:Hrun; simpl in *.
  - destruct (IH w') as [Hne [Hstay' Hmap']].
    { eapply Forall_impl; [exact Hrest |]. intros o (c' & -> & Hc').
      exists c'. split; [done |]. by apply Hstay. }
    split; [done |]. split; [| congruence]. intros c' Hc'. by apply Hstay', Hstay.
  - by split.
Qed.

(** X13. An event routed to the lists of a guild never fails for a missing
    list: when every channel filed under a guild has its list,
    [_call_all_lists] does not end in the [AttributeError] of a method
    looked up on [None], and every channel still has its list afterwards,
    whether the handlers return or one of them raises. *)
Theorem call_all_lists_finds_every_list {A} (guild : Z) (method : M St A)
    (w : World) :
  every_channel_has_list w ->
  fst (_call_all_lists guild method w) <> Some AttributeError
  /\ every_channel_has_list (snd (_call_all_lists guild method w)).
Proof.
  intros Hw. unfold _call_all_lists, get_gml_guild.
  destruct (guild_map w !! guild) as [channels|] eqn:Hguild.
  - pose proof (Hw _ _ Hguild) as Hch. simpl in Hch.
    destruct (call_each_no_attribute_error method
                (map (fun c => match lists w !! c with
                               | Some _ => Some c
                               | None => None
                               end) channels) w) as [Hne [Hstay Hmap]].
    { apply Forall_forall. intros o Ho.
      apply list_elem_of_fmap in Ho as (c & -> & Hc).
      rewrite Forall_forall in Hch. destruct (Hch c Hc) as [g Hg].
      rewrite Hg. exists c. split; [done | by eexists]. }
    split; [done |]. unfold every_channel_has_list. rewrite Hmap.
    intros g cs Hg. eapply Forall_impl; [apply (Hw _ _ Hg) |].
    intros c Hc. by apply Hstay.
  - simpl. split; [done |]. unfold every_channel_has_list. simpl.
    apply map_Forall_insert_2; [constructor | exact Hw].
Qed.

(** X14. [get_gml] answers with a channel that has a list; a list it has just
    made is filed under its guild, where the routed events find it, and
    every channel that had a list keeps it. *)
Theorem get_gml_files_the_list env (channel : Z) (w : World) :
  fst (get_gml env channel w) = Ok channel
  /\ (exists g, lists (snd (get_gml env channel w)) !! channel = Some g
        /\ (lists w !! channel = None ->
            channel_id g = channel
            /\ Some channel
               ∈ fst (get_gml_guild (guild_id g) (snd (get_gml env channel w)))))
  /\ (every_channel_has_list w ->
      every_channel_has_list (snd (get_gml env channel w))).
Proof.
  unfold get_gml, bind, gets, id. simpl.
  destruct (lists w !! channel) as [g|] eqn:Hg; simpl.
  { split; [done |]. split; [| done]. exists g. by split. }
  set (guild := match guild_from_channel env channel with
                | Some g => if g =? 0 then channel else g
                | None => channel
                end).
  split; [done |]. split.
  - eexists. rewrite lookup_insert_eq. split; [reflexivity |]. intros _.
    split; [done |]. unfold get_gml_guild. simpl. rewrite lookup_insert_eq. simpl.
    apply list_elem_of_fmap. exists channel. rewrite lookup_insert_eq.
    split; [done |]. apply elem_of_app. right. by left.
  - intros Hw. unfold every_channel_has_list. simpl.
    assert (Hmono : forall c, is_Some (lists w !! c) ->
              is_Some (<[channel := mkGML guild channel MemberList_new []]>
                         (lists w) !! c)).
    { intros c Hc. destruct (decide (c = channel)) as [->|Hne].
      - by rewrite lookup_insert_eq.
      - by rewrite lookup_insert_ne. }
    apply map_Forall_insert_2.
    + apply Forall_app. split.
      * destruct (guild_map w !! guild) as [cs|] eqn:Hcs; simpl; [| constructor].
        eapply Forall_impl; [apply (Hw _ _ Hcs) |]. exact Hmono.
      * constructor; [| constructor]. by rewrite lookup_insert_eq.
    + intros g cs Hcs. eapply Forall_impl; [apply (Hw _ _ Hcs) |]. exact Hmono.
Qed.

Lemma call_all_lists_finds_every_list_witness :
  fst (_call_all_lists 1 (role_delete ex_env 7) ex_world_two)
  <> Some AttributeError
  /\ every_channel_has_list
       (snd (_call_all_lists 1 (role_delete ex_env 7) ex_world_two)).
Proof.
  apply (call_all_lists_finds_every_list 1 (role_delete ex_env 7) ex_world_two).
  apply map_Forall_to_list. vm_compute. repeat constructor; by eexists.
Defined.

(** ** The groups and the keys of [data] *)

Lemma keeps_shape_modify_list f :
  (forall l, groups (f l) = groups l /\ dom (data (f l)) = dom (data l)) ->
  keeps shape (modify_list f).
Proof.
  intros Hf s. unfold shape. simpl. destruct (Hf (mlist (self s))) as [-> ->].
  done.
Qed.

Lemma keeps_shape_modify_state f :
  keeps shape (modify_self (fun g => set_state (f g) g)).
Proof. done. Qed.

Lemma keeps_shape_modify_outside f : keeps shape (modify_outside f).
Proof. done. Qed.

Lemma dom_insert_there (d : gmap GroupID (list Z)) k v :
  is_Some (d !! k) -> dom (<[k := v]> d) = dom d.
Proof.
  intros Hk. rewrite dom_insert_L. apply elem_of_dom in Hk.
  apply subseteq_union_1_L. by apply singleton_subseteq_l.
Qed.

Lemma keeps_shape_data_append group_id member_id :
  keeps shape (data_append group_id member_id).
Proof.
  intros s. unfold data_append, bind, get_list, gets, lift_res. simpl.
  destruct group_id as [k|]; [| done].
  unfold getitem. destruct (data (mlist (self s)) !! k) as [ids|] eqn:Hk; [| done].
  unfold shape. simpl. by rewrite dom_insert_there.
Qed.

Lemma keeps_shape_data_remove group user :
  keeps shape (data_remove group user).
Proof.
  intros s. unfold data_remove, bind, get_list, gets, lift_res. simpl.
  unfold getitem.
  destruct (data (mlist (self s)) !! group) as [ids|] eqn:Hk; [| done].
  destruct (py_remove user ids) as [ids'|e]; [| done].
  unfold shape. simpl. by rewrite dom_insert_there.
Qed.

Lemma keeps_shape_sort_groups : keeps shape _sort_groups.
Proof.
  intros st. unfold _sort_groups.
  set (d := data (mlist (self st))).
  assert (Hwp : wp (for_each (map_to_list d) sort_entry)
                   (fun _ s' => shape s' = shape st) st).
  { eapply wp_mono;
      [apply (wp_for_each _ _
                (fun rest s' => shape s' = shape st
                                /\ forall e, e ∈ rest -> is_Some (d !! fst e))
                (fun s' => shape s' = shape st))
      | by intros [[]|e] s' H; [destruct H |] ].
    - split; [done |]. intros [k ids] Hin.
      apply elem_of_map_to_list in Hin. by eexists.
    - intros [k ids] rest s' [Hshape Hrest]. unfold sort_entry. wp_steps.
      destruct (sort_by_display_name _ _) as [sorted|e]; simpl; [| done].
      apply wp_modify. split; [| intros e He; apply Hrest; by right].
      rewrite <- Hshape. unfold shape. simpl. f_equal.
      apply dom_insert_there. apply elem_of_dom.
      assert (Hdom : dom (data (mlist (self s'))) = dom d).
      { unfold shape in Hshape. by injection Hshape. }
      rewrite Hdom. apply elem_of_dom. apply (Hrest (k, ids)). by left. }
  unfold wp in Hwp. unfold bind, get_list, gets. simpl. fold d.
  by destruct (for_each (map_to_list d) sort_entry st) as [[[]|e] s'].
Qed.

Create HintDb shape.

#[export] Hint Resolve keeps_shape_data_append keeps_shape_data_remove
  keeps_shape_sort_groups : shape.

Ltac shape_step :=
  lazymatch goal with
  | |- keeps _ (bind _ _) => apply keeps_bind; [| intros ?]
  | |- keeps _ (ret _) => apply keeps_ret
  | |- keeps _ (raise _) => apply keeps_raise
  | |- keeps _ (gets _) => apply keeps_gets
  | |- keeps _ get_list => apply keeps_gets
  | |- keeps _ get_self => apply keeps_gets
  | |- keeps _ (lift_res _) => apply keeps_lift_res
  | |- keeps _ (modify_outside _) => apply keeps_shape_modify_outside
  | |- keeps _ (modify_self (fun g => set_state _ g)) =>
      apply keeps_shape_modify_state
  | |- keeps _ (modify_list _) =>
      apply keeps_shape_modify_list; intros ?; by split
  | |- keeps _ (try_except _ _ _) => apply keeps_try_except
  | |- keeps _ (for_each _ _) => apply keeps_for_each; intros ?
  | |- keeps _ (match ?x with _ => _ end) => destruct x
  | |- keeps _ _ => solve [auto with shape]
  end.

Ltac solve_shape := repeat shape_step.

Lemma keeps_shape_list_fill_groups env member_ids :
  keeps shape (_list_fill_groups env member_ids).
Proof. unfold _list_fill_groups. solve_shape. Qed.

Lemma keeps_shape_state_getitem sid : keeps shape (state_getitem sid).
Proof. unfold state_getitem. solve_shape. Qed.

Lemma keeps_shape_create_task sid ranges : keeps shape (create_task sid ranges).
Proof. unfold create_task. solve_shape. Qed.

#[export] Hint Resolve keeps_shape_list_fill_groups keeps_shape_state_getitem
  keeps_shape_create_task : shape.

Lemma keeps_shape_resync session_ids item_index :
  keeps shape (resync session_ids item_index).
Proof.
  induction session_ids as [|sid rest IH]; simpl; solve_shape.
Qed.

Lemma keeps_shape_dispatch_sess env session_ids operations :
  keeps shape (_dispatch_sess env session_ids operations).
Proof. unfold _dispatch_sess. solve_shape. Qed.

#[export] Hint Resolve keeps_shape_resync keeps_shape_dispatch_sess : shape.

Lemma keeps_shape_resync_by_item item_index :
  keeps shape (resync_by_item item_index).
Proof. unfold resync_by_item. solve_shape. Qed.

Lemma keeps_shape_pres_update_simple env user :
  keeps shape (_pres_update_simple env user).
Proof. unfold _pres_update_simple. solve_shape. Qed.

Lemma keeps_shape_pres_update_complex user old_group rel_index new_group :
  keeps shape (_pres_update_complex user old_group rel_index new_group).
Proof. unfold _pres_update_complex. solve_shape. Qed.

Lemma keeps_shape_deref r : keeps shape (deref r).
Proof. unfold deref. solve_shape. Qed.

Lemma keeps_shape_pop_nick r : keeps shape (pop_nick r).
Proof. unfold pop_nick, deref. solve_shape. Qed.

#[export] Hint Resolve keeps_shape_resync_by_item keeps_shape_pres_update_simple
  keeps_shape_pres_update_complex keeps_shape_deref keeps_shape_pop_nick : shape.

(** X15. A presence update never adds, removes or reorders a group: on an
    initialized list, whether [pres_update] returns or raises, the groups
    and the keys of [data] are afterwards what they were. *)
Theorem pres_update_keeps_groups env (user : Z) (partial_presence : nat)
    (st : St) :
  initialized (mlist (self st)) = true ->
  shape (snd (pres_update env user partial_presence st)) = shape st.
Proof.
  intros Hinit. unfold pres_update. unfold bind at 1.
  rewrite (init_check_initialized env st Hinit).
  match goal with |- shape (snd (?m st)) = _ => enough (keeps shape m) by done end.
  solve_shape.
Qed.

Lemma pres_update_keeps_groups_witness :
  shape (snd (pres_update ex_env 10 1 ex_st)) = shape ex_st.
Proof.
  apply (pres_update_keeps_groups ex_env 10 1 ex_st).
  vm_compute. reflexivity.
Defined.

Lemma alloc_data_dom (gs : list GroupInfo) (m : gmap GroupID (list Z)) :
  dom (foldl (fun m group => <[gid group := []]> m) m gs)
  = dom m ∪ list_to_set (map gid gs).
Proof.
  revert m. induction gs as [|g gs IH]; intros m; simpl.
  - set_solver.
  - rewrite IH, dom_insert_L. set_solver.
Qed.

(** X16. Initialization fixes the shape of the list before anything is read
    that can fail: whether [__init_member_list] returns or raises, the
    keys of [data] are afterwards exactly the ids of the groups, and the
    groups are role groups followed by ['online'] and ['offline']. *)
Theorem init_member_list_keys_agree env (st : St) :
  keys_agree (mlist (self (snd (_init_member_list env st))))
  /\ exists role_groups,
       groups (mlist (self (snd (_init_member_list env st))))
       = role_groups ++ synthetic_groups.
Proof.
  change (wp (_init_member_list env)
             (fun _ s' => keys_agree (mlist (self s'))
                          /\ exists role_groups,
                               groups (mlist (self s'))
                               = role_groups ++ synthetic_groups) st).
  unfold _init_member_list. wp_steps.
  match goal with |- wp (set_groups env) _ ?s =>
    destruct (set_groups_run env s) as (rgs & ovs & Hset)
  end.
  eapply wp_of_eq; [exact Hset |]. cbv beta iota. wp_steps.
  match goal with |- wp _ _ ?s => set (s1 := s) end.
  assert (Hend : forall s' : St, shape s' = shape s1 ->
            keys_agree (mlist (self s'))
            /\ exists role_groups,
                 groups (mlist (self s')) = role_groups ++ synthetic_groups).
  { intros s' Hshape. unfold shape in Hshape. simpl in Hshape.
    injection Hshape as Hgroups Hdom. unfold keys_agree.
    rewrite Hdom, Hgroups, alloc_data_dom, dom_empty_L, (left_id_L ∅ (∪)).
    split; [done |]. by exists rgs. }
  eapply wp_mono; [apply (keeps_wp shape); auto with shape |].
  cbv beta. intros r s2 Hs2. destruct r as [[]|e]; [| by apply Hend].
  eapply wp_mono; [apply (keeps_wp shape); auto with shape |].
  cbv beta. intros _ s3 Hs3. apply Hend. by rewrite Hs3.
Qed.

Lemma index_by_func_some (k : GroupID) gs :
  k ∈ map gid gs ->
  exists idx, index_by_func (fun g => bool_decide (gid g = k)) gs = Some idx.
Proof.
  induction gs as [|g gs IH]; simpl; intros Hin; [by apply elem_of_nil in Hin |].
  case_bool_decide as Hg; [by eexists |].
  apply elem_of_cons in Hin as [-> | Hin]; [done |].
  destruct (IH Hin) as [idx ->]. by eexists.
Qed.

Lemma py_del_group (k : GroupID) gs idx :
  NoDup (map gid gs) ->
  index_by_func (fun g => bool_decide (gid g = k)) gs = Some idx ->
  (k ∉ map gid (py_del idx gs))
  /\ NoDup (map gid (py_del idx gs))
  /\ (list_to_set (map gid (py_del idx gs)) : gset GroupID)
     = list_to_set (map gid gs) ∖ {[k]}.
Proof.
  revert idx. induction gs as [|g gs IH]; simpl; intros idx Hnd Hidx; [done |].
  apply NoDup_cons in Hnd as [Hg Hnd].
  case_bool_decide as Hk.
  - injection Hidx as <-. subst k. unfold py_del. simpl. rewrite drop_0.
    split; [done |]. split; [done |].
    assert (gid g ∉ (list_to_set (map gid gs) : gset GroupID))
      by by rewrite elem_of_list_to_set.
    set_solver.
  - destruct (index_by_func _ gs) as [j|] eqn:Hj; [| done]. injection Hidx as <-.
    destruct (IH j Hnd eq_refl) as (Hnot & Hnd' & Hset).
    change (py_del (S j) (g :: gs)) with (g :: py_del j gs). simpl.
    split; [| split].
    + rewrite elem_of_cons. intros [-> | Hin]; [done | by apply Hnot].
    + apply NoDup_cons. split; [| done]. intros Hin. apply Hg.
      apply (elem_of_list_to_set (C := gset GroupID)) in Hin.
      rewrite Hset in Hin. apply elem_of_difference in Hin as [Hin _].
      by apply elem_of_list_to_set in Hin.
    + rewrite Hset. set_solver.
Qed.

Lemma reassign_orphans_shape env role (s : St) :
  is_Some (data (mlist (self s)) !! GRole role) ->
  wp (try_except
        (let* member_ids := data_pop role in
         let* _ := _list_fill_groups env member_ids in
         _sort_groups)
        KeyError (ret tt))
     (fun _ s' => shape s'
                  = (groups (mlist (self s)),
                     dom (data (mlist (self s))) ∖ {[GRole role]})) s.
Proof.
  intros [ids Hids]. apply wp_try_except. unfold data_pop. wp_steps.
  unfold getitem. rewrite Hids. cbv beta iota. wp_steps.
  match goal with |- wp _ _ ?s0 => set (s1 := s0) end.
  assert (Hs1 : shape s1
                = (groups (mlist (self s)),
                   dom (data (mlist (self s))) ∖ {[GRole role]})).
  { unfold shape. simpl. by rewrite dom_delete_L. }
  eapply wp_mono; [apply (keeps_wp shape); auto with shape |].
  cbv beta. intros r s2 Hs2. rewrite Hs1 in Hs2.
  destruct r as [[]|e]; [| by destruct (bool_decide (e = KeyError))].
  eapply wp_mono; [apply (keeps_wp shape); auto with shape |].
  cbv beta. intros r s3 Hs3. rewrite Hs2 in Hs3.
  destruct r as [[]|e]; [done |]. by destruct (bool_decide (e = KeyError)).
Qed.

Lemma role_delete_shape env (role : Z) (st : St) idx :
  initialized (mlist (self st)) = true ->
  keys_agree (mlist (self st)) ->
  index_by_func (fun g => bool_decide (gid g = GRole role))
                (groups (mlist (self st))) = Some idx ->
  wp (role_delete env role)
     (fun _ s' => shape s'
                  = (py_del idx (groups (mlist (self st))),
                     dom (data (mlist (self st))) ∖ {[GRole role]})) st.
Proof.
  intros Hinit Hkeys Hidx.
  assert (Hgroup : is_group (mlist (self st)) (GRole role)).
  { apply index_by_func_lookup in Hidx as (g & Hg & Hgid).
    apply bool_decide_eq_true in Hgid. unfold is_group. rewrite <- Hgid.
    apply list_elem_of_fmap_2. by eapply list_elem_of_lookup_2. }
  unfold role_delete. wp_steps. rewrite Hinit. simpl negb. cbv iota.
  destruct (get_group_item_index_loop_total (mlist (self st)) (GRole role)
              (groups (mlist (self st))) 0) as [role_item_index Hrii].
  { apply Forall_forall. intros g Hg. by apply keys_agree_group. }
  unfold get_group_item_index. rewrite Hrii. wp_steps.
  assert (Hsubs : exists subs,
            (match role_item_index with
             | Some i => lift_res (get_subs (self st) (IInt i))
             | None => ret []
             end) st = (Ok subs, st)).
  { destruct role_item_index as [i|]; [| by eexists].
    destruct (get_subs_loop_int (state (self st)) i) as (subs & Hsubs & _).
    exists subs. unfold lift_res, get_subs. by rewrite Hsubs. }
  destruct Hsubs as [subs Hsubs].
  eapply wp_of_eq; [exact Hsubs |]. cbv beta iota.
  rewrite Hidx. apply wp_bind, wp_modify. cbv beta iota. apply wp_bind.
  eapply wp_mono.
  { apply reassign_orphans_shape. simpl.
    apply elem_of_dom. rewrite Hkeys. by apply elem_of_list_to_set. }
  cbv beta. intros r s1 Hs1. simpl in Hs1.
  destruct r as [[]|e]; [| done].
  eapply wp_mono.
  { apply (keeps_wp shape). solve_shape. }
  cbv beta. intros _ s2 Hs2. by rewrite Hs2.
Qed.

Lemma group_removed (l l' : MemberList) (k : GroupID) idx :
  keys_agree l ->
  NoDup (map gid (groups l)) ->
  index_by_func (fun g => bool_decide (gid g = k)) (groups l) = Some idx ->
  groups l' = py_del idx (groups l) ->
  dom (data l') = dom (data l) ∖ {[k]} ->
  ~ is_group l' k /\ keys_agree l' /\ NoDup (map gid (groups l')).
Proof.
  intros Hkeys Hnd Hidx Hgs Hdom.
  destruct (py_del_group _ _ _ Hnd Hidx) as (Hnot & Hnd' & Hset).
  unfold is_group, keys_agree in *. by rewrite Hgs, Hdom, Hset, Hkeys.
Qed.

(** X17. [role_delete] of a group takes it out of the list: on an initialized
    list without two groups of the same id, where the keys of [data] are
    the ids of the groups, the role is no group afterwards, and the keys
    of [data] are again the ids of the groups, whether the call returns or
    raises. *)
Theorem role_delete_removes_group env (role : Z) (st : St) :
  initialized (mlist (self st)) = true ->
  keys_agree (mlist (self st)) ->
  NoDup (map gid (groups (mlist (self st)))) ->
  is_group (mlist (self st)) (GRole role) ->
  ~ is_group (mlist (self (snd (role_delete env role st)))) (GRole role)
  /\ keys_agree (mlist (self (snd (role_delete env role st))))
  /\ NoDup (map gid (groups (mlist (self (snd (role_delete env role st)))))).
Proof.
  intros Hinit Hkeys Hnd Hgroup.
  destruct (index_by_func_some _ _ Hgroup) as [idx Hidx].
  pose proof (role_delete_shape env role st idx Hinit Hkeys Hidx) as Hwp.
  unfold wp, shape in Hwp. injection Hwp as Hgs Hdom.
  by apply (group_removed (mlist (self st)) _ _ idx).
Qed.

Lemma role_delete_removes_group_witness :
  ~ is_group (mlist (self (snd (role_delete ex_env 5 ex_st_quiet)))) (GRole 5)
  /\ keys_agree (mlist (self (snd (role_delete ex_env 5 ex_st_quiet))))
  /\ NoDup (map gid (groups (mlist (self (snd (role_delete ex_env 5 ex_st_quiet)))))).
Proof.
  apply (role_delete_removes_group ex_env 5 ex_st_quiet).
  - vm_compute. reflexivity.
  - vm_compute. reflexivity.
  - apply (bool_decide_unpack _). vm_compute. reflexivity.
  - unfold is_group. apply (bool_decide_unpack _). vm_compute. reflexivity.
Defined.

Lemma initialized_regrouped (l l' : MemberList) :
  initialized l = true -> groups l' <> [] -> data l' = data l ->
  presences l' = presences l -> members l' = members l ->
  initialized l' = true.
Proof.
  unfold initialized. intros H Hgs -> -> ->.
  apply andb_true_iff in H as [H Hm]. apply andb_true_iff in H as [H Hp].
  apply andb_true_iff in H as [_ Hd]. rewrite Hd, Hp, Hm.
  by rewrite bool_decide_eq_false_2.
Qed.

Lemma index_by_func_gids (k : GroupID) (gs gs' : list GroupInfo) :
  map gid gs' = map gid gs ->
  index_by_func (fun g => bool_decide (gid g = k)) gs'
  = index_by_func (fun g => bool_decide (gid g = k)) gs.
Proof.
  revert gs'. induction gs as [|g gs IH]; intros [|g' gs'] Hgids; try done.
  simpl in Hgids. injection Hgids as Hg Hrest. simpl. rewrite Hg.
  by rewrite (IH gs' Hrest).
Qed.

(** X18. At an index above [0] the hoist flag counts: [role_update] of a role
    that is a group there and is no longer hoisted ends in [role_delete],
    and the role is no group afterwards (on an initialized list without
    two groups of the same id, where the keys of [data] are the ids of
    the groups). *)
Theorem role_update_unhoisted_removes_group env (role : Role) (st : St)
    (idx : nat) :
  initialized (mlist (self st)) = true ->
  keys_agree (mlist (self st)) ->
  NoDup (map gid (groups (mlist (self st)))) ->
  _get_role_as_group_idx (mlist (self st)) (role_id role) = Some (S idx) ->
  role_hoist role = false ->
  ~ is_group (mlist (self (snd (role_update env role st)))) (GRole (role_id role))
  /\ keys_agree (mlist (self (snd (role_update env role st)))).
Proof.
  intros Hinit Hkeys Hnd Hidx Hhoist.
  assert (Hidx' : index_by_func (fun g => bool_decide (gid g = GRole (role_id role)))
                    (groups (mlist (self st))) = Some (S idx)).
  { unfold _get_role_as_group_idx in Hidx. by rewrite Hinit in Hidx. }
  destruct (index_by_func_lookup _ _ _ Hidx') as (group & Hgroup & Hgid).
  apply bool_decide_eq_true in Hgid.
  set (gs := groups (mlist (self st))) in *.
  enough (Hwp : wp (role_update env role)
                   (fun _ s' => exists gs',
                      map gid gs' = map gid gs
                      /\ index_by_func (fun g => bool_decide (gid g = GRole (role_id role)))
                           gs' = Some (S idx)
                      /\ shape s'
                         = (py_del (S idx) gs',
                            dom (data (mlist (self st))) ∖ {[GRole (role_id role)]}))
                   st).
  { unfold wp in Hwp. destruct Hwp as (gs' & Hgids & Hidx'' & Hshape).
    unfold shape in Hshape. injection Hshape as Hgs Hdom.
    destruct (group_removed
                (set_groups_of gs' (mlist (self st)))
                (mlist (self (snd (role_update env role st))))
                (GRole (role_id role)) (S idx)) as (H1 & H2 & _); try done.
    - unfold keys_agree in *. simpl. by rewrite Hgids.
    - simpl. by rewrite Hgids. }
  unfold role_update. wp_steps. rewrite Hinit, Hidx, Hhoist. simpl. wp_steps.
  unfold group_at. fold gs. rewrite Hgroup. cbv beta iota. wp_steps.
  unfold _fetch_overwrites. wp_steps. simpl. fold gs.
  match goal with
  | |- context [<[S idx := ?g2]> (<[S idx := ?g1]> gs)] =>
      set (gs' := <[S idx := g2]> (<[S idx := g1]> gs))
  end.
  assert (Hgids : map gid gs' = map gid gs).
  { subst gs'. rewrite list_insert_insert_eq. apply list_eq. intros i.
    rewrite !list_lookup_fmap. destruct (decide (i = S idx)) as [->|Hne].
    - rewrite list_lookup_insert_eq by (by eapply lookup_lt_Some).
      by rewrite Hgroup.
    - by rewrite list_lookup_insert_ne. }
  assert (Hidx2 : index_by_func
                    (fun g => bool_decide (gid g = GRole (role_id role))) gs'
                  = Some (S idx)).
  { rewrite <- Hidx'. by apply index_by_func_gids. }
  assert (Hrun : forall s : St,
            initialized (mlist (self s)) = true ->
            groups (mlist (self s)) = gs' ->
            data (mlist (self s)) = data (mlist (self st)) ->
            wp (role_delete env (role_id role))
               (fun _ s' => exists gs'0,
                  map gid gs'0 = map gid gs
                  /\ index_by_func
                       (fun g => bool_decide (gid g = GRole (role_id role))) gs'0
                     = Some (S idx)
                  /\ shape s'
                     = (py_del (S idx) gs'0,
                        dom (data (mlist (self st))) ∖ {[GRole (role_id role)]}))
               s).
  { intros s Hi Hg Hd. eapply wp_mono.
    - apply (role_delete_shape env (role_id role) s (S idx) Hi).
      + unfold keys_agree in *. by rewrite Hd, Hg, Hgids.
      + by rewrite Hg.
    - cbv beta. intros _ s' Hs'. exists gs'. rewrite Hg, Hd in Hs'. done. }
  assert (Hne : gs' <> []).
  { intros Hnil. apply (f_equal (map gid)) in Hnil. rewrite Hgids in Hnil.
    apply lookup_lt_Some in Hgroup. apply (f_equal length) in Hnil.
    rewrite length_map in Hnil. simpl in Hnil. lia. }
  destruct (read_messages env _); simpl; apply Hrun; simpl; try done;
    by apply (initialized_regrouped (mlist (self st))).
Qed.

Lemma role_update_unhoisted_removes_group_witness :
  ~ is_group
      (mlist (self (snd (role_update ex_env (mkRole 5 "mods" false 1 1024)
                           ex_st_quiet))))
      (GRole 5)
  /\ keys_agree
       (mlist (self (snd (role_update ex_env (mkRole 5 "mods" false 1 1024)
                            ex_st_quiet)))).
Proof.
  apply (role_update_unhoisted_removes_group ex_env
           (mkRole 5 "mods" false 1 1024) ex_st_quiet 0).
  - vm_compute. reflexivity.
  - vm_compute. reflexivity.
  - apply (bool_decide_unpack _). vm_compute. reflexivity.
  - vm_compute. reflexivity.
  - reflexivity.
Defined.

(** ** Resyncing the sessions of an index *)

Lemma with_tasks_nil st : with_tasks [] st = st.
Proof. destruct st as [g [? ? ?]]. unfold with_tasks. simpl. by rewrite app_nil_r. Qed.

Lemma with_tasks_app d1 d2 st :
  with_tasks d2 (with_tasks d1 st) = with_tasks (d1 ++ d2) st.
Proof. unfold with_tasks. simpl. by rewrite app_assoc. Qed.

Lemma state_lookup_NoDup (st : list (string * gset (Z * Z))) (sid : string)
    (ranges : gset (Z * Z)) :
  NoDup (map fst st) -> (sid, ranges) ∈ st -> state_lookup st sid = Some ranges.
Proof.
  induction st as [|[k v] st IH]; simpl; intros Hnd Hin.
  { by apply elem_of_nil in Hin. }
  apply NoDup_cons in Hnd as [Hk Hnd]. rewrite state_lookup_cons.
  apply elem_of_cons in Hin as [[= -> ->] | Hin].
  - by rewrite bool_decide_eq_true_2.
  - rewrite bool_decide_eq_false_2; [by apply IH |].
    intros ->. apply Hk. apply list_elem_of_fmap. by exists (sid, ranges).
Qed.

Lemma first_range_found i (ranges : list (Z * Z)) :
  (exists range, range ∈ ranges /\ holds range i) ->
  exists range, first_range (IInt i) ranges = Ok (Some range)
                /\ range ∈ ranges /\ holds range i.
Proof.
  induction ranges as [|x ranges IH]; intros (range & Hin & Hh).
  { by apply elem_of_nil in Hin. }
  cbn [first_range]. rewrite in_range_int. simpl. case_bool_decide as Hx.
  - exists x. split; [done |]. split; [by left | done].
  - destruct IH as (r & Hr & Hrin & Hrh).
    { apply elem_of_cons in Hin as [-> | Hin]; [done |]. eauto. }
    exists r. split; [done |]. split; [by right | done].
Qed.

Lemma resync_subscribed (session_ids : list string) (i : Z) : forall st : St,
  NoDup (map fst (state (self st))) ->
  Forall (fun sid => exists ranges range,
            (sid, ranges) ∈ state (self st)
            /\ range ∈ ranges /\ holds range i) session_ids ->
  exists new_tasks,
    resync session_ids (IInt i) st = (Ok session_ids, with_tasks new_tasks st)
    /\ Forall2 (requery_of (self st) i) session_ids new_tasks.
Proof.
  induction session_ids as [|sid rest IH]; intros st Hnd Hall.
  { exists []. simpl. unfold ret. rewrite with_tasks_nil. by split. }
  inversion Hall as [|? ? (ranges & range & Hin & Hr & Hh) Hrest]; subst.
  pose proof (state_lookup_NoDup _ _ _ Hnd Hin) as Hlook.
  destruct (first_range_found i (elements ranges)) as (r & Hfirst & Hrin & Hhr).
  { exists range. split; [by apply elem_of_elements | done]. }
  apply elem_of_elements in Hrin.
  destruct (IH (with_tasks [mkTask (channel_id (self st)) sid [r]] st) Hnd Hrest)
    as (new_tasks & Hrun & Htasks).
  exists (mkTask (channel_id (self st)) sid [r] :: new_tasks). split.
  - apply wp_eq. cbn [resync]. apply wp_bind.
    unfold state_getitem. wp_steps. rewrite Hlook. wp_steps.
    rewrite Hfirst. cbv beta iota. wp_steps. unfold create_task. wp_steps.
    eapply wp_of_eq; [exact Hrun |]. cbv beta iota. wp_steps.
    simpl. by rewrite with_tasks_app.
  - constructor; [| exact Htasks]. by exists ranges, r.
Qed.

(** X19. [resync_by_item] for an int index, when no session has two entries:
    it returns the sessions [get_subs] gives for the index, in that order,
    and hands the event loop one task per such session, in the same
    order: the [shard_query] of that session for one range that is
    recorded for that very session and holds the index (which one, when
    several do, follows the iteration order of the set and is not fixed
    here). The list and the recorded ranges stay as they are. *)
Theorem resync_by_item_int (i : Z) (st : St) :
  NoDup (map fst (state (self st))) ->
  exists subs new_tasks,
    get_subs (self st) (IInt i) = Ok subs
    /\ resync_by_item (IInt i) st = (Ok subs, with_tasks new_tasks st)
    /\ Forall2 (requery_of (self st) i) subs new_tasks.
Proof.
  intros Hnd.
  destruct (get_subs_loop_int (state (self st)) i) as (subs & Hsubs & Hiff).
  destruct (resync_subscribed subs i st Hnd) as (new_tasks & Hrun & Htasks).
  { apply Forall_forall. intros sid Hsid. by apply Hiff. }
  exists subs, new_tasks. split; [exact Hsubs |]. split; [| done].
  apply wp_eq. unfold resync_by_item. wp_steps. unfold get_subs.
  rewrite Hsubs. cbv beta iota. by eapply wp_of_eq.
Qed.

(** The sessions ['s1'] and ['s2'] are re-queried, each once. *)
Example resync_by_item_sessions :
  fst (resync_by_item (IInt 2) ex_st_sessions) = Ok ["s1"; "s2"]
  /\ map task_session (tasks (outside (snd (resync_by_item (IInt 2) ex_st_sessions))))
     = ["s1"; "s2"].
Proof. vm_compute. split; reflexivity. Qed.

Lemma resync_by_item_int_witness :
  exists subs new_tasks,
    get_subs (self ex_st_sessions) (IInt 2) = Ok subs
    /\ resync_by_item (IInt 2) ex_st_sessions
       = (Ok subs, with_tasks new_tasks ex_st_sessions)
    /\ Forall2 (requery_of (self ex_st_sessions) 2) subs new_tasks.
Proof.
  apply (resync_by_item_int 2 ex_st_sessions).
  apply (bool_decide_unpack _). vm_compute. reflexivity.
Defined.

(** ** The paths of a presence update *)

(** X20. [_pres_update_simple] tells the right sessions the right thing: on an
    initialized list whose offline group is not empty, for a user who has
    an item index, it sends one [UPDATE] with that index and the user's
    own item (member merged with the stored presence) to every session
    that [get_subs] gives for the index and that has a connection state,
    returns those sessions, and changes nothing else. *)
Theorem pres_update_simple_sends_update env (user i : Z) (st : St)
    (its : list Item) :
  initialized (mlist (self st)) = true ->
  data (mlist (self st)) !! offline <> Some [] ->
  items (mlist (self st)) = Ok its ->
  get_item_index (mlist (self st)) user = Ok (Some i) ->
  exists item subs gc,
    get_member_as_item (mlist (self st)) user = Ok item
    /\ get_subs (self st) (IInt i) = Ok subs
    /\ groups_complete (mlist (self st)) = Ok gc
    /\ _pres_update_simple env user st
       = (Ok (omap (fetch_raw env) subs),
          with_sent
            (map (fun sid => mkDispatched sid "GUILD_MEMBER_LIST_UPDATE"
                               (update_payload (self st) gc i item))
                 (omap (fetch_raw env) subs))
            st).
Proof.
  intros Hinit Hoff Hits Hidx.
  assert (Hloop : items_loop (mlist (self st)) (groups (mlist (self st))) = Ok its).
  { unfold items in Hits. by rewrite Hinit in Hits. }
  destruct (get_item_index_loop_items _ _ _ 0 its i Hoff Hloop Hidx)
    as (item & Hitem & Hlt & Hlook).
  rewrite Z.sub_0_r in Hlook.
  destruct (get_subs_loop_int (state (self st)) i) as (subs & Hsubs & _).
  destruct (items_groups_complete _ _ Hinit Hits) as [gc Hgc].
  exists item, subs, gc. split; [done |]. split; [done |]. split; [done |].
  apply wp_eq. unfold _pres_update_simple. wp_steps.
  rewrite Hidx. cbv beta iota. wp_steps.
  unfold items_at. rewrite Hits. simpl.
  rewrite (py_getitem_lookup its i item) by (done || lia). cbv beta iota.
  wp_steps. unfold get_subs. rewrite Hsubs. cbv beta iota.
  eapply wp_of_eq; [by apply (dispatch_sess_run env subs _ st gc) |].
  reflexivity.
Qed.

Lemma pres_update_simple_sends_update_witness :
  exists item subs gc,
    get_member_as_item (mlist (self ex_st)) 10 = Ok item
    /\ get_subs (self ex_st) (IInt 1) = Ok subs
    /\ groups_complete (mlist (self ex_st)) = Ok gc
    /\ _pres_update_simple ex_env 10 ex_st
       = (Ok (omap (fetch_raw ex_env) subs),
          with_sent
            (map (fun sid => mkDispatched sid "GUILD_MEMBER_LIST_UPDATE"
                               (update_payload (self ex_st) gc 1 item))
                 (omap (fetch_raw ex_env) subs))
            ex_st).
Proof.
  apply (pres_update_simple_sends_update ex_env 10 1 ex_st ex_items).
  - vm_compute. reflexivity.
  - vm_compute. discriminate.
  - vm_compute. reflexivity.
  - vm_compute. reflexivity.
Defined.

Lemma keeps_self_dispatch_sess env session_ids operations :
  keeps self (_dispatch_sess env session_ids operations).
Proof.
  unfold _dispatch_sess.
  repeat first
    [ apply keeps_bind; [| intros ?]
    | apply keeps_gets | apply keeps_lift_res | apply keeps_ret
    | apply keeps_for_each; intros ?
    | done ].
Qed.

Lemma keeps_self_pres_update_simple env user :
  keeps self (_pres_update_simple env user).
Proof.
  unfold _pres_update_simple.
  repeat first
    [ apply keeps_self_dispatch_sess
    | apply keeps_bind; [| intros ?]
    | apply keeps_gets | apply keeps_lift_res | apply keeps_ret
    | match goal with |- keeps _ (match ?x with _ => _ end) => destruct x end ].
Qed.

(** X21. The other path of [pres_update]: for a user with a stored presence and
    a place in a group, a partial presence without a ['nick'] key that
    resolves to the group the user is in goes down [_pres_update_simple],
    called once the partial presence is merged into the stored one. No
    member moves and no re-query is handed to the event loop. *)
Theorem pres_update_same_group_takes_simple_path env (st : St) (user : Z)
    (r : nat) (p : Presence) (pp : PartialPresence) (old_group : GroupID)
    (old_index : Z) :
  initialized (mlist (self st)) = true ->
  presences (mlist (self st)) !! user = Some p ->
  objs (outside st) !! r = Some pp ->
  pp_nick pp = None ->
  find_old_group (mlist (self st)) user (groups (mlist (self st)))
  = Ok (Some (old_group, old_index)) ->
  gid_truthy old_group = true ->
  get_group_for_member env (self st) user
    (default (p_roles p) (pp_roles pp)) (default (p_status p) (pp_status pp))
  = Some old_group ->
  pres_update env user r st
  = _pres_update_simple env user (pres_update_merged st user r p pp)
  /\ data (mlist (self (snd (pres_update env user r st))))
     = data (mlist (self st))
  /\ tasks (outside (snd (pres_update env user r st))) = tasks (outside st).
Proof.
  intros Hinit Hp Hpp Hnick Hfind Htruthy Hgroup.
  set (l := mlist (self st)) in *.
  assert (Heq : pres_update env user r st
                = _pres_update_simple env user (pres_update_merged st user r p pp)).
  { apply wp_eq. unfold pres_update, _init_check. wp_steps. fold l.
    rewrite Hinit. simpl negb. cbv iota.
    wp_steps. fold l. unfold getitem at 1. rewrite Hp. cbv iota.
    unfold deref at 1. wp_steps. unfold getitem at 1. rewrite Hpp. cbv iota.
    unfold pop_nick, deref. wp_steps. unfold getitem at 1. simpl outside.
    rewrite Hpp. cbv iota. wp_steps.
    rewrite Hfind. cbv iota. rewrite Htruthy. simpl negb. cbv iota.
    wp_steps. unfold getitem at 1. simpl objs. rewrite lookup_insert_eq. cbv iota.
    wp_steps. simpl self. unfold getitem at 1. fold l. rewrite Hp. cbv iota.
    wp_steps. simpl pp_roles. simpl pp_status.
    change (get_group_for_member env _ user
              (default (p_roles p) (pp_roles pp))
              (default (p_status p) (pp_status pp)))
      with (get_group_for_member env (self st) user
              (default (p_roles p) (pp_roles pp))
              (default (p_status p) (pp_status pp))).
    rewrite Hgroup, Hnick.
    rewrite (bool_decide_eq_true_2 (Some old_group = Some old_group) eq_refl).
    rewrite (bool_decide_eq_false_2 (is_Some None)) by (by intros [? ?]).
    simpl. apply wp_refl. }
  split; [exact Heq |]. rewrite Heq. split.
  - by rewrite (keeps_self_pres_update_simple env user _).
  - assert (Hk : keeps (fun s => tasks (outside s)) (_pres_update_simple env user)).
    { unfold _pres_update_simple, _dispatch_sess. solve_keeps. }
    by rewrite Hk.
Qed.

Lemma pres_update_same_group_takes_simple_path_witness :
  pres_update ex_env 10 0 ex_st
  = _pres_update_simple ex_env 10
      (pres_update_merged ex_st 10 0 (mkPresence ex_alice "online" JNull JNull [])
         ex_partial_status)
  /\ data (mlist (self (snd (pres_update ex_env 10 0 ex_st))))
     = data (mlist (self ex_st))
  /\ tasks (outside (snd (pres_update ex_env 10 0 ex_st))) = tasks (outside ex_st).
Proof.
  apply (pres_update_same_group_takes_simple_path ex_env ex_st 10 0
           (mkPresence ex_alice "online" JNull JNull []) ex_partial_status
           online 0).
  - vm_compute. reflexivity.
  - vm_compute. reflexivity.
  - vm_compute. reflexivity.
  - reflexivity.
  - vm_compute. reflexivity.
  - reflexivity.
  - vm_compute. reflexivity.
Defined.

Lemma get_item_index_loop_total l user gs : forall base,
  Forall (fun group => is_Some (data l !! gid group)) gs ->
  exists r, get_item_index_loop l user base gs = Ok r.
Proof.
  induction gs as [|group gs IH]; intros base Hall; simpl; [by eexists |].
  inversion Hall as [|? ? [ids Hids] Hrest]; subst.
  apply getitem_ok in Hids. rewrite Hids. simpl.
  destruct (_ || _); [| by apply IH].
  destruct (py_index user ids); [by eexists | by apply IH].
Qed.

Lemma find_old_group_some l user gs old_group old_index :
  find_old_group l user gs = Ok (Some (old_group, old_index)) ->
  exists ids, data l !! old_group = Some ids /\ py_index user ids = Some old_index.
Proof.
  induction gs as [|g gs IH]; simpl; [done |]. intros H.
  apply res_bind_ok in H as (ids & Hids & H). apply getitem_ok in Hids.
  destruct (py_index user ids) as [i|] eqn:Hi; [| by apply IH].
  injection H as <- <-. eauto.
Qed.

Lemma py_remove_indexed user ids i :
  py_index user ids = Some i -> exists ids', py_remove user ids = Ok ids'.
Proof.
  revert i. induction ids as [|y ids IH]; simpl; intros i H; [done |].
  case_bool_decide; [by eexists |].
  destruct (py_index user ids) as [j|]; [| done].
  destruct (IH j eq_refl) as [ids' ->]. by eexists.
Qed.

(** X22. A member who loses the right to read the channel is dropped without a
    word: when the partial presence resolves to no group,
    [pres_update] takes the member out of the [data] of the old group and
    then raises [KeyError] at [self.list.data[None]]; nothing is sent and
    no re-query is handed to the event loop. *)
Theorem pres_update_unreadable_member_dropped env (st : St) (user : Z)
    (r : nat) (p : Presence) (pp : PartialPresence) (old_group : GroupID)
    (old_index : Z) :
  initialized (mlist (self st)) = true ->
  groups_have_data (mlist (self st)) ->
  presences (mlist (self st)) !! user = Some p ->
  objs (outside st) !! r = Some pp ->
  find_old_group (mlist (self st)) user (groups (mlist (self st)))
  = Ok (Some (old_group, old_index)) ->
  gid_truthy old_group = true ->
  get_group_for_member env (self st) user
    (default (p_roles p) (pp_roles pp)) (default (p_status p) (pp_status pp))
  = None ->
  exists ids ids',
    data (mlist (self st)) !! old_group = Some ids
    /\ py_remove user ids = Ok ids'
    /\ pres_update env user r st
       = (Raise KeyError,
          with_data (<[old_group := ids']> (data (mlist (self st))))
                    (pres_update_merged st user r p pp)).
Proof.
  intros Hinit Hdata Hp Hpp Hfind Htruthy Hgroup.
  set (l := mlist (self st)) in *.
  destruct (find_old_group_some _ _ _ _ _ Hfind) as (ids & Hids & Hindex).
  destruct (py_remove_indexed _ _ _ Hindex) as [ids' Hremove].
  exists ids, ids'. split; [done |]. split; [done |].
  apply wp_eq. unfold pres_update, _init_check. wp_steps. fold l.
  rewrite Hinit. simpl negb. cbv iota.
  wp_steps. fold l. unfold getitem at 1. rewrite Hp. cbv iota.
  unfold deref at 1. wp_steps. unfold getitem at 1. rewrite Hpp. cbv iota.
  unfold pop_nick, deref. wp_steps. unfold getitem at 1. simpl outside.
  rewrite Hpp. cbv iota. wp_steps.
  rewrite Hfind. cbv iota. rewrite Htruthy. simpl negb. cbv iota.
  wp_steps. unfold getitem at 1. simpl objs. rewrite lookup_insert_eq. cbv iota.
  wp_steps. simpl self. unfold getitem at 1. fold l. rewrite Hp. cbv iota.
  wp_steps. simpl pp_roles. simpl pp_status.
  change (get_group_for_member env _ user
            (default (p_roles p) (pp_roles pp))
            (default (p_status p) (pp_status pp)))
    with (get_group_for_member env (self st) user
            (default (p_roles p) (pp_roles pp))
            (default (p_status p) (pp_status pp))).
  rewrite Hgroup.
  rewrite (bool_decide_eq_false_2 (Some old_group = None)) by done.
  simpl andb. cbv iota.
  unfold _pres_update_complex. wp_steps. simpl mlist.
  unfold get_item_index, get_group_item_index.
  match goal with |- context [get_item_index_loop ?l' user 1 ?gs] =>
    destruct (get_item_index_loop_total l' user gs 1) as [oui ->]; [exact Hdata |]
  end.
  cbv beta iota. wp_steps.
  match goal with |- context [get_group_item_index_loop ?l' old_group 0 ?gs] =>
    destruct (get_group_item_index_loop_total l' old_group gs 0) as [ogi ->];
      [exact Hdata |]
  end.
  cbv beta iota. wp_steps. unfold data_remove. wp_steps. simpl.
  unfold getitem. fold l. rewrite Hids. cbv beta iota. wp_steps.
  rewrite Hremove. cbv beta iota. wp_steps.
  unfold data_append. wp_steps. reflexivity.
Qed.

Lemma pres_update_unreadable_member_dropped_witness :
  exists ids ids',
    data (mlist (self ex_st_private)) !! offline = Some ids
    /\ py_remove 20 ids = Ok ids'
    /\ pres_update ex_env_private 20 0 ex_st_private
       = (Raise KeyError,
          with_data (<[offline := ids']> (data (mlist (self ex_st_private))))
            (pres_update_merged ex_st_private 20 0
               (mkPresence ex_bob "offline" JNull JNull []) ex_partial_status)).
Proof.
  apply (pres_update_unreadable_member_dropped ex_env_private ex_st_private 20 0
           (mkPresence ex_bob "offline" JNull JNull []) ex_partial_status
           offline 0).
  - vm_compute. reflexivity.
  - repeat constructor; vm_compute; by eexists.
  - vm_compute. reflexivity.
  - vm_compute. reflexivity.
  - vm_compute. reflexivity.
  - reflexivity.
  - vm_compute. reflexivity.
Defined.

(** ** Counting items, and the group of a member *)

Lemma items_loop_count l gs : forall its gc,
  items_loop l gs = Ok its ->
  groups_complete_loop l gs = Ok gc ->
  len its = item_count gc.
Proof.
  induction gs as [|group gs IH]; intros its gc Hits Hgc; simpl in *.
  { injection Hits as <-. by injection Hgc as <-. }
  destruct (getitem (data l) (gid group)) as [ids|e]; [| done]. simpl in *.
  destruct ids as [|id ids].
  - case_bool_decide; simpl in Hgc.
    + apply res_bind_ok in Hgc as (tail & Htail & Hgc). injection Hgc as <-.
      simpl. by apply IH.
    + by apply IH.
  - rewrite orb_true_r in Hgc.
    apply res_bind_ok in Hgc as (gtail & Hgtail & Hgc). injection Hgc as <-.
    apply res_bind_ok in Hits as (ms & Hms & Hits).
    apply res_bind_ok in Hits as (tail & Htail & Hits). injection Hits as <-.
    pose proof (res_mapM_length _ _ _ Hms) as Hlen.
    pose proof (IH _ _ Htail Hgtail) as Hrest.
    cbn [item_count foldr snd]. fold (item_count gtail).
    rewrite <- Hrest. unfold len in *. simpl length in *.
    rewrite length_app.
    destruct (Z.eqb_spec (Z.of_nat (S (length ids))) 0); lia.
Qed.

(** X23. The groups of a payload account for the item sequence: on an
    initialized list, the number of items is a header plus the member
    count for every group that [groups_complete] lists with members; the
    offline group listed with count [0] stands for no item. *)
Theorem items_counted_by_groups_complete (l : MemberList) (its : list Item)
    (gc : list (GroupInfo * Z)) :
  initialized l = true ->
  items l = Ok its ->
  groups_complete l = Ok gc ->
  len its = item_count gc.
Proof.
  intros Hinit Hits Hgc. unfold items in Hits. rewrite Hinit in Hits.
  by apply (items_loop_count l (groups l)).
Qed.

Lemma items_counted_by_groups_complete_witness :
  len ex_items
  = item_count [ (mkGroupInfo online "online" 251 0, 1);
                 (mkGroupInfo offline "offline" 252 0, 1) ].
Proof.
  apply (items_counted_by_groups_complete ex_list).
  - vm_compute. reflexivity.
  - vm_compute. reflexivity.
  - vm_compute. reflexivity.
Defined.

Lemma find_first_of_sorted roles (gs : list GroupInfo) :
  StronglySorted position_ge gs ->
  match List.find (fun g => gid_in_roles (gid g) roles) gs with
  | Some g =>
      g ∈ gs /\ gid_in_roles (gid g) roles = true
      /\ forall g', g' ∈ gs -> gid_in_roles (gid g') roles = true ->
                    position g' <= position g
  | None => forall g, g ∈ gs -> gid_in_roles (gid g) roles = false
  end.
Proof.
  induction 1 as [|g gs Hs IH Hall]; simpl.
  { intros g Hg. by apply elem_of_nil in Hg. }
  destruct (gid_in_roles (gid g) roles) eqn:Hg.
  - split; [by left |]. split; [done |]. intros g' Hg' _.
    apply elem_of_cons in Hg' as [-> | Hg']; [lia |].
    rewrite Forall_forall in Hall. by apply Hall.
  - destruct (List.find _ gs) as [g1|].
    + destruct IH as (Hin & Hroles & Hmax). split; [by right |].
      split; [done |]. intros g' Hg' Hr.
      apply elem_of_cons in Hg' as [-> | Hg']; [congruence | by apply Hmax].
    + intros g' Hg'. apply elem_of_cons in Hg' as [-> | Hg']; [done | by apply IH].
Qed.

Lemma find_app_synthetic roles (gs : list GroupInfo) :
  List.find (fun g => gid_in_roles (gid g) roles) (gs ++ synthetic_groups)
  = List.find (fun g => gid_in_roles (gid g) roles) gs.
Proof.
  induction gs as [|g gs IH]; simpl; [done |].
  by destruct (gid_in_roles (gid g) roles).
Qed.

(** X24. A member goes under the highest of their hoisted roles: when the
    groups are role groups sorted by position descending, followed by
    ['online'] and ['offline'] (as [set_groups] leaves them),
    [_calc_member_group] gives the role group of highest position among
    those whose role the member has, and the status group when the member
    has none of the roles. *)
Theorem calc_member_group_highest_role (l : MemberList) (roles : list Z)
    (status : string) (role_groups : list GroupInfo) :
  groups l = role_groups ++ synthetic_groups ->
  StronglySorted position_ge role_groups ->
  ((forall g, g ∈ role_groups -> gid_in_roles (gid g) roles = false) ->
   _calc_member_group l roles status = _to_simple_group status)
  /\ ((exists g, g ∈ role_groups /\ gid_in_roles (gid g) roles = true) ->
      exists g,
        g ∈ role_groups
        /\ gid_in_roles (gid g) roles = true
        /\ _calc_member_group l roles status = gid g
        /\ forall g', g' ∈ role_groups -> gid_in_roles (gid g') roles = true ->
                      position g' <= position g).
Proof.
  intros Hgroups Hsorted. unfold _calc_member_group.
  rewrite Hgroups, find_app_synthetic.
  pose proof (find_first_of_sorted roles role_groups Hsorted) as Hfind.
  destruct (List.find _ role_groups) as [g|]; split.
  - intros Hnone. destruct Hfind as (Hin & Hr & _).
    rewrite (Hnone g Hin) in Hr. done.
  - intros _. exists g. destruct Hfind as (Hin & Hr & Hmax). done.
  - done.
  - intros (g & Hin & Hr). rewrite (Hfind g Hin) in Hr. done.
Qed.

(** A helper who is also a mod is listed under mods; a member with none
    of the roles under the status. *)
Example calc_member_group_of_helper_and_mod :
  _calc_member_group ex_list_roles [6; 5] "online" = GRole 5
  /\ _calc_member_group ex_list_roles [8] "online" = online.
Proof. vm_compute. split; reflexivity. Qed.

Lemma calc_member_group_highest_role_witness :
  exists g,
    g ∈ ex_role_groups
    /\ gid_in_roles (gid g) [6; 5] = true
    /\ _calc_member_group ex_list_roles [6; 5] "online" = gid g
    /\ forall g', g' ∈ ex_role_groups ->
                  gid_in_roles (gid g') [6; 5] = true ->
                  position g' <= position g.
Proof.
  assert (Hsorted : StronglySorted position_ge ex_role_groups).
  { unfold ex_role_groups. repeat constructor; unfold position_ge; simpl; lia. }
  apply (proj2 (calc_member_group_highest_role ex_list_roles [6; 5] "online"
                  ex_role_groups eq_refl Hsorted)).
  exists (mkGroupInfo (GRole 6) "helpers" 1 1024). split.
  - unfold ex_role_groups. right. right. left.
  - reflexivity.
Defined.

(** ** When the item sequence is defined; ranges that are passed over *)

Lemma get_member_as_item_ok l member_id :
  (exists item, get_member_as_item l member_id = Ok item)
  <-> member_complete l member_id.
Proof.
  unfold get_member_as_item, member_complete, getitem, merge.
  destruct (members l !! member_id) as [[m|]|]; simpl;
    destruct (presences l !! member_id) as [p|]; simpl; split;
    try (by intros [? ?]); try (by intros [[? ?] [? ?]]).
  - intros _. split; by eexists.
  - intros _. by eexists.
Qed.

Lemma res_mapM_defined {A B} (f : A -> Res B) l :
  (exists ys, res_mapM f l = Ok ys) <-> Forall (fun x => exists y, f x = Ok y) l.
Proof.
  split; [| apply res_mapM_ok]. intros [ys H].
  apply res_mapM_Forall2 in H. induction H; constructor; eauto.
Qed.

Lemma items_loop_defined l gs :
  (exists its, items_loop l gs = Ok its) <-> listed_members_complete l gs.
Proof.
  unfold listed_members_complete. induction gs as [|group gs IH]; simpl.
  { split; [constructor | by eexists]. }
  rewrite Forall_cons, <- IH. unfold getitem.
  destruct (data l !! gid group) as [ids|]; simpl.
  2:{ split; [by intros [? ?] | by intros [(? & ? & _) _]]. }
  destruct ids as [|id ids].
  - split; [intros H; split; [by exists [] | done] | by intros [_ H]].
  - pose proof (res_mapM_defined (get_member_as_item l) (id :: ids)) as Hmap.
    setoid_rewrite get_member_as_item_ok in Hmap.
    destruct (res_mapM (get_member_as_item l) (id :: ids)) as [ms|e] eqn:Hms;
      simpl.
    + assert (Hall : Forall (member_complete l) (id :: ids))
        by (apply Hmap; by eexists).
      destruct (items_loop l gs) as [tail|e]; simpl; split.
      * intros _. split; [by eexists | by eexists].
      * intros _. by eexists.
      * by intros [? ?].
      * by intros [_ [? ?]].
    + split; [by intros [? ?] |]. intros [(ids' & [= <-] & Hall) _].
      apply Hmap in Hall as [? ?]. done.
Qed.

(** X25. When [items] is defined: on an initialized list the item sequence can
    be built exactly when every group has its [data] list and, for every
    member id in those lists, member data (not [None]) and a presence are
    stored; otherwise [items] raises. *)
Theorem items_defined_iff (l : MemberList) :
  initialized l = true ->
  (exists its, items l = Ok its) <-> listed_members_complete l (groups l).
Proof.
  intros Hinit. unfold items. rewrite Hinit. simpl. apply items_loop_defined.
Qed.

Lemma items_defined_iff_witness :
  (exists its, items ex_list = Ok its)
  <-> listed_members_complete ex_list (groups ex_list).
Proof.
  apply (items_defined_iff ex_list). vm_compute. reflexivity.
Defined.

Lemma filter_backward (ranges : list (Z * Z)) :
  Forall (fun range => snd range < fst range) ranges ->
  List.filter range_ok ranges = [].
Proof.
  induction 1 as [|r ranges Hr _ IH]; [done |]. simpl. unfold range_ok at 1.
  destruct (Z.ltb_spec (snd r - fst r) 0); [done | lia].
Qed.

(** X26. Ranges that end before they start are passed over: a request made of
    such ranges only is answered, on an initialized list, with a payload
    that has no operation, and it records nothing - the session does not
    even get an entry in [self.state]. *)
Theorem shard_query_ignores_backward_ranges env (sid : string)
    (ranges : list (Z * Z)) (st : St) (its : list Item) :
  initialized (mlist (self st)) = true ->
  items (mlist (self st)) = Ok its ->
  Forall (fun range => snd range < fst range) ranges ->
  exists gc,
    groups_complete (mlist (self st)) = Ok gc
    /\ shard_query_here env sid ranges st
       = (Ok tt,
          with_sent
            (map (fun s => mkDispatched s "GUILD_MEMBER_LIST_UPDATE"
                             (payload_of (self st) gc []))
                 (omap (fetch_raw env) [sid]))
            st).
Proof.
  intros Hinit Hits Hback.
  destruct (shard_query_here_ok env sid ranges st its Hinit Hits)
    as (gc & Hgc & Hrun).
  exists gc. split; [done |]. rewrite Hrun. unfold add_ranges.
  rewrite (filter_backward ranges Hback). simpl. by rewrite with_state_id.
Qed.

Lemma shard_query_ignores_backward_ranges_witness :
  exists gc,
    groups_complete (mlist (self ex_st)) = Ok gc
    /\ shard_query_here ex_env "s2" [(3, 0)] ex_st
       = (Ok tt,
          with_sent
            (map (fun s => mkDispatched s "GUILD_MEMBER_LIST_UPDATE"
                             (payload_of (self ex_st) gc []))
                 (omap (fetch_raw ex_env) ["s2"]))
            ex_st).
Proof.
  apply (shard_query_ignores_backward_ranges ex_env "s2" [(3, 0)] ex_st ex_items).
  - vm_compute. reflexivity.
  - vm_compute. reflexivity.
  - repeat constructor.
Defined.

(** ** Moving a member between groups *)

Lemma keeps_list_state_getitem sid :
  keeps (fun s : St => mlist (self s)) (state_getitem sid).
Proof.
  intros s. unfold state_getitem, bind, get_self, gets. simpl.
  by destruct (state_lookup (state (self s)) sid).
Qed.

Lemma keeps_list_resync session_ids item_index :
  keeps (fun s : St => mlist (self s)) (resync session_ids item_index).
Proof.
  induction session_ids as [|sid rest IH]; simpl; [done |].
  apply keeps_bind; [apply keeps_list_state_getitem | intros ranges].
  apply keeps_bind; [apply keeps_lift_res | intros [r|]]; [| done].
  apply keeps_bind; [done | intros _].
  apply keeps_bind; [done | intros ?]. done.
Qed.

(** X27. [_pres_update_complex] moves the member and loses nobody: once the
    member is taken out of the old group and put at the end of the new
    one, [data] is only reordered within its lists, whether the rest of
    the call returns or raises; groups, presences, members and overwrites
    stay as they are. *)
Theorem pres_update_complex_moves_member (user : Z) (old_group new_group : GroupID)
    (rel_index : Z) (st : St) (ids ids' ids_new : list Z) :
  groups_have_data (mlist (self st)) ->
  data (mlist (self st)) !! old_group = Some ids ->
  py_remove user ids = Ok ids' ->
  <[old_group := ids']> (data (mlist (self st))) !! new_group = Some ids_new ->
  exists d',
    mlist (self (snd (_pres_update_complex user old_group rel_index
                        (Some new_group) st)))
    = set_data d' (mlist (self st))
    /\ same_members
         (moved_member user old_group new_group ids' ids_new
            (data (mlist (self st))))
         d'.
Proof.
  intros Hdata Hids Hremove Hnew.
  change (wp (_pres_update_complex user old_group rel_index (Some new_group))
             (fun _ s' => exists d',
                mlist (self s') = set_data d' (mlist (self st))
                /\ same_members
                     (moved_member user old_group new_group ids' ids_new
                        (data (mlist (self st)))) d') st).
  unfold _pres_update_complex. apply wp_bind, wp_gets. cbv beta iota.
  unfold get_item_index, get_group_item_index.
  destruct (get_item_index_loop_total (mlist (self st)) user
              (groups (mlist (self st))) 1 Hdata) as [oui ->].
  apply wp_bind, wp_lift_res. cbv beta iota.
  destruct (get_group_item_index_loop_total (mlist (self st)) old_group
              (groups (mlist (self st))) 0 Hdata) as [ogi ->].
  apply wp_bind, wp_lift_res. cbv beta iota.
  apply wp_bind. unfold data_remove. wp_steps. unfold getitem.
  rewrite Hids. cbv beta iota. wp_steps. rewrite Hremove. cbv beta iota.
  wp_steps. apply wp_bind. unfold data_append. wp_steps. simpl.
  unfold getitem. rewrite Hnew. cbv beta iota. wp_steps.
  fold (moved_member user old_group new_group ids' ids_new
          (data (mlist (self st)))).
  match goal with |- wp _sort_groups _ ?s =>
    destruct (sort_groups_reorders s) as (d' & Hsort & Hsame); set (s1 := s) in *
  end.
  unfold wp at 1. rewrite Hsort.
  assert (Hend : forall (A : Type) (m : M St A),
            keeps (fun s : St => mlist (self s)) m ->
            wp m (fun _ s' => exists d'0,
                    mlist (self s') = set_data d'0 (mlist (self st))
                    /\ same_members
                         (moved_member user old_group new_group ids' ids_new
                            (data (mlist (self st)))) d'0)
               (with_data d' s1)).
  { intros A m Hm. eapply wp_mono; [apply (keeps_wp _ m _ Hm) |].
    cbv beta. intros _ s' ->. exists d'. split; [| exact Hsame].
    by destruct st as [[? ? [] ?] ?]. }
  destruct (fst (_sort_groups s1)) as [[]|e].
  2:{ exists d'. split; [| exact Hsame]. by destruct st as [[? ? [] ?] ?]. }
  apply Hend.
  repeat first
    [ apply keeps_list_resync
    | apply keeps_bind; [| intros ?]
    | apply keeps_gets | apply keeps_lift_res | apply keeps_ret
    | apply keeps_raise
    | match goal with |- keeps _ (match ?x with _ => _ end) => destruct x end ].
Qed.

Lemma pres_update_complex_moves_member_witness :
  exists d',
    mlist (self (snd (_pres_update_complex 20 offline 0 (Some online) ex_st)))
    = set_data d' (mlist (self ex_st))
    /\ same_members
         (moved_member 20 offline online [] [10] (data (mlist (self ex_st))))
         d'.
Proof.
  apply (pres_update_complex_moves_member 20 offline online 0 ex_st [20] [] [10]).
  - repeat constructor; vm_compute; by eexists.
  - vm_compute. reflexivity.
  - vm_compute. reflexivity.
  - vm_compute. reflexivity.
Defined.

(** ** A nickname update is resynced *)

Lemma get_item_index_loop_found l user gs : forall base,
  Forall (fun group => is_Some (data l !! gid group)) gs ->
  (exists g ids, g ∈ gs /\ data l !! gid g = Some ids /\ user ∈ ids) ->
  exists i, get_item_index_loop l user base gs = Ok (Some i).
Proof.
  induction gs as [|group gs IH]; intros base Hall (g & ids & Hg & Hids & Hin).
  { by apply elem_of_nil in Hg. }
  inversion Hall as [|? ? [ids0 Hids0] Hrest]; subst.
  simpl. unfold getitem. rewrite Hids0. simpl.
  assert (Hnext : forall base', py_index user ids0 = None ->
            exists i, get_item_index_loop l user base' gs = Ok (Some i)).
  { intros base' Hnone. apply IH; [done |]. exists g, ids.
    apply elem_of_cons in Hg as [-> | Hg]; [| done].
    rewrite Hids in Hids0. injection Hids0 as <-.
    destruct (py_index_elem _ _ Hin) as [i Hi]. congruence. }
  destruct (_ || _) eqn:Hyield.
  - destruct (py_index user ids0) as [rel|] eqn:Hrel; [by eexists |].
    by apply Hnext.
  - apply Hnext. apply orb_false_iff in Hyield as [_ Hempty].
    apply negb_false_iff, Z.eqb_eq in Hempty. unfold len in Hempty.
    destruct ids0; [done | simpl in Hempty; lia].
Qed.

Lemma py_remove_elem user ids :
  user ∈ ids ->
  exists ids', py_remove user ids = Ok ids'
               /\ (forall x, x ∈ ids' -> x ∈ ids)
               /\ (forall x, x ∈ ids -> x <> user -> x ∈ ids').
Proof.
  induction ids as [|y ids IH]; intros Hin; [by apply elem_of_nil in Hin |].
  simpl. case_bool_decide as Hy.
  - exists ids. split; [done |]. split.
    + intros x Hx. by right.
    + intros x Hx Hne. apply elem_of_cons in Hx as [-> | Hx]; [done | done].
  - apply elem_of_cons in Hin as [-> | Hin]; [done |].
    destruct (IH Hin) as (ids' & -> & Hsub & Hkeep). simpl.
    exists (y :: ids'). split; [done |]. split.
    + intros x [-> | Hx]%elem_of_cons; [by left | right; by apply Hsub].
    + intros x [-> | Hx]%elem_of_cons Hne; [by left | right; by apply Hkeep].
Qed.

Lemma with_data_with_data d1 d2 (s : St) :
  with_data d2 (with_data d1 s) = with_data d2 s.
Proof. done. Qed.

Lemma data_remove_run group user (s : St) ids ids' :
  data (mlist (self s)) !! group = Some ids ->
  py_remove user ids = Ok ids' ->
  data_remove group user s
  = (Ok tt, with_data (<[group := ids']> (data (mlist (self s)))) s).
Proof.
  intros Hids Hrem. apply wp_eq. unfold data_remove. wp_steps.
  unfold getitem. rewrite Hids. cbv beta iota. wp_steps. rewrite Hrem.
  cbv beta iota. wp_steps. reflexivity.
Qed.

Lemma data_append_run group user (s : St) ids :
  data (mlist (self s)) !! group = Some ids ->
  data_append (Some group) user s
  = (Ok tt, with_data (<[group := ids ++ [user]]> (data (mlist (self s)))) s).
Proof.
  intros Hids. apply wp_eq. unfold data_append. wp_steps.
  unfold getitem. rewrite Hids. cbv beta iota. wp_steps. reflexivity.
Qed.

Lemma same_members_lookup_r d d' k (xs' : list Z) :
  same_members d d' -> d' !! k = Some xs' ->
  exists xs, d !! k = Some xs /\ xs ≡ₚ xs'.
Proof.
  intros H Hk. specialize (H k). rewrite Hk in H.
  inversion H as [xs ? Hperm Heq |]; subst. by exists xs.
Qed.

Lemma same_members_lookup_l d d' k (xs : list Z) :
  same_members d d' -> d !! k = Some xs ->
  exists xs', d' !! k = Some xs' /\ xs ≡ₚ xs'.
Proof.
  intros H Hk. specialize (H k). rewrite Hk in H.
  inversion H as [? xs' Hperm Heq Heq' |]; subst. by exists xs'.
Qed.

Lemma initialized_with_data (l : MemberList) (d' : gmap GroupID (list Z)) k :
  initialized l = true -> is_Some (d' !! k) ->
  initialized (set_data d' l) = true.
Proof.
  unfold initialized. simpl. intros H [xs Hk].
  apply andb_true_iff in H as [H Hm]. apply andb_true_iff in H as [H Hp].
  apply andb_true_iff in H as [Hg _]. rewrite Hg, Hp, Hm. simpl.
  unfold map_truthy. rewrite bool_decide_eq_false_2; [done |].
  intros Hsize. apply map_size_empty_inv in Hsize. rewrite Hsize in Hk.
  by rewrite lookup_empty in Hk.
Qed.

Lemma well_listed_elem l k ids id :
  well_listed l -> data l !! k = Some ids -> id ∈ ids ->
  id <> 0 /\ member_complete l id.
Proof.
  intros Hwell Hk Hid. specialize (Hwell k ids Hk). simpl in Hwell.
  rewrite Forall_forall in Hwell. by apply Hwell.
Qed.

(** What the move of a member leaves in [data], before the lists are
    sorted again. *)
Lemma moved_data_facts (d : gmap GroupID (list Z)) (user : Z)
    (og ng : GroupID) (ids ids' : list Z) :
  d !! og = Some ids -> user ∈ ids ->
  (forall x, x ∈ ids' -> x ∈ ids) ->
  (forall x, x ∈ ids -> x <> user -> x ∈ ids') ->
  is_Some (d !! ng) ->
  (forall xs, d !! offline = Some xs -> exists other, other ∈ xs /\ other <> user) ->
  exists ids_new,
    <[og := ids']> d !! ng = Some ids_new
    /\ let d2 := moved_member user og ng ids' ids_new d in
       (forall k xs x, d2 !! k = Some xs -> x ∈ xs ->
                       exists k0 xs0, d !! k0 = Some xs0 /\ x ∈ xs0)
       /\ (forall k, is_Some (d2 !! k) <-> is_Some (d !! k))
       /\ d2 !! ng = Some (ids_new ++ [user])
       /\ d2 !! offline <> Some [].
Proof.
  intros Hids Hin Hsub Hkeep [xsng Hng] Hoff.
  assert (Hnew : exists ids_new,
            <[og := ids']> d !! ng = Some ids_new
            /\ forall x, x ∈ ids_new -> exists k xs, d !! k = Some xs /\ x ∈ xs).
  { destruct (decide (ng = og)) as [->|Hne].
    - exists ids'. rewrite lookup_insert_eq. split; [done |].
      intros x Hx. exists og, ids. split; [done | by apply Hsub].
    - exists xsng. rewrite lookup_insert_ne by done. split; [done |].
      intros x Hx. by exists ng, xsng. }
  destruct Hnew as (ids_new & Hnew & Hlisted).
  exists ids_new. split; [done |]. unfold moved_member. cbv zeta.
  split; [| split; [| split]].
  - intros k xs x Hk Hx. destruct (decide (k = ng)) as [->|Hkng].
    + rewrite lookup_insert_eq in Hk. injection Hk as <-.
      apply elem_of_app in Hx as [Hx | Hx]; [by apply Hlisted |].
      apply list_elem_of_singleton in Hx as ->. by exists og, ids.
    + rewrite lookup_insert_ne in Hk by done.
      destruct (decide (k = og)) as [->|Hkog].
      * rewrite lookup_insert_eq in Hk. injection Hk as <-.
        exists og, ids. split; [done | by apply Hsub].
      * rewrite lookup_insert_ne in Hk by done. eauto.
  - intros k. destruct (decide (k = ng)) as [->|Hkng].
    + rewrite lookup_insert_eq. split; [by eexists | by eexists].
    + rewrite lookup_insert_ne by done.
      destruct (decide (k = og)) as [->|Hkog].
      * rewrite lookup_insert_eq. split; [by eexists | by eexists].
      * by rewrite lookup_insert_ne.
  - by rewrite lookup_insert_eq.
  - destruct (decide (offline = ng)) as [<-|Hkng].
    + rewrite lookup_insert_eq. intros [= H]. by destruct ids_new.
    + rewrite lookup_insert_ne by done.
      destruct (decide (offline = og)) as [<-|Hkog].
      * rewrite lookup_insert_eq. intros [= ->].
        destruct (Hoff ids Hids) as (other & Hother & Hne).
        specialize (Hkeep other Hother Hne). by apply elem_of_nil in Hkeep.
      * rewrite lookup_insert_ne by done. intros H.
        destruct (Hoff [] H) as (other & Hother & _).
        by apply elem_of_nil in Hother.
Qed.

(** The complex path, run to its end on a well-formed list. *)
Lemma pres_update_complex_resyncs (user : Z) (og ng : GroupID) (oi : Z)
    (s : St) (ids : list Z) :
  initialized (mlist (self s)) = true ->
  keys_agree (mlist (self s)) ->
  well_listed (mlist (self s)) ->
  NoDup (map fst (state (self s))) ->
  offline_kept (mlist (self s)) user ->
  data (mlist (self s)) !! og = Some ids -> user ∈ ids ->
  is_group (mlist (self s)) ng ->
  exists oui nui subs_old subs_new tasks_old tasks_new d',
    get_item_index (mlist (self s)) user = Ok (Some oui)
    /\ get_item_index (set_data d' (mlist (self s))) user = Ok (Some nui)
    /\ get_subs (self s) (IInt oui) = Ok subs_old
    /\ get_subs (self s) (IInt nui) = Ok subs_new
    /\ _pres_update_complex user og oi (Some ng) s
       = (Ok (subs_old ++ subs_new),
          with_tasks (tasks_old ++ tasks_new) (with_data d' s))
    /\ Forall2 (requery_of (self s) oui) subs_old tasks_old
    /\ Forall2 (requery_of (self s) nui) subs_new tasks_new.
Proof.
  intros Hinit Hkeys Hwell Hnd Hoff Hids Hin Hng.
  set (l := mlist (self s)) in *. set (d := data l) in *.
  assert (Hdata : Forall (fun g => is_Some (d !! gid g)) (groups l)).
  { apply Forall_forall. intros g Hg. by apply keys_agree_group. }
  assert (Hkey : forall k, is_Some (d !! k) -> exists g, g ∈ groups l /\ gid g = k).
  { intros k Hk. apply elem_of_dom in Hk. unfold keys_agree in Hkeys.
    fold d in Hkeys. rewrite Hkeys in Hk.
    apply elem_of_list_to_set, list_elem_of_fmap in Hk as (g & -> & Hg). eauto. }
  assert (Hngd : is_Some (d !! ng)).
  { apply elem_of_dom. unfold keys_agree in Hkeys. fold d in Hkeys.
    rewrite Hkeys. by apply elem_of_list_to_set. }
  destruct (Hkey og) as (g_old & Hg_old & Hgid_old); [by eexists |].
  destruct (get_item_index_loop_found l user (groups l) 1 Hdata) as [oui Houi].
  { exists g_old, ids. by rewrite Hgid_old. }
  destruct (get_group_item_index_loop_total l og (groups l) 0 Hdata)
    as [ogi Hogi].
  destruct (py_remove_elem user ids Hin) as (ids' & Hrem & Hsub & Hkeep).
  destruct (moved_data_facts d user og ng ids ids' Hids Hin Hsub Hkeep Hngd Hoff)
    as (ids_new & Hnew & F1 & F2 & F3 & F4).
  set (d1 := <[og := ids']> d) in *.
  set (d2 := moved_member user og ng ids' ids_new d) in *. cbv zeta in F1.
  (* the three steps that change [data] *)
  assert (Hrun1 : data_remove og user s = (Ok tt, with_data d1 s)).
  { by apply (data_remove_run og user s ids ids'). }
  assert (Hrun2 : data_append (Some ng) user (with_data d1 s)
                  = (Ok tt, with_data d2 s)).
  { by rewrite (data_append_run ng user (with_data d1 s) ids_new). }
  destruct (sort_groups_sorts (with_data d2 s)) as (d3 & Hrun3 & Hsame & _).
  { intros k xs Hk. simpl in Hk. apply Forall_forall. intros x Hx.
    destruct (F1 k xs x Hk Hx) as (k0 & xs0 & Hk0 & Hx0).
    destruct (well_listed_elem l k0 xs0 x Hwell Hk0 Hx0) as [Hne [[m Hm] _]].
    split; [done |]. simpl. fold l. rewrite Hm. by eexists. }
  rewrite with_data_with_data in Hrun3. simpl in Hsame. fold l d d2 in Hsame.
  (* the list after the move *)
  set (l3 := set_data d3 l).
  assert (G1 : forall k xs x, d3 !! k = Some xs -> x ∈ xs ->
                 exists k0 xs0, d !! k0 = Some xs0 /\ x ∈ xs0).
  { intros k xs x Hk Hx.
    destruct (same_members_lookup_r _ _ _ _ Hsame Hk) as (xs2 & Hk2 & Hperm).
    apply (F1 k xs2 x Hk2). by rewrite Hperm. }
  assert (G2 : forall k, is_Some (d !! k) -> is_Some (d3 !! k)).
  { intros k Hk. apply F2 in Hk as [xs2 Hk2].
    destruct (same_members_lookup_l _ _ _ _ Hsame Hk2) as (xs3 & -> & _).
    by eexists. }
  assert (Hdata3 : Forall (fun g => is_Some (data l3 !! gid g)) (groups l3)).
  { eapply Forall_impl; [exact Hdata |]. intros g Hg. by apply G2. }
  destruct (same_members_lookup_l _ _ _ _ Hsame F3) as (ids3 & Hng3 & Hperm3).
  assert (Huser3 : user ∈ ids3).
  { rewrite <- Hperm3. apply elem_of_app. right. by left. }
  assert (Hoff3 : data l3 !! offline <> Some []).
  { simpl. intros H3.
    destruct (same_members_lookup_r _ _ _ _ Hsame H3) as (xs2 & Hk2 & Hperm).
    apply Permutation_nil_r in Hperm. subst xs2. by apply F4. }
  destruct (Hkey ng Hngd) as (g_new & Hg_new & Hgid_new).
  destruct (get_item_index_loop_found l3 user (groups l3) 1 Hdata3) as [nui Hnui].
  { exists g_new, ids3. rewrite Hgid_new. done. }
  assert (Hinit3 : initialized l3 = true).
  { apply (initialized_with_data l d3 ng Hinit). by eexists. }
  destruct (proj2 (items_loop_defined l3 (groups l3))) as [its Hits].
  { apply Forall_forall. intros g Hg. rewrite Forall_forall in Hdata3.
    destruct (Hdata3 g Hg) as [xs Hxs]. exists xs. split; [done |].
    apply Forall_forall. intros x Hx.
    destruct (G1 _ _ _ Hxs Hx) as (k0 & xs0 & Hk0 & Hx0).
    by destruct (well_listed_elem l k0 xs0 x Hwell Hk0 Hx0) as [_ Hc]. }
  destruct (get_item_index_loop_items l3 user (groups l3) 0 its nui Hoff3 Hits Hnui)
    as (item & Hitem & Hlt & Hlook).
  rewrite Z.sub_0_r in Hlook.
  destruct (G2 og) as [xs_og Hog3]; [by eexists |].
  destruct (get_group_item_index_loop_total l3 ng (groups l3) 0 Hdata3)
    as [ngi Hngi].
  destruct (get_subs_loop_int (state (self s)) oui) as (subs_old & Hsubs_old & Hiff_old).
  destruct (get_subs_loop_int (state (self s)) nui) as (subs_new & Hsubs_new & Hiff_new).
  destruct (resync_subscribed subs_old oui (with_data d3 s) Hnd)
    as (tasks_old & Hres_old & Htasks_old).
  { apply Forall_forall. intros sid Hsid. by apply Hiff_old. }
  destruct (resync_subscribed subs_new nui
              (with_tasks tasks_old (with_data d3 s)) Hnd)
    as (tasks_new & Hres_new & Htasks_new).
  { apply Forall_forall. intros sid Hsid. by apply Hiff_new. }
  exists oui, nui, subs_old, subs_new, tasks_old, tasks_new, d3.
  split; [exact Houi |]. split; [exact Hnui |]. split; [exact Hsubs_old |].
  split; [exact Hsubs_new |]. split; [| split; [exact Htasks_old | exact Htasks_new]].
  (* the run *)
  apply wp_eq. unfold _pres_update_complex.
  apply wp_bind, wp_gets. cbv beta iota.
  unfold get_item_index at 1. fold l. rewrite Houi.
  apply wp_bind, wp_lift_res. cbv beta iota.
  unfold get_group_item_index at 1. rewrite Hogi.
  apply wp_bind, wp_lift_res. cbv beta iota.
  apply wp_bind. eapply wp_of_eq; [exact Hrun1 |]. cbv beta iota.
  apply wp_bind. eapply wp_of_eq; [exact Hrun2 |]. cbv beta iota.
  apply wp_bind. eapply wp_of_eq; [exact Hrun3 |]. cbv beta iota.
  apply wp_bind, wp_gets. cbv beta iota.
  change (mlist (self (with_data d3 s))) with l3.
  unfold get_item_index at 1. rewrite Hnui.
  apply wp_bind, wp_lift_res. cbv beta iota.
  unfold items_at, items. rewrite Hinit3. simpl negb. cbv iota. rewrite Hits.
  simpl res_bind. rewrite (py_getitem_lookup its nui item) by (done || lia).
  apply wp_bind, wp_lift_res. cbv beta iota.
  unfold is_birth, getitem. simpl data. rewrite Hng3. simpl res_bind.
  apply wp_bind, wp_lift_res. cbv beta iota.
  apply wp_bind.
  eapply (wp_mono _ (fun r s' => s' = with_data d3 s /\ exists ops, r = Ok ops)).
  { destruct (_ && _).
    - apply wp_bind. unfold get_group_item_index. rewrite Hngi.
      apply wp_lift_res. cbv beta iota. apply wp_ret. split; [done | by eexists].
    - apply wp_ret. split; [done | by eexists]. }
  cbv beta. intros r s' [-> [ops ->]].
  unfold is_empty, getitem. simpl data. rewrite Hog3. simpl res_bind.
  apply wp_bind, wp_lift_res. cbv beta iota.
  apply wp_bind, wp_gets. cbv beta iota.
  unfold index_of_option. unfold get_subs. simpl state.
  rewrite Hsubs_old. apply wp_bind, wp_lift_res. cbv beta iota.
  rewrite Hsubs_new. apply wp_bind, wp_lift_res. cbv beta iota.
  apply wp_bind. eapply wp_of_eq; [exact Hres_old |]. cbv beta iota.
  apply wp_bind. eapply wp_of_eq; [exact Hres_new |]. cbv beta iota.
  apply wp_ret. by rewrite with_tasks_app.
Qed.

Lemma get_item_index_loop_data l l' user gs : forall base,
  data l' = data l ->
  get_item_index_loop l' user base gs = get_item_index_loop l user base gs.
Proof.
  induction gs as [|g gs IH]; intros base Hd; simpl; [done |].
  rewrite Hd. destruct (getitem (data l) (gid g)) as [ids|e]; simpl; [| done].
  destruct (_ || _); [| by apply IH].
  destruct (py_index user ids); [done | by apply IH].
Qed.

Lemma initialized_merged (l : MemberList) user (x : Presence) :
  initialized l = true ->
  initialized (set_presences (<[user := x]> (presences l)) l) = true.
Proof.
  unfold initialized. simpl. intros H.
  apply andb_true_iff in H as [H Hm]. apply andb_true_iff in H as [H _].
  rewrite H, Hm. simpl. rewrite andb_true_r.
  unfold map_truthy. rewrite bool_decide_eq_false_2; [done |].
  intros Hsize. apply map_size_empty_inv in Hsize.
  apply (f_equal (fun m => m !! user)) in Hsize.
  by rewrite lookup_insert_eq, lookup_empty in Hsize.
Qed.

Lemma well_listed_merged (l : MemberList) user (x : Presence) :
  well_listed l ->
  well_listed (set_presences (<[user := x]> (presences l)) l).
Proof.
  unfold well_listed. simpl. intros H k ids Hk. specialize (H k ids Hk).
  simpl in *. eapply Forall_impl; [exact H |].
  intros id [Hne [Hm Hp]]. split; [done |]. split; [exact Hm |]. simpl.
  destruct (decide (id = user)) as [->|Hu].
  - rewrite lookup_insert_eq. by eexists.
  - by rewrite lookup_insert_ne.
Qed.


(** Member [10] stays in ['online'] and only gets a nickname: ['s1'] and
    ['s2'] are re-queried, once for the old index and once for the new
    one, and nothing is sent. *)
Example pres_update_nick_watched :
  fst (pres_update ex_env 10 1 ex_st_watched) = Ok ["s1"; "s2"; "s1"; "s2"]
  /\ tasks (outside (snd (pres_update ex_env 10 1 ex_st_watched)))
     = [ mkTask 1 "s1" [(0, 3)]; mkTask 1 "s2" [(1, 1)];
         mkTask 1 "s1" [(0, 3)]; mkTask 1 "s2" [(1, 1)] ]
  /\ sent (outside (snd (pres_update ex_env 10 1 ex_st_watched))) = [].
Proof. vm_compute. repeat split; reflexivity. Qed.


(** ** The first request to a list that a member cannot read *)

(** C8. The first request to the new list of a private channel that one
    member of the guild cannot read, and the same request again: the first
    call raises [KeyError] at [self.list.data[None]] while the list is
    initialized, and sends nothing; the list it leaves counts as
    initialized, so the second call sends a payload with the [SYNC] of the
    range. The two calls do not produce the same payload. *)
Theorem shard_query_first_request_differs :
  lists ex_world_private !! 2 = Some (mkGML 1 2 MemberList_new [])
  /\ fst (shard_query ex_env_private 1 2 "s1" [(0, 1)] ex_world_private)
     = Raise KeyError
  /\ sent (world_outside
             (snd (shard_query ex_env_private 1 2 "s1" [(0, 1)] ex_world_private)))
     = []
  /\ fst (shard_query ex_env_private 1 2 "s1" [(0, 1)]
            (snd (shard_query ex_env_private 1 2 "s1" [(0, 1)] ex_world_private)))
     = Ok tt
  /\ sent (world_outside
             (snd (shard_query ex_env_private 1 2 "s1" [(0, 1)]
                     (snd (shard_query ex_env_private 1 2 "s1" [(0, 1)]
                             ex_world_private)))))
     = [ mkDispatched "s1" "GUILD_MEMBER_LIST_UPDATE"
           (mkPayload "2" "1"
              [ mkGroupCount "online" 1; mkGroupCount "offline" 0 ]
              [ mkOpDict "SYNC" (Some [GroupItem "online" 1]) (Some (0, 1))
                         None None ]) ].
Proof. vm_compute. repeat split; reflexivity. Qed.

(** C10. The first request to the same new list, for the range [(7, 9)]:
    the call raises [KeyError] while the list is initialized, before the
    loop over the ranges is reached, so the range is not recorded for the
    session and no [SYNC] is sent. *)
Theorem shard_query_first_request_records_nothing :
  lists ex_world_private !! 2 = Some (mkGML 1 2 MemberList_new [])
  /\ fst (shard_query ex_env_private 1 2 "s1" [(7, 9)] ex_world_private)
     = Raise KeyError
  /\ (state <$> lists (snd (shard_query ex_env_private 1 2 "s1" [(7, 9)]
                              ex_world_private)) !! 2)
     = Some []
  /\ sent (world_outside
             (snd (shard_query ex_env_private 1 2 "s1" [(7, 9)] ex_world_private)))
     = [].
Proof. vm_compute. repeat split; reflexivity. Qed.
